(** * Decision-tree core of XAI_FINAL_PROJ: builder, inference, importance

    Shallow embedding of [buildDecisionTree], [predictFromTree],
    [highlightDecisionPath], [calculateFeatureImportance] and
    [formatFeatureName] from [src/components/DecisionTree.tsx] (the same
    functions are repeated in the other copies of the component).

    Conventions of the embedding.
    - A JavaScript number is an exact rational, or one of NaN, +Infinity,
      -Infinity ([num]).  Rounding and overflow of binary64 are not
      modelled, and neither is the sign of zero: the only divisions by zero
      the code can perform are 0/0.  Comparisons, counts and sizes are
      those of the code; sums, quotients, entropies and gains are its
      values before rounding.  The thresholds of the numeric search are
      those of the code where they are computed without rounding
      ([unit_step_column]), and its loop ends in the code where the step
      still moves the threshold ([safe_numbers]).
    - A JavaScript string is a [string] of 8-bit characters.
    - An object used as a dictionary is an association list kept in the
      order in which [Object.keys] enumerates it ([obj]).  Properties
      inherited from [Object.prototype] are not modelled: reads and writes
      are those of the code on every key outside [prototype_names].  A
      statement that depends on a read or a write at a key the data
      chooses carries that condition ([plain_labels], [plain_columns],
      [inherited]).
    - Built-ins of the JavaScript runtime that are not rational functions
      ([Math.log2], number formatting and parsing) are fields of a
      [Runtime] record over which every definition is parametrised. *)

From Stdlib Require Import Bool Arith List String Ascii ZArith NArith QArith.
From Stdlib Require Import Qpower Qround Qabs Lia Lqa Permutation Sorted Morphisms.
Import ListNotations.

Local Open Scope string_scope.
Local Open Scope list_scope.

(** ** JavaScript numbers *)

Module Js.

Inductive num : Type :=
| NaN
| PInf
| NInf
| Fin (q : Q).

Definition of_nat (n : nat) : num := Fin (inject_Z (Z.of_nat n)).

Definition sgn (q : Q) : comparison := Qcompare q 0.

Definition neg (a : num) : num :=
  match a with
  | NaN => NaN
  | PInf => NInf
  | NInf => PInf
  | Fin q => Fin (- q)
  end.

Definition add (a b : num) : num :=
  match a, b with
  | NaN, _ | _, NaN => NaN
  | PInf, NInf | NInf, PInf => NaN
  | PInf, _ | _, PInf => PInf
  | NInf, _ | _, NInf => NInf
  | Fin x, Fin y => Fin (x + y)
  end.

Definition sub (a b : num) : num := add a (neg b).

(** An infinity scaled by a finite factor; a zero factor gives NaN. *)
Definition scale_inf (positive : bool) (q : Q) : num :=
  match sgn q with
  | Eq => NaN
  | Gt => if positive then PInf else NInf
  | Lt => if positive then NInf else PInf
  end.

Definition mul (a b : num) : num :=
  match a, b with
  | NaN, _ | _, NaN => NaN
  | PInf, PInf | NInf, NInf => PInf
  | PInf, NInf | NInf, PInf => NInf
  | PInf, Fin q | Fin q, PInf => scale_inf true q
  | NInf, Fin q | Fin q, NInf => scale_inf false q
  | Fin x, Fin y => Fin (x * y)
  end.

(** Division.  A zero divisor is read as +0. *)
Definition div (a b : num) : num :=
  match a, b with
  | NaN, _ | _, NaN => NaN
  | (PInf | NInf), (PInf | NInf) => NaN
  | Fin _, (PInf | NInf) => Fin 0
  | PInf, Fin q => match sgn q with Lt => NInf | _ => PInf end
  | NInf, Fin q => match sgn q with Lt => PInf | _ => NInf end
  | Fin x, Fin y =>
      match sgn y with
      | Eq => match sgn x with Eq => NaN | Gt => PInf | Lt => NInf end
      | _ => Fin (x / y)
      end
  end.

(** [a < b]; false as soon as one side is NaN. *)
Definition ltb (a b : num) : bool :=
  match a, b with
  | NaN, _ | _, NaN => false
  | _, NInf => false
  | NInf, _ => true
  | PInf, _ => false
  | Fin _, PInf => true
  | Fin x, Fin y => match Qcompare x y with Lt => true | _ => false end
  end.

(** [a <= b]; false as soon as one side is NaN. *)
Definition leb (a b : num) : bool :=
  match a, b with
  | NaN, _ | _, NaN => false
  | NInf, _ => true
  | _, PInf => true
  | _, NInf => false
  | PInf, _ => false
  | Fin x, Fin y => match Qcompare x y with Gt => false | _ => true end
  end.

Definition gtb (a b : num) : bool := ltb b a.

(** [a === b] on numbers. *)
Definition eqb (a b : num) : bool :=
  match a, b with
  | PInf, PInf | NInf, NInf => true
  | Fin x, Fin y => Qeq_bool x y
  | _, _ => false
  end.

(** Truthiness of a number: neither zero nor NaN. *)
Definition truthy (a : num) : bool :=
  match a with
  | NaN => false
  | Fin q => negb (Qeq_bool q 0)
  | _ => true
  end.

(** [a || d] for a number [a]. *)
Definition or_else (a d : num) : num := if truthy a then a else d.

(** [Math.min(a, b)] and [Math.max(a, b)]: NaN is contagious. *)
Definition min2 (a b : num) : num :=
  match a, b with
  | NaN, _ | _, NaN => NaN
  | _, _ => if ltb b a then b else a
  end.

Definition max2 (a b : num) : num :=
  match a, b with
  | NaN, _ | _, NaN => NaN
  | _, _ => if ltb a b then b else a
  end.

(** [Math.min(...l)] and [Math.max(...l)]. *)
Definition min_list (l : list num) : num := fold_left min2 l PInf.
Definition max_list (l : list num) : num := fold_left max2 l NInf.

(** [Math.pow(b, n)] for a finite base and a natural exponent. *)
Definition pow (b : Q) (n : nat) : num := Fin (b ^ Z.of_nat n).

Definition is_fin (a : num) : Prop :=
  match a with Fin _ => True | _ => False end.

(** ** JavaScript values held by records and inputs *)

Inductive value : Type :=
| Num (n : num)
| Str (s : string)
| Undefined.

(** [typeof v === 'number'] *)
Definition is_number (v : value) : bool :=
  match v with Num _ => true | _ => false end.

(** The runtime built-ins the code calls that have no rational model. *)
Record Runtime : Type := {
  (** [Math.log2] on a positive finite argument *)
  log2Q : Q -> Q;
  (** [String(x)] for a finite number [x] *)
  numberToString : Q -> string;
  (** [Number(s)] for a string [s] *)
  stringToNumber : string -> num;
  (** [x.toFixed(1)] *)
  toFixed1 : num -> string
}.

Section Conversions.
Variable rt : Runtime.

(** [Math.log2(a)] *)
Definition log2 (a : num) : num :=
  match a with
  | NaN | NInf => NaN
  | PInf => PInf
  | Fin q =>
      match sgn q with
      | Lt => NaN
      | Eq => NInf
      | Gt => Fin (log2Q rt q)
      end
  end.

(** [String(v)] *)
Definition String_ (v : value) : string :=
  match v with
  | Str s => s
  | Undefined => "undefined"
  | Num NaN => "NaN"
  | Num PInf => "Infinity"
  | Num NInf => "-Infinity"
  | Num (Fin q) => numberToString rt q
  end.

(** [Number(v)] *)
Definition Number_ (v : value) : num :=
  match v with
  | Num n => n
  | Str s => stringToNumber rt s
  | Undefined => NaN
  end.
End Conversions.

(** [a === b] on two strings. *)
Definition streq (a b : string) : bool := String.eqb a b.

(** ** Objects used as dictionaries

    [Object.keys] lists first the keys that are array indices (canonical
    decimal numerals below 2^32 - 1) in increasing numeric order, then the
    other keys in insertion order. *)

Definition obj (A : Type) : Type := list (string * A).

Definition is_digit (c : ascii) : bool :=
  let n := nat_of_ascii c in (48 <=? n)%nat && (n <=? 57)%nat.

Fixpoint digits_value (s : string) (acc : N) : N :=
  match s with
  | EmptyString => acc
  | String c s' =>
      digits_value s' (10 * acc + N.of_nat (nat_of_ascii c - 48))%N
  end.

Fixpoint all_digits (s : string) : bool :=
  match s with
  | EmptyString => true
  | String c s' => is_digit c && all_digits s'
  end.

Definition array_index (k : string) : option N :=
  match k with
  | EmptyString => None
  | String c rest =>
      if all_digits k
         && (negb (Ascii.eqb c "0") || streq rest "")
         && (String.length k <=? 10)%nat
      then
        let n := digits_value k 0 in
        if (n <? 4294967295)%N then Some n else None
      else None
  end.

Fixpoint get {A} (k : string) (o : obj A) : option A :=
  match o with
  | [] => None
  | (k', v) :: o' => if streq k k' then Some v else get k o'
  end.

Definition has {A} (k : string) (o : obj A) : bool :=
  match get k o with Some _ => true | None => false end.

(** Overwrite the value of a key that is present, keeping its place. *)
Fixpoint replace {A} (k : string) (v : A) (o : obj A) : obj A :=
  match o with
  | [] => []
  | (k', v') :: o' =>
      if streq k k' then (k', v) :: o' else (k', v') :: replace k v o'
  end.

(** Place a new array-index key [k] (of value [n]) among the index keys. *)
Fixpoint insert_index {A} (n : N) (k : string) (v : A) (o : obj A) : obj A :=
  match o with
  | [] => [(k, v)]
  | (k', v') :: o' =>
      match array_index k' with
      | Some n' =>
          if (n <? n')%N then (k, v) :: o
          else (k', v') :: insert_index n k v o'
      | None => (k, v) :: o
      end
  end.

(** [o[k] = v] *)
Definition set {A} (k : string) (v : A) (o : obj A) : obj A :=
  if has k o then replace k v o
  else
    match array_index k with
    | Some n => insert_index n k v o
    | None => o ++ [(k, v)]
    end.

Definition keys {A} (o : obj A) : list string := map fst o.
Definition values {A} (o : obj A) : list A := map snd o.

(** [new Set(l)] enumerated: the distinct elements in first-seen order. *)
Fixpoint set_of (seen l : list string) : list string :=
  match l with
  | [] => []
  | x :: l' =>
      if existsb (streq x) seen then set_of seen l'
      else x :: set_of (x :: seen) l'
  end.

End Js.

Import Js.

(** ** Data model *)

(** [DataPoint]: a record of the data set, keys in [Object.keys] order. *)
Definition DataPoint : Type := obj value.

(** [row[k]], for a key that the row holds or that is not the name of a
    property of [Object.prototype]. *)
Definition field (row : DataPoint) (k : string) : value :=
  match get k row with Some v => v | None => Undefined end.

(** The objects [buildDecisionTree] returns.  A leaf is the object
    [{name, value: 1, confidence, samples, distribution, prediction: true}]
    (the two constant fields are left out); a decision node is
    [{name, condition, confidence, feature, threshold, samples,
    distribution, children: [left, right]}]. *)
Inductive TreeNode : Type :=
| Leaf (name : string) (confidence : num) (samples : nat)
       (distribution : obj nat)
| Decision (name condition : string) (confidence : num) (feature : string)
           (threshold : value) (samples : nat) (distribution : obj nat)
           (left right : TreeNode).

Definition node_name (t : TreeNode) : string :=
  match t with
  | Leaf n _ _ _ => n
  | Decision n _ _ _ _ _ _ _ _ => n
  end.

Definition node_confidence (t : TreeNode) : num :=
  match t with
  | Leaf _ c _ _ => c
  | Decision _ _ c _ _ _ _ _ _ => c
  end.

Definition node_samples (t : TreeNode) : nat :=
  match t with
  | Leaf _ _ s _ => s
  | Decision _ _ _ _ _ s _ _ _ => s
  end.

Definition node_distribution (t : TreeNode) : obj nat :=
  match t with
  | Leaf _ _ _ d => d
  | Decision _ _ _ _ _ _ d _ _ => d
  end.

Definition is_leaf (t : TreeNode) : bool :=
  match t with Leaf _ _ _ _ => true | _ => false end.

(** The leaves of a tree, left to right. *)
Fixpoint leaves (t : TreeNode) : list TreeNode :=
  match t with
  | Leaf _ _ _ _ => [t]
  | Decision _ _ _ _ _ _ _ l r => leaves l ++ leaves r
  end.

(** The subtrees of a tree, root first. *)
Fixpoint subtrees (t : TreeNode) : list TreeNode :=
  t :: match t with
       | Leaf _ _ _ _ => []
       | Decision _ _ _ _ _ _ _ l r => subtrees l ++ subtrees r
       end.

(** ** [formatFeatureName] *)

Definition featureMap : obj string :=
  [ ("cp", "Chest Pain Type");
    ("trestbps", "Resting Blood Pressure");
    ("chol", "Cholesterol");
    ("fbs", "Fasting Blood Sugar");
    ("restecg", "Resting ECG");
    ("thalach", "Max Heart Rate");
    ("exang", "Exercise Induced Angina");
    ("oldpeak", "ST Depression");
    ("ca", "Number of Vessels");
    ("thal", "Thalassemia");
    ("applicant_income", "Monthly Income");
    ("loan_amount", "Loan Amount");
    ("loan_term", "Loan Term");
    ("credit_history", "Credit History");
    ("capital-gain", "Capital Gains");
    ("capital-loss", "Capital Losses");
    ("hours-per-week", "Hours per Week");
    ("education-num", "Years of Education") ].

(** [s.split('_')] *)
Fixpoint split_underscore (s : string) : list string :=
  match s with
  | EmptyString => [""]
  | String c s' =>
      if Ascii.eqb c "_" then "" :: split_underscore s'
      else match split_underscore s' with
           | [] => [String c ""]
           | w :: ws => String c w :: ws
           end
  end.

(** [c.toUpperCase()] on an ASCII character. *)
Definition toUpperCase (c : ascii) : ascii :=
  let n := nat_of_ascii c in
  if (97 <=? n)%nat && (n <=? 122)%nat then ascii_of_nat (n - 32) else c.

(** [word.charAt(0).toUpperCase() + word.slice(1)] *)
Definition capitalize (word : string) : string :=
  match word with
  | EmptyString => ""
  | String c rest => String (toUpperCase c) rest
  end.

(** [words.join(' ')] *)
Fixpoint join_space (words : list string) : string :=
  match words with
  | [] => ""
  | [w] => w
  | w :: ws => w ++ " " ++ join_space ws
  end.

(** [featureMap[feature] || ...]: the read finds an entry of the table or
    nothing, as in the code for every name that is not the name of a
    property of [Object.prototype]. *)
Definition formatFeatureName (feature : string) : string :=
  match get feature featureMap with
  | Some pretty => pretty
  | None => join_space (map capitalize (split_underscore feature))
  end.

(** ** Tree inference *)

Record Prediction : Type := {
  prediction : string;
  confidence : num
}.

Section Inference.
Variable rt : Runtime.

(** [predictFromTree(tree, input)]: the loop [while (currentNode.children)]
    descends one level per iteration, hence the recursion on the tree. *)
Fixpoint predictFromTree (tree : TreeNode) (input : obj value) : Prediction :=
  match tree with
  | Leaf name conf _ _ =>
      {| prediction := name; confidence := or_else conf (Fin 0) |}
  | Decision _ _ _ feature threshold _ _ l r =>
      let value_ := field input feature in
      if is_number threshold then
        if leb (Number_ rt value_) (Number_ rt threshold)
        then predictFromTree l input else predictFromTree r input
      else
        if streq (String_ rt value_) (String_ rt threshold)
        then predictFromTree l input else predictFromTree r input
  end.

(** [highlightDecisionPath(tree, input)]: the value of [path] that the
    function hands to [setSelectedPath]. *)
Fixpoint highlightDecisionPath (tree : TreeNode) (input : obj value)
  : list TreeNode :=
  match tree with
  | Leaf _ _ _ _ => [tree]
  | Decision _ _ _ feature threshold _ _ l r =>
      let value_ := field input feature in
      tree ::
      (if is_number threshold then
         if leb (Number_ rt value_) (Number_ rt threshold)
         then highlightDecisionPath l input
         else highlightDecisionPath r input
       else
         if streq (String_ rt value_) (String_ rt threshold)
         then highlightDecisionPath l input
         else highlightDecisionPath r input)
  end.
End Inference.

(** ** Tree builder *)

(** Outcome of a computation that may raise a [TypeError] (reading a
    property of [undefined], reducing an empty array without an initial
    value) or exhaust the fuel that bounds its loops. *)
Inductive result (A : Type) : Type :=
| Ok (a : A)
| TypeError
| OutOfFuel.
Arguments Ok {A} a.
Arguments TypeError {A}.
Arguments OutOfFuel {A}.

Definition bind {A B} (m : result A) (k : A -> result B) : result B :=
  match m with
  | Ok a => k a
  | TypeError => TypeError
  | OutOfFuel => OutOfFuel
  end.

Notation "x <- m ;; k" := (bind m (fun x => k))
  (at level 61, m at next level, right associativity).

(** The object returned by [findBestSplit]. *)
Record Split : Type := {
  s_feature : string;
  s_threshold : value;
  s_gain : num;
  s_isNumeric : bool
}.

(** [values as number[]]: a cast, applied only when every value is a
    number. *)
Definition as_number (v : value) : num :=
  match v with Num n => n | _ => NaN end.

(** [s === v] for a string [s]. *)
Definition str_strict_eq (s : string) (v : value) : bool :=
  match v with Str s' => streq s s' | _ => false end.

Definition le_sign : string :=
  String (ascii_of_nat 226) (String (ascii_of_nat 137)
    (String (ascii_of_nat 164) "")).
Definition dquote : string := String (ascii_of_nat 34) "".

(** Number of evaluations of the loop test [threshold < max] that the
    numeric threshold search is given. *)
Definition threshold_fuel : nat := 20.

Section Builder.
Variable rt : Runtime.
Variable target : string.

(** [String(row[target])] *)
Definition label (row : DataPoint) : string := String_ rt (field row target).

(** One step of the [forEach] that tallies the labels: the loop body is
    the same in [getEntropy], [getDistribution] and [getMajorityClass].
    The read [counts[value]] finds a count or nothing, as in the code for
    every label that is not the name of a property of
    [Object.prototype]. *)
Definition tally (counts : obj nat) (row : DataPoint) : obj nat :=
  let value_ := label row in
  set value_ (match get value_ counts with Some c => c | None => 0 end + 1)%nat
      counts.

Definition getDistribution (subset : list DataPoint) : obj nat :=
  fold_left tally subset [].

Definition getEntropy (subset : list DataPoint) : num :=
  let counts := fold_left tally subset [] in
  neg (fold_left
         (fun sum count =>
            let p := div (of_nat count) (of_nat (List.length subset)) in
            add sum (mul p (log2 rt p)))
         (values counts) (Fin 0)).

(** The body shared by the numeric and the categorical loop of
    [findBestSplit], from the size test to the update of the best
    candidate. *)
Definition consider (subset : list DataPoint) (best : Split)
    (feature : string) (threshold : value) (isNumeric : bool)
    (left right : list DataPoint) : Split :=
  if (List.length left <? 5)%nat || (List.length right <? 5)%nat then best
  else
    let entropyBefore := getEntropy subset in
    let entropyAfter :=
      add (mul (div (of_nat (List.length left)) (of_nat (List.length subset)))
               (getEntropy left))
          (mul (div (of_nat (List.length right)) (of_nat (List.length subset)))
               (getEntropy right)) in
    let gain := sub entropyBefore entropyAfter in
    if gtb gain (s_gain best)
    then {| s_feature := feature; s_threshold := threshold;
            s_gain := gain; s_isNumeric := isNumeric |}
    else best.

(** [for (threshold = ...; threshold < max; threshold += step)], the
    threshold advancing without rounding; [fuel] bounds the number of
    tests of [threshold < max]. *)
Fixpoint numeric_loop (fuel : nat) (subset : list DataPoint)
    (feature : string) (threshold step max : num) (best : Split)
  : result Split :=
  match fuel with
  | O => OutOfFuel
  | S fuel' =>
      if ltb threshold max then
        let left :=
          filter (fun row => leb (Number_ rt (field row feature)) threshold)
                 subset in
        let right :=
          filter (fun row => gtb (Number_ rt (field row feature)) threshold)
                 subset in
        numeric_loop fuel' subset feature (add threshold step) step max
          (consider subset best feature (Num threshold) true left right)
      else Ok best
  end.

(** [for (const category of categories)] *)
Definition categorical_loop (subset : list DataPoint) (feature : string)
    (categories : list string) (best : Split) : Split :=
  fold_left
    (fun best category =>
       let left :=
         filter (fun row => streq (String_ rt (field row feature)) category)
                subset in
       let right :=
         filter (fun row =>
                   negb (streq (String_ rt (field row feature)) category))
                subset in
       consider subset best feature (Str category) false left right)
    categories best.

(** The body of [for (const feature of features)]. *)
Definition scan_feature (subset : list DataPoint) (best : Split)
    (feature : string) : result Split :=
  let values_ := map (fun row => field row feature) subset in
  let isNumeric := forallb is_number values_ in
  if isNumeric then
    let numericValues := map as_number values_ in
    let min := min_list numericValues in
    let max := max_list numericValues in
    let steps := min2 (Fin 20) (sub max min) in
    let step := div (sub max min) steps in
    numeric_loop threshold_fuel subset feature (add min step) step max best
  else
    let categories := set_of [] (map (String_ rt) values_) in
    Ok (categorical_loop subset feature categories best).

Definition initial_split : Split :=
  {| s_feature := ""; s_threshold := Num (Fin 0);
     s_gain := NInf; s_isNumeric := true |}.

Definition candidate_features (row0 : DataPoint) : list string :=
  filter (fun f => negb (streq f target) && negb (streq f "id")
                   && negb (streq f "loan_id"))
         (keys row0).

Definition findBestSplit (subset : list DataPoint) : result Split :=
  match subset with
  | [] => TypeError
  | row0 :: _ =>
      fold_left
        (fun acc feature => best <- acc ;; scan_feature subset best feature)
        (candidate_features row0) (Ok initial_split)
  end.

Definition getMajorityClass (subset : list DataPoint) : result string :=
  let counts := fold_left tally subset [] in
  match counts with
  | [] => TypeError
  | first :: rest =>
      Ok (fst (fold_left
                 (fun a b => if (snd b <? snd a)%nat then a else b)
                 rest first))
  end.

(** The leaf built at both fallback sites of [buildDecisionTree]. *)
Definition majority_leaf (data : list DataPoint) (distribution : obj nat)
  : result (option TreeNode) :=
  majorityClass <- getMajorityClass data ;;
  let confidence :=
    div (of_nat (List.length (filter (fun row => streq (label row) majorityClass)
                                data)))
        (of_nat (List.length data)) in
  Ok (Some (Leaf majorityClass confidence (List.length data) distribution)).

(** The body of [buildDecisionTree]; [fuel] bounds the recursion depth. *)
Fixpoint build (fuel : nat) (data : list DataPoint) (maxDepth : num)
  : result (option TreeNode) :=
  if eqb maxDepth (Fin 0) || (List.length data <? 5)%nat then Ok None
  else
    match fuel with
    | O => OutOfFuel
    | S fuel' =>
        split <- findBestSplit data ;;
        let distribution := getDistribution data in
        if leb (s_gain split) (Fin (1 # 100)) then
          majority_leaf data distribution
        else
          let formattedFeature := formatFeatureName (s_feature split) in
          let left :=
            if s_isNumeric split then
              filter (fun row =>
                        leb (Number_ rt (field row (s_feature split)))
                            (Number_ rt (s_threshold split))) data
            else
              filter (fun row =>
                        str_strict_eq
                          (String_ rt (field row (s_feature split)))
                          (s_threshold split)) data in
          let right :=
            if s_isNumeric split then
              filter (fun row =>
                        gtb (Number_ rt (field row (s_feature split)))
                            (Number_ rt (s_threshold split))) data
            else
              filter (fun row =>
                        negb (str_strict_eq
                                (String_ rt (field row (s_feature split)))
                                (s_threshold split))) data in
          let condition :=
            (if s_isNumeric split then
               le_sign ++ " " ++ toFixed1 rt (Number_ rt (s_threshold split))
             else
               "= " ++ dquote ++ String_ rt (s_threshold split) ++ dquote
            )%string in
          leftChild <- build fuel' left (sub maxDepth (Fin 1)) ;;
          rightChild <- build fuel' right (sub maxDepth (Fin 1)) ;;
          match leftChild, rightChild with
          | Some l, Some r =>
              Ok (Some (Decision formattedFeature condition (s_gain split)
                          formattedFeature (s_threshold split)
                          (List.length data) distribution l r))
          | _, _ => majority_leaf data distribution
          end
    end.

(** [buildDecisionTree(data, target, maxDepth)].  Every recursive call
    receives strictly fewer records, so [List.length data] levels suffice. *)
Definition buildDecisionTree (data : list DataPoint) (maxDepth : num)
  : result (option TreeNode) :=
  build (List.length data) data maxDepth.
End Builder.

(** ** Feature importance *)

(** [arr.sort(cmp)].  [Array.prototype.sort] is stable, and for a
    comparator that orders its arguments consistently every stable sort
    returns the list computed here: each element is placed before the
    first element it must strictly precede. *)
Fixpoint sort_insert {A} (cmp : A -> A -> num) (x : A) (l : list A) : list A :=
  match l with
  | [] => [x]
  | y :: l' =>
      if ltb (cmp x y) (Fin 0) then x :: l else y :: sort_insert cmp x l'
  end.

Definition sort {A} (cmp : A -> A -> num) (l : list A) : list A :=
  fold_left (fun acc x => sort_insert cmp x acc) l [].

(** The two variables captured by the closure [traverse]. *)
Record ImportanceState : Type := {
  importanceMap : obj num;
  totalImportance : num
}.

(** The body of [if (node.feature) { ... }]. *)
Definition add_importance (feature : string) (samples : nat) (conf : num)
    (depth : nat) (st : ImportanceState) : ImportanceState :=
  let nodeImportance :=
    mul (mul (div (or_else (of_nat samples) (Fin 1)) (Fin 100))
             (pow (9 # 10) depth))
        (or_else conf (Fin (1 # 2))) in
  {| importanceMap :=
       set feature
           (add (match get feature (importanceMap st) with
                 | Some v => or_else v (Fin 0)
                 | None => Fin 0
                 end)
                nodeImportance)
           (importanceMap st);
     totalImportance := add (totalImportance st) nodeImportance |}.

(** [traverse(node, depth)] *)
Fixpoint traverse (node : TreeNode) (depth : nat) (st : ImportanceState)
  : ImportanceState :=
  match node with
  | Leaf _ _ _ _ => st
  | Decision _ _ conf feature _ samples _ l r =>
      let st1 :=
        if streq feature "" then st
        else add_importance feature samples conf depth st in
      traverse r (depth + 1) (traverse l (depth + 1) st1)
  end.

(** [Object.keys(importanceMap).forEach(key => ...)] *)
Definition normalize (total : num) (m : obj num) : obj num :=
  fold_left
    (fun m key =>
       set key (div (match get key m with Some v => v | None => NaN end) total)
           m)
    (keys m) m.

(** [calculateFeatureImportance(tree)]: the list of
    [{feature, importance}] pairs. *)
Definition calculateFeatureImportance (tree : option TreeNode)
  : list (string * num) :=
  match tree with
  | None => []
  | Some root =>
      let st :=
        traverse root 0 {| importanceMap := []; totalImportance := Fin 0 |} in
      let m :=
        if gtb (totalImportance st) (Fin 0)
        then normalize (totalImportance st) (importanceMap st)
        else importanceMap st in
      sort (fun a b => sub (snd b) (snd a)) m
  end.

(** ** A runtime to compute with

    A runtime for the closed instances below, which hold integers and
    call [Math.log2] on 1 and 1/2 only.  [Math.log2] is exact on the
    powers of two (elsewhere it returns the difference of the integer
    logarithms of numerator and denominator); integers are printed in
    full and read from plain decimal numerals; [toFixed(1)] rounds the
    exact value.  The statements that are not closed instances hold for
    every runtime. *)

Module Reference.

Definition log2Q (q : Q) : Q :=
  let r := Qred q in
  inject_Z (Z.log2 (Qnum r) - Z.log2 (Zpos (Qden r))).

Definition digit (z : Z) : ascii := ascii_of_nat (48 + Z.to_nat z).

Fixpoint digits (fuel : nat) (z : Z) (acc : string) : string :=
  match fuel with
  | O => acc
  | S fuel' =>
      let acc' := String (digit (z mod 10)) acc in
      if (z <? 10)%Z then acc' else digits fuel' (z / 10) acc'
  end.

(** Decimal numeral of a non-negative integer. *)
Definition natural (z : Z) : string := digits (S (Z.to_nat (Z.log2 z))) z "".

Fixpoint fraction (fuel : nat) (r : Q) : string :=
  match fuel with
  | O => ""
  | S fuel' =>
      if Qeq_bool r 0 then ""
      else
        let d := Qfloor (r * 10) in
        String (digit d) (fraction fuel' (r * 10 - inject_Z d))
  end.

Definition numberToString (q : Q) : string :=
  let a := Qabs q in
  let whole := Qfloor a in
  let rest := fraction 17 (a - inject_Z whole) in
  ((if Qlt_le_dec q 0 then "-" else "")
   ++ natural whole
   ++ (if streq rest "" then "" else "." ++ rest))%string.

Fixpoint read_digits (s : string) (acc : Z) : option Z :=
  match s with
  | EmptyString => Some acc
  | String c s' =>
      if is_digit c
      then read_digits s' (10 * acc + Z.of_nat (nat_of_ascii c - 48))%Z
      else None
  end.

Definition stringToNumber (s : string) : num :=
  match s with
  | EmptyString => Fin 0
  | String "-" (String c s') =>
      match read_digits (String c s') 0 with
      | Some z => Fin (inject_Z (- z))
      | None => NaN
      end
  | _ =>
      match read_digits s 0 with
      | Some z => Fin (inject_Z z)
      | None => NaN
      end
  end.

Definition toFixed1 (a : num) : string :=
  match a with
  | NaN => "NaN"
  | PInf => "Infinity"
  | NInf => "-Infinity"
  | Fin q =>
      let tenths := Qfloor (Qabs q * 10 + (1 # 2)) in
      ((if Qlt_le_dec q 0 then "-" else "")
       ++ natural (tenths / 10) ++ "." ++ natural (tenths mod 10))%string
  end.

Definition runtime : Runtime :=
  {| Js.log2Q := log2Q;
     Js.numberToString := numberToString;
     Js.stringToNumber := stringToNumber;
     Js.toFixed1 := toFixed1 |}.

End Reference.

(** ** Vocabulary of the statements *)

(** The count an object of tallies holds for a class; an absent class
    counts for zero. *)
Definition get_count (c : string) (o : obj nat) : nat :=
  match get c o with Some n => n | None => 0%nat end.

Section BuilderVocabulary.
Variable rt : Runtime.
Variable target : string.

(** Number of records of a class. *)
Definition count_label (c : string) (data : list DataPoint) : nat :=
  List.length (filter (fun row => streq (label rt target row) c) data).

(** The gain [consider] computes for a partition. *)
Definition gain_of (subset left right : list DataPoint) : num :=
  sub (getEntropy rt target subset)
      (add (mul (div (of_nat (List.length left)) (of_nat (List.length subset)))
                (getEntropy rt target left))
           (mul (div (of_nat (List.length right)) (of_nat (List.length subset)))
                (getEntropy rt target right))).

(** The splits [findBestSplit] examines, with the two parts each makes. *)
Inductive candidate (subset : list DataPoint)
  : Split -> list DataPoint -> list DataPoint -> Prop :=
| cand_numeric (feature : string) (t : num) :
    t <> NaN ->
    Forall (fun row => exists n, field row feature = Num n /\ n <> NaN)
           subset ->
    let left :=
      filter (fun row => leb (Number_ rt (field row feature)) t) subset in
    let right :=
      filter (fun row => gtb (Number_ rt (field row feature)) t) subset in
    candidate subset
      {| s_feature := feature; s_threshold := Num t;
         s_gain := gain_of subset left right; s_isNumeric := true |}
      left right
| cand_categorical (feature c : string) :
    let left :=
      filter (fun row => streq (String_ rt (field row feature)) c) subset in
    let right :=
      filter (fun row => negb (streq (String_ rt (field row feature)) c))
             subset in
    candidate subset
      {| s_feature := feature; s_threshold := Str c;
         s_gain := gain_of subset left right; s_isNumeric := false |}
      left right.

(** What [findBestSplit] returns: its initial value, or a candidate
    whose two parts hold at least five records each. *)
Definition split_ok (subset : list DataPoint) (s : Split) : Prop :=
  s = initial_split
  \/ exists left right,
       candidate subset s left right
       /\ (5 <= List.length left)%nat /\ (5 <= List.length right)%nat.

(** The two parts [buildDecisionTree] recurses on. *)
Definition left_part (split : Split) (data : list DataPoint) : list DataPoint :=
  if s_isNumeric split then
    filter (fun row => leb (Number_ rt (field row (s_feature split)))
                           (Number_ rt (s_threshold split))) data
  else
    filter (fun row => str_strict_eq (String_ rt (field row (s_feature split)))
                                     (s_threshold split)) data.

Definition right_part (split : Split) (data : list DataPoint) : list DataPoint :=
  if s_isNumeric split then
    filter (fun row => gtb (Number_ rt (field row (s_feature split)))
                           (Number_ rt (s_threshold split))) data
  else
    filter (fun row => negb (str_strict_eq
                               (String_ rt (field row (s_feature split)))
                               (s_threshold split))) data.
End BuilderVocabulary.


(** Every decision node of [t] carries the sum of its two children. *)
Fixpoint children_add_up (t : TreeNode) : Prop :=
  match t with
  | Leaf _ _ _ _ => True
  | Decision _ _ _ _ _ samples distribution l r =>
      (forall c, (get_count c (node_distribution l)
                  + get_count c (node_distribution r))%nat
                 = get_count c distribution)
      /\ (node_samples l + node_samples r)%nat = samples
      /\ children_add_up l /\ children_add_up r
  end.


(** The traversal of the specification (section 4.2, edge policy), in the
    specification's words: at a decision node whose split feature is
    absent from the input the call fails ([None]); otherwise it branches
    as [predictFromTree] does. *)
Fixpoint predict_checked (rt : Runtime) (tree : TreeNode) (input : obj value)
  : option Prediction :=
  match tree with
  | Leaf name conf _ _ => Some {| prediction := name; confidence := conf |}
  | Decision _ _ _ feature threshold _ _ l r =>
      match get feature input with
      | None => None
      | Some value_ =>
          if (if is_number threshold
              then leb (Number_ rt value_) (Number_ rt threshold)
              else streq (String_ rt value_) (String_ rt threshold))
          then predict_checked rt l input
          else predict_checked rt r input
      end
  end.

(** The outcome the specification's concrete scenario announces: a numeric
    split on [x] with a positive gain over two pure leaves "a" and "b". *)
Definition scenario_outcome (r : result (option TreeNode)) : Prop :=
  exists name cond g feature t samples dist ca sa da cb sb db,
    r = Ok (Some (Decision name cond (Fin g) feature (Num t) samples dist
                    (Leaf "a" (Fin ca) sa da) (Leaf "b" (Fin cb) sb db)))
    /\ 0 < g /\ ca == 1 /\ cb == 1.

(** ** Sample data *)

Module Sample.

Definition int (z : Z) : value := Num (Fin (inject_Z z)).

Definition row (k : string) (x : Z) (y : string) : DataPoint :=
  [(k, int x); ("y", Str y)].

(** The record set of the specification's concrete scenario. *)
Definition scenario : list DataPoint :=
  [ row "x" 1 "a"; row "x" 2 "a"; row "x" 8 "b"; row "x" 9 "b";
    row "x" 10 "b" ].

(** Ten records, the column [k] separating the two classes. *)
Definition ten (k : string) : list DataPoint :=
  [ row k 1 "a"; row k 2 "a"; row k 3 "a"; row k 4 "a"; row k 5 "a";
    row k 6 "b"; row k 7 "b"; row k 8 "b"; row k 9 "b"; row k 10 "b" ].

Definition four : list DataPoint :=
  [ row "x" 1 "a"; row "x" 2 "a"; row "x" 8 "b"; row "x" 9 "b" ].

(** The tree built from [ten k] by the reference runtime, depth 2. *)
Definition ten_tree (k : string) : TreeNode :=
  Decision (formatFeatureName k) (le_sign ++ " 5.0") (Fin (250000 # 250000))
           (formatFeatureName k) (Num (Fin (32805 # 6561))) 10
           [("a", 5%nat); ("b", 5%nat)]
           (Leaf "a" (Fin (5 # 5)) 5 [("a", 5%nat)])
           (Leaf "b" (Fin (5 # 5)) 5 [("b", 5%nat)]).

End Sample.


(** ** Vocabulary of feature importance, in the specification's words *)

(** The rational a finite number stands for. *)
Definition to_Q (a : num) : Q :=
  match a with Fin q => q | _ => 0 end.

(** [(samples/100) * 0.9^depth * splitQuality] *)
Definition contribution (samples depth : nat) (splitQuality : Q) : Q :=
  inject_Z (Z.of_nat samples) / 100 * (9 # 10) ^ Z.of_nat depth * splitQuality.

(** The decision nodes of a tree in depth-first order, each with its
    feature and its contribution; [depth] is the depth of the root. *)
Fixpoint contributions (t : TreeNode) (depth : nat) : list (string * Q) :=
  match t with
  | Leaf _ _ _ _ => []
  | Decision _ _ conf feature _ samples _ l r =>
      (feature, contribution samples depth (to_Q conf))
        :: contributions l (depth + 1) ++ contributions r (depth + 1)
  end.

(** The running total of a feature. *)
Fixpoint total_of (f : string) (cs : list (string * Q)) : Q :=
  match cs with
  | [] => 0
  | (f', c) :: cs' => (if streq f f' then c else 0) + total_of f cs'
  end.

(** The grand total across all features. *)
Fixpoint grand_total (cs : list (string * Q)) : Q :=
  match cs with
  | [] => 0
  | (_, c) :: cs' => c + grand_total cs'
  end.

(** The sum of the weights of a ranking. *)
Fixpoint sum_weights (l : list (string * num)) : Q :=
  match l with
  | [] => 0
  | (_, w) :: l' => to_Q w + sum_weights l'
  end.

(** A ranking in descending order of weight. *)
Definition descending (l : list (string * num)) : Prop :=
  StronglySorted (fun a b => to_Q (snd b) <= to_Q (snd a)) l.

(** Every decision node has a name for its feature, some samples and a
    positive finite split quality. *)
Fixpoint decisions_scored (t : TreeNode) : Prop :=
  match t with
  | Leaf _ _ _ _ => True
  | Decision _ _ conf feature _ samples _ l r =>
      feature <> "" /\ (0 < samples)%nat
      /\ (exists g, conf = Fin g /\ 0 < g)
      /\ decisions_scored l /\ decisions_scored r
  end.

(** The state of [traverse] after the decision nodes listed in [acc]. *)
Definition tracks (st : ImportanceState) (acc : list (string * Q)) : Prop :=
  NoDup (keys (importanceMap st))
  /\ (exists T, totalImportance st = Fin T /\ T == grand_total acc)
  /\ (forall f v, get f (importanceMap st) = Some v ->
        In f (map fst acc)
        /\ exists q, v = Fin q /\ q == total_of f acc /\ 0 < q)
  /\ (forall f, get f (importanceMap st) = None -> ~ In f (map fst acc))
  /\ sum_weights (importanceMap st) == grand_total acc
  /\ Forall (fun e => 0 < snd e) acc.


(** ** Vocabulary of the further properties *)

(** Number of levels of decision nodes above the deepest leaf. *)
Fixpoint height (t : TreeNode) : nat :=
  match t with
  | Leaf _ _ _ _ => 0%nat
  | Decision _ _ _ _ _ _ _ l r => S (Nat.max (height l) (height r))
  end.

(** The features the decision nodes of a tree read from an input. *)
Fixpoint tree_features (t : TreeNode) : list string :=
  match t with
  | Leaf _ _ _ _ => []
  | Decision _ _ _ feature _ _ _ l r =>
      feature :: tree_features l ++ tree_features r
  end.

(** [child] is one of the two children of [parent]. *)
Definition child_of (parent child : TreeNode) : Prop :=
  match parent with
  | Leaf _ _ _ _ => False
  | Decision _ _ _ _ _ _ _ l r => child = l \/ child = r
  end.

(** A list of nodes in which each node is a child of the one before. *)
Fixpoint descends (p : list TreeNode) : Prop :=
  match p with
  | a :: ((b :: _) as rest) => child_of a b /\ descends rest
  | _ => True
  end.

(** The string starts with one of the letters [a] to [z]. *)
Definition starts_lowercase (s : string) : bool :=
  match s with
  | EmptyString => false
  | String c _ =>
      let n := nat_of_ascii c in (97 <=? n)%nat && (n <=? 122)%nat
  end.


(** The values [threshold] takes in the loop
    [for (threshold = ...; threshold < max; threshold += step)]. *)
Fixpoint thresholds (fuel : nat) (threshold step max : num) : list num :=
  match fuel with
  | O => []
  | S fuel' =>
      if ltb threshold max
      then threshold :: thresholds fuel' (add threshold step) step max
      else []
  end.

(** The thresholds [findBestSplit] examines on a numeric column, each
    computed without rounding. *)
Definition examined_thresholds (subset : list DataPoint) (feature : string)
  : list num :=
  let numericValues :=
    map as_number (map (fun row => field row feature) subset) in
  let min := min_list numericValues in
  let max := max_list numericValues in
  let steps := min2 (Fin 20) (sub max min) in
  let step := div (sub max min) steps in
  thresholds threshold_fuel (add min step) step max.

(** [findBestSplit] takes the column for numeric. *)
Definition numeric_column (subset : list DataPoint) (feature : string) : bool :=
  forallb is_number (map (fun row => field row feature) subset).


(** ** The form of the component *)

(** The pieces of component state that [handleFeatureChange] writes:
    [inputData], [prediction], [confidence] and [selectedPath] (the nodes
    of the path, without their [d3.hierarchy] wrappers). *)
Record ViewState : Type := {
  inputData : obj value;
  shownPrediction : option string;
  shownConfidence : option num;
  selectedPath : list TreeNode
}.

(** [handleFeatureChange(name, value)] with the state [treeData] of the
    component as a parameter.  [{ ...inputData, [name]: value }] copies
    the properties in order and then writes [name]. *)
Definition handleFeatureChange (rt : Runtime) (treeData : option TreeNode)
    (st : ViewState) (name : string) (value_ : value) : ViewState :=
  let updatedInputData := set name value_ (inputData st) in
  match treeData with
  | Some tree =>
      let result := predictFromTree rt tree updatedInputData in
      {| inputData := updatedInputData;
         shownPrediction := Some (prediction result);
         shownConfidence := Some (confidence result);
         selectedPath := highlightDecisionPath rt tree updatedInputData |}
  | None =>
      {| inputData := updatedInputData;
         shownPrediction := shownPrediction st;
         shownConfidence := shownConfidence st;
         selectedPath := selectedPath st |}
  end.


(** [getTargetColumn(dataset)] *)
Definition getTargetColumn (dataset : string) : string :=
  if streq dataset "Adult Income" then "income"
  else if streq dataset "Heart Disease" then "target"
  else if streq dataset "Loan Approval" then "loan_status"
  else "income".

(** The [excludeColumns] that [extractFeatureInputs] picks for the
    [dataset] of the component. *)
Definition excludeColumns (dataset : string) : list string :=
  if streq dataset "Adult Income" then ["fnlwgt"; "income"; "educational-num"]
  else if streq dataset "Heart Disease" then ["target"]
  else if streq dataset "Loan Approval" then ["loan_id"; "loan_status"]
  else ["fnlwgt"; "income"; "educational-num"].

Inductive FeatureType : Type := numeric | categorical.

(** [FeatureInput]; the optional fields are absent when [None]. *)
Record FeatureInput : Type := {
  fi_name : string;
  fi_value : value;
  fi_type : FeatureType;
  fi_options : option (list string);
  fi_min : option num;
  fi_max : option num
}.

(** [isNaN(x)] on a number. *)
Definition isNaN (a : num) : bool :=
  match a with NaN => true | _ => false end.

(** [val !== ''] *)
Definition is_empty_string (v : value) : bool :=
  match v with Str EmptyString => true | _ => false end.

Section FormInputs.
Variable rt : Runtime.
(** [d3.mean] of an array of numbers ([None] stands for [undefined]) and
    [Math.round], from outside the repository. *)
Variable d3_mean : list num -> option num.
Variable Math_round : num -> num.
Variable dataset : string.

(** [!isNaN(Number(val)) && val !== null && val !== ''] on a value that
    is a number, a string or [undefined]. *)
Definition reads_as_number (val : value) : bool :=
  negb (isNaN (Number_ rt val)) && negb (is_empty_string val).

(** The object pushed for one column. *)
Definition feature_input (data : list DataPoint) (key : string) : FeatureInput :=
  let allValues := map (fun row => field row key) data in
  let isNumeric := forallb reads_as_number allValues in
  if isNumeric then
    let values_ := map (fun row => Number_ rt (field row key)) data in
    {| fi_name := key;
       fi_value :=
         Num (Math_round (match d3_mean values_ with
                          | Some m => or_else m (Fin 0)
                          | None => Fin 0
                          end));
       fi_type := numeric;
       fi_options := None;
       fi_min := Some (min_list values_);
       fi_max := Some (max_list values_) |}
  else
    let uniqueValues :=
      set_of [] (map (fun row => String_ rt (field row key)) data) in
    {| fi_name := key;
       fi_value := match uniqueValues with
                   | [] => Undefined
                   | first :: _ => Str first
                   end;
       fi_type := categorical;
       fi_options := Some uniqueValues;
       fi_min := None;
       fi_max := None |}.

(** [extractFeatureInputs(data)]: [Object.entries(data[0])] raises when
    [data] is empty. *)
Definition extractFeatureInputs (data : list DataPoint)
  : result (list FeatureInput) :=
  match data with
  | [] => TypeError
  | firstRow :: _ =>
      Ok (fold_left
            (fun features (entry : string * value) =>
               let key := fst entry in
               if existsb (streq key) (excludeColumns dataset) then features
               else features ++ [feature_input data key])
            firstRow [])
  end.
End FormInputs.

(** [Object.fromEntries(featureInputs.map((f) => [f.name, f.value]))] *)
Definition defaultInputData (featureInputs : list FeatureInput) : obj value :=
  fold_left (fun o f => set (fi_name f) (fi_value f) o) featureInputs [].

(** A mean and a rounding to compute with: the arithmetic mean of the
    numbers that are not NaN, and the nearest integer, halves up. *)
Module ReferenceForm.

Definition mean (l : list num) : option num :=
  let kept := filter (fun a => negb (isNaN a)) l in
  match kept with
  | [] => None
  | _ => Some (div (fold_left add kept (Fin 0)) (of_nat (List.length kept)))
  end.

Definition round (a : num) : num :=
  match a with
  | Fin q => Fin (inject_Z (Qfloor (q + (1 # 2))))
  | _ => a
  end.

End ReferenceForm.


(** ** Where the dictionaries and the threshold loop are those of the code

    A JavaScript object answers for the names of [Object.prototype]
    without holding them: [counts["constructor"]] is a function, and an
    assignment to [counts["__proto__"]] creates no entry.  On every other
    name [get], [set] and [field] are the reads and writes of the code. *)
Definition prototype_names : list string :=
  [ "constructor"; "hasOwnProperty"; "isPrototypeOf"; "propertyIsEnumerable";
    "toLocaleString"; "toString"; "valueOf"; "__proto__";
    "__defineGetter__"; "__defineSetter__"; "__lookupGetter__";
    "__lookupSetter__" ].

(** The name is one of those every object inherits. *)
Definition inherited (k : string) : bool := existsb (streq k) prototype_names.

(** The target column and the labels read from it are names a dictionary
    of counts holds as its own. *)
Definition plain_labels (rt : Runtime) (target : string)
    (data : list DataPoint) : Prop :=
  inherited target = false
  /\ Forall (fun row => inherited (label rt target row) = false) data.

(** No column of the records bears an inherited name. *)
Definition plain_columns (data : list DataPoint) : Prop :=
  Forall (fun row : DataPoint =>
            Forall (fun k => inherited k = false) (keys row)) data.

(** 2^53 - 1, the largest integer [n] for which [n + 1] is still computed
    exactly in binary64. *)
Definition max_safe_integer : Z := 9007199254740991.

(** A value that is not a finite number of magnitude above 2^53 - 1.  The
    step of the threshold loop is never below 1, and adding it to a
    threshold of that magnitude gives a greater number in binary64 too,
    so the loop ends. *)
Definition safe_value (v : value) : Prop :=
  match v with
  | Num (Fin q) => Qabs q <= inject_Z max_safe_integer
  | _ => True
  end.

Definition safe_numbers (data : list DataPoint) : Prop :=
  Forall (fun row : DataPoint => Forall safe_value (values row)) data.

(** A numeric column on which the threshold loop runs with step 1 from an
    integer: the smallest value is an integer [z], the largest exceeds
    it by 20 at most, and [|z| + 20] stays within the safe integers.  The
    thresholds [z + 1], [z + 2], ... are then computed without rounding. *)
Definition unit_step_column (subset : list DataPoint) (feature : string)
    (z : Z) (b : Q) : Prop :=
  let vals := map as_number (map (fun row => field row feature) subset) in
  exists a,
    min_list vals = Fin a /\ max_list vals = Fin b
    /\ a == inject_Z z /\ b - a <= 20
    /\ (Z.abs z + 20 <= max_safe_integer)%Z.

(** ** The calls of [buildDecisionTree] as a relation

    [runs data maxDepth r]: the call
    [buildDecisionTree(data, target, maxDepth)] returns [r].  There is one
    rule per path through the body, and the threshold loop, the loop over
    the features and the recursion are relations as well, with no bound on
    the number of iterations: a call that raises, or that does not end,
    has no derivation.  A source of chance in the body would show as a
    rule with a free premise. *)

Section Runs.
Variable rt : Runtime.
Variable target : string.






End Runs.

(** * Properties *)

(** ** Dictionaries *)

Section ObjFacts.
Context {A : Type}.
Implicit Types (o : obj A) (k : string) (v : A).

Lemma streq_refl k : streq k k = true.
Proof. apply String.eqb_refl. Qed.

Lemma streq_true k k' : streq k k' = true <-> k = k'.
Proof. apply String.eqb_eq. Qed.

Lemma streq_false k k' : streq k k' = false <-> k <> k'.
Proof. apply String.eqb_neq. Qed.

Lemma get_replace_same k v o :
  get k o <> None -> get k (replace k v o) = Some v.
Proof.
  induction o as [|[k' v'] o IH]; simpl; [congruence|].
  destruct (streq k k') eqn:E; simpl; rewrite E; auto.
Qed.

Lemma get_replace_other k k' v o :
  k <> k' -> get k (replace k' v o) = get k o.
Proof.
  intros Hne. induction o as [|[k2 v2] o IH]; simpl; auto.
  destruct (streq k' k2) eqn:E; simpl.
  - apply streq_true in E. subst k2.
    apply streq_false in Hne. now rewrite Hne.
  - now rewrite IH.
Qed.

Lemma get_insert_index_same n k v o :
  get k o = None -> get k (insert_index n k v o) = Some v.
Proof.
  induction o as [|[k' v'] o IH]; simpl; intros H.
  - now rewrite streq_refl.
  - destruct (streq k k') eqn:E; [discriminate|].
    destruct (array_index k') as [n'|]; [destruct (n <? n')%N|];
      simpl; rewrite ?streq_refl, ?E; auto.
Qed.

Lemma get_insert_index_other n k k' v o :
  k <> k' -> get k (insert_index n k' v o) = get k o.
Proof.
  intros Hne. apply streq_false in Hne.
  induction o as [|[k2 v2] o IH]; simpl.
  - now rewrite Hne.
  - destruct (array_index k2) as [n'|]; [destruct (n <? n')%N|];
      simpl; rewrite ?Hne, ?IH; auto.
Qed.

Lemma get_app k o o' :
  get k (o ++ o') = match get k o with Some v => Some v | None => get k o' end.
Proof.
  induction o as [|[k2 v2] o IH]; simpl; auto.
  destruct (streq k k2); auto.
Qed.

Lemma get_set_same k v o : get k (set k v o) = Some v.
Proof.
  unfold set, has. destruct (get k o) eqn:E.
  - apply get_replace_same. congruence.
  - destruct (array_index k).
    + now apply get_insert_index_same.
    + rewrite get_app, E. simpl. now rewrite streq_refl.
Qed.

Lemma get_set_other k k' v o : k <> k' -> get k (set k' v o) = get k o.
Proof.
  intros Hne. unfold set, has. destruct (get k' o) eqn:E.
  - now apply get_replace_other.
  - destruct (array_index k').
    + now apply get_insert_index_other.
    + rewrite get_app. destruct (get k o); auto.
      simpl. apply streq_false in Hne. now rewrite Hne.
Qed.

Lemma get_In k v o : get k o = Some v -> In (k, v) o.
Proof.
  induction o as [|[k' v'] o IH]; simpl; [discriminate|].
  destruct (streq k k') eqn:E.
  - apply streq_true in E. intros [= ->]. subst. now left.
  - auto.
Qed.

Lemma get_None_keys k o : get k o = None <-> ~ In k (keys o).
Proof.
  induction o as [|[k' v'] o IH]; simpl.
  - tauto.
  - destruct (streq k k') eqn:E.
    + apply streq_true in E. subst. split; [discriminate|tauto].
    + apply streq_false in E. rewrite IH. split; [intros H [?|?]|];
        [congruence|tauto|tauto].
Qed.

Lemma keys_replace k v o : keys (replace k v o) = keys o.
Proof.
  induction o as [|[k' v'] o IH]; simpl; auto.
  destruct (streq k k'); simpl; [|rewrite IH]; auto.
Qed.

Lemma insert_index_perm n k v o :
  Permutation (insert_index n k v o) ((k, v) :: o).
Proof.
  induction o as [|[k' v'] o IH]; simpl; auto.
  destruct (array_index k') as [n'|]; [destruct (n <? n')%N|]; auto.
  rewrite IH. apply perm_swap.
Qed.

(** Writing a key that is absent adds one entry; the others stay. *)
Lemma set_new_perm k v o :
  get k o = None -> Permutation (set k v o) ((k, v) :: o).
Proof.
  intros H. unfold set, has. rewrite H.
  destruct (array_index k).
  - apply insert_index_perm.
  - symmetry. apply Permutation_cons_append.
Qed.

Lemma set_old k v o : get k o <> None -> set k v o = replace k v o.
Proof.
  intros H. unfold set, has. destruct (get k o); congruence.
Qed.

Lemma replace_NoDup_perm k v v0 o :
  NoDup (keys o) -> get k o = Some v0 ->
  exists o', Permutation o ((k, v0) :: o')
             /\ Permutation (replace k v o) ((k, v) :: o').
Proof.
  induction o as [|[k' v'] o IH]; simpl; [discriminate|].
  intros Hnd Hget. inversion Hnd; subst.
  destruct (streq k k') eqn:E.
  - apply streq_true in E. subst k'. injection Hget as ->.
    exists o. split; reflexivity.
  - destruct (IH H2 Hget) as (o' & P1 & P2).
    exists ((k', v') :: o'). split.
    + rewrite P1. apply perm_swap.
    + rewrite P2. apply perm_swap.
Qed.

Lemma set_NoDup k v o : NoDup (keys o) -> NoDup (keys (set k v o)).
Proof.
  intros Hnd. destruct (get k o) eqn:E.
  - rewrite set_old by congruence. unfold keys in *.
    fold (keys (replace k v o)). now rewrite keys_replace.
  - unfold keys. eapply Permutation_NoDup.
    + symmetry. apply Permutation_map. now apply set_new_perm.
    + simpl. constructor; auto. now apply get_None_keys.
Qed.
End ObjFacts.

(** ** Numbers *)

Lemma sgn_pos q : 0 < q -> sgn q = Gt.
Proof. intros H. unfold sgn. now apply Qgt_alt. Qed.

Lemma sgn_of_nat n : (0 < n)%nat -> sgn (inject_Z (Z.of_nat n)) = Gt.
Proof.
  intros H. apply sgn_pos. replace 0 with (inject_Z 0) by reflexivity.
  rewrite <- Zlt_Qlt. lia.
Qed.

Lemma div_of_nat k n :
  (0 < n)%nat ->
  div (of_nat k) (of_nat n)
  = Fin (inject_Z (Z.of_nat k) / inject_Z (Z.of_nat n)).
Proof. intros H. unfold div, of_nat. now rewrite sgn_of_nat. Qed.

Lemma of_nat_ratio_pos k n :
  (0 < k)%nat -> (0 < n)%nat ->
  0 < inject_Z (Z.of_nat k) / inject_Z (Z.of_nat n).
Proof.
  intros Hk Hn. apply Qlt_shift_div_l.
  - replace 0 with (inject_Z 0) by reflexivity. rewrite <- Zlt_Qlt. lia.
  - rewrite Qmult_0_l. replace 0 with (inject_Z 0) by reflexivity.
    rewrite <- Zlt_Qlt. lia.
Qed.

Lemma truthy_pos q : 0 < q -> truthy (Fin q) = true.
Proof.
  intros H. simpl. destruct (Qeq_bool q 0) eqn:E; auto.
  apply Qeq_bool_eq in E. rewrite E in H. now apply Qlt_irrefl in H.
Qed.

Lemma or_else_pos q d : 0 < q -> or_else (Fin q) d = Fin q.
Proof. intros H. unfold or_else. now rewrite truthy_pos. Qed.

Lemma ltb_Fin x y : ltb (Fin x) (Fin y) = true <-> x < y.
Proof.
  simpl. rewrite Qlt_alt. destruct (x ?= y)%Q; split; congruence.
Qed.

Lemma leb_Fin x y : leb (Fin x) (Fin y) = true <-> x <= y.
Proof.
  simpl. rewrite Qle_alt. destruct (x ?= y)%Q; split; congruence.
Qed.

(** On numbers that are not NaN, [>] is the negation of [<=]. *)
Lemma gtb_negb_leb a b : a <> NaN -> b <> NaN -> gtb a b = negb (leb a b).
Proof.
  unfold gtb. destruct a, b; simpl; try congruence; auto. intros _ _.
  rewrite <- (Qcompare_antisym q q0). destruct (q ?= q0)%Q; reflexivity.
Qed.

(** ** Inference *)

Section InferenceFacts.
Variable rt : Runtime.

(** The path ends where the prediction is read. *)
Lemma predict_reads_path_end (t : TreeNode) (input : obj value) :
  predictFromTree rt t input
  = {| prediction := node_name (last (highlightDecisionPath rt t input) t);
       confidence :=
         or_else (node_confidence (last (highlightDecisionPath rt t input) t))
                 (Fin 0) |}.
Proof.
  assert (Hne : forall u, highlightDecisionPath rt u input <> []).
  { intros u. destruct u; simpl; discriminate. }
  assert (Hlast : forall (l : list TreeNode) a b, l <> [] -> last l a = last l b).
  { induction l as [|x l IH]; intros a b H; [congruence|].
    destruct l; simpl; auto. apply IH. discriminate. }
  induction t as [n c s d | n cnd c f th s d l IHl r IHr]; simpl.
  - reflexivity.
  - set (tt := Decision n cnd c f th s d l r).
    destruct (is_number th);
      [ destruct (leb _ _) | destruct (streq _ _) ];
      rewrite ?IHl, ?IHr;
      match goal with
      | |- context [highlightDecisionPath rt ?u input] =>
          specialize (Hne u);
          destruct (highlightDecisionPath rt u input) as [|x p] eqn:E;
          [congruence|];
          rewrite (Hlast (x :: p) u tt) by discriminate; reflexivity
      end.
Qed.

(** The path ends on a leaf of the tree. *)
Lemma path_ends_on_leaf (t : TreeNode) (input : obj value) :
  In (last (highlightDecisionPath rt t input) t) (leaves t).
Proof.
  assert (Hlast : forall (l : list TreeNode) a b, l <> [] -> last l a = last l b).
  { induction l as [|x l IH]; intros a b H; [congruence|].
    destruct l; simpl; auto. apply IH. discriminate. }
  assert (Hne : forall u, highlightDecisionPath rt u input <> []).
  { intros u. destruct u; simpl; discriminate. }
  induction t as [n c s d | n cnd c f th s d l IHl r IHr].
  - simpl. now left.
  - set (tt := Decision n cnd c f th s d l r).
    change (leaves tt) with (leaves l ++ leaves r).
    apply in_or_app.
    unfold tt. simpl highlightDecisionPath. fold tt.
    destruct (is_number th);
      [ destruct (leb _ _) | destruct (streq _ _) ];
      match goal with
      | |- context [highlightDecisionPath rt ?u input] =>
          pose proof (Hne u) as Hu;
          destruct (highlightDecisionPath rt u input) as [|x p] eqn:E;
          [congruence|];
          change (last (tt :: x :: p) tt) with (last (x :: p) tt);
          rewrite (Hlast (x :: p) tt u) by discriminate
      end; auto.
Qed.
End InferenceFacts.

(** ** Tallies *)

Lemma In_replace {A} k (v : A) o x :
  In x (replace k v o) -> x = (k, v) \/ In x o.
Proof.
  induction o as [|[k' v'] o IH]; simpl; [tauto|].
  destruct (streq k k') eqn:E; simpl.
  - apply streq_true in E. subst. intros [<-|H]; auto.
  - intros [<-|H]; auto. destruct (IH H); auto.
Qed.

Lemma In_set {A} k (v : A) o x : In x (set k v o) -> x = (k, v) \/ In x o.
Proof.
  destruct (get k o) eqn:E.
  - rewrite set_old by congruence. apply In_replace.
  - intros H. apply (Permutation_in _ (set_new_perm k v o E)) in H.
    destruct H; auto.
Qed.

Section TallyFacts.
Variable rt : Runtime.
Variable target : string.

Local Abbreviation label := (label rt target).
Local Abbreviation tally := (tally rt target).
Local Abbreviation count_label := (count_label rt target).

Lemma get_count_tally c o row :
  get_count c (tally o row)
  = (get_count c o + if streq (label row) c then 1 else 0)%nat.
Proof.
  unfold tally, get_count. destruct (streq (label row) c) eqn:E.
  - apply streq_true in E. subst c. now rewrite get_set_same.
  - apply streq_false in E. rewrite get_set_other by congruence. lia.
Qed.

Lemma get_count_fold c data o :
  get_count c (fold_left tally data o)
  = (get_count c o + count_label c data)%nat.
Proof.
  revert o. induction data as [|row data IH]; intros o; simpl.
  - unfold count_label. simpl. lia.
  - rewrite IH, get_count_tally. unfold count_label. simpl.
    destruct (streq (label row) c); simpl; lia.
Qed.

(** [getDistribution] counts the records of each class. *)
Lemma get_count_distribution c data :
  get_count c (getDistribution rt target data) = count_label c data.
Proof. unfold getDistribution. now rewrite get_count_fold. Qed.

Lemma tally_fold_pos data o :
  (forall x, In x o -> (1 <= snd x)%nat) ->
  forall x, In x (fold_left tally data o) -> (1 <= snd x)%nat.
Proof.
  revert o. induction data as [|row data IH]; intros o Ho; simpl; auto.
  apply IH. intros x Hx. apply In_set in Hx. destruct Hx as [->|Hx]; auto.
  simpl. lia.
Qed.

Lemma tally_fold_nonempty data o :
  data <> [] -> fold_left tally data o <> [].
Proof.
  intros Hd Hf.
  destruct data as [|row data]; [congruence|].
  assert (H : (1 <= get_count (label row) (fold_left tally (row :: data) o))%nat).
  { rewrite get_count_fold. unfold count_label. simpl.
    rewrite streq_refl. simpl. lia. }
  rewrite Hf in H. unfold get_count in H. simpl in H. lia.
Qed.

Lemma majority_fold_In (rest : obj nat) first :
  In (fold_left (fun a b => if (snd b <? snd a)%nat then a else b) rest first)
     (first :: rest).
Proof.
  revert first. induction rest as [|b rest IH]; intros first; simpl; auto.
  destruct (snd b <? snd first)%nat; specialize (IH first) as IH1;
    specialize (IH b) as IH2; simpl in *; tauto.
Qed.

(** On a non-empty subset [getMajorityClass] returns a class that
    occurs in it. *)
Lemma getMajorityClass_ok data :
  data <> [] ->
  exists m, getMajorityClass rt target data = Ok m
            /\ (1 <= count_label m data)%nat.
Proof.
  intros Hd. unfold getMajorityClass.
  pose proof (tally_fold_nonempty data [] Hd) as Hne.
  destruct (fold_left tally data []) as [|first rest] eqn:E; [congruence|].
  eexists. split; [reflexivity|].
  set (w := fold_left _ rest first).
  assert (Hin : In w (fold_left tally data [])).
  { rewrite E. apply majority_fold_In. }
  destruct w as [m n] eqn:Ew. simpl.
  assert (Hg : get m (fold_left tally data []) <> None).
  { rewrite get_None_keys. intros Hk. apply Hk. unfold keys.
    change m with (fst (m, n)). now apply in_map. }
  assert (Hpos : forall x, In x (fold_left tally data []) -> (1 <= snd x)%nat).
  { apply tally_fold_pos. intros x []. }
  rewrite <- get_count_distribution. unfold getDistribution, get_count.
  destruct (get m (fold_left tally data [])) as [n'|] eqn:G; [|congruence].
  apply get_In in G. apply Hpos in G. exact G.
Qed.
End TallyFacts.

(** ** Entropy and gain are finite *)

Section EntropyFacts.
Variable rt : Runtime.
Variable target : string.

Lemma entropy_sum_fin (n : nat) (counts : list nat) (acc : Q) :
  (0 < n)%nat -> Forall (fun c => (1 <= c)%nat) counts ->
  exists q,
    fold_left
      (fun sum count =>
         let p := div (of_nat count) (of_nat n) in
         add sum (mul p (log2 rt p)))
      counts (Fin acc) = Fin q.
Proof.
  intros Hn. revert acc.
  induction counts as [|c counts IH]; intros acc Hc; cbn [fold_left].
  - now exists acc.
  - inversion Hc; subst. rewrite div_of_nat by assumption.
    unfold log2. rewrite sgn_pos by (apply of_nat_ratio_pos; lia).
    cbn [mul add]. apply IH. assumption.
Qed.

Lemma getEntropy_fin subset : exists q, getEntropy rt target subset = Fin q.
Proof.
  unfold getEntropy. destruct subset as [|row subset].
  - simpl. now eexists.
  - destruct (entropy_sum_fin (List.length (row :: subset))
                (values (fold_left (tally rt target) (row :: subset) [])) 0)
      as [q Hq].
    + simpl. lia.
    + unfold values. apply Forall_forall. intros c Hc.
      apply in_map_iff in Hc. destruct Hc as (x & <- & Hx).
      revert x Hx. apply tally_fold_pos. intros x [].
    + cbv zeta in Hq |- *. rewrite Hq. simpl. now eexists.
Qed.

Lemma gain_of_fin subset left right :
  subset <> [] -> exists g, gain_of rt target subset left right = Fin g.
Proof.
  intros Hs. unfold gain_of.
  assert (Hn : (0 < List.length subset)%nat)
    by (destruct subset; [congruence|simpl; lia]).
  destruct (getEntropy_fin subset) as [e ->].
  destruct (getEntropy_fin left) as [el ->].
  destruct (getEntropy_fin right) as [er ->].
  rewrite !div_of_nat by assumption. simpl. now eexists.
Qed.
End EntropyFacts.

(** ** The best-split search *)

Lemma fold_max2_NaN l : fold_left max2 l NaN = NaN.
Proof. induction l; simpl; auto. Qed.

Lemma max_list_no_NaN l : max_list l <> NaN -> ~ In NaN l.
Proof.
  unfold max_list. generalize NInf as acc.
  induction l as [|a l IH]; intros acc H; simpl in *; [tauto|].
  intros [->|Hin].
  - destruct acc; simpl in H; now rewrite fold_max2_NaN in H.
  - exact (IH _ H Hin).
Qed.

Section SearchFacts.
Variable rt : Runtime.
Variable target : string.

Local Abbreviation split_ok := (split_ok rt target).
Local Abbreviation candidate := (candidate rt target).
Local Abbreviation consider := (consider rt target).

Lemma consider_ok subset best s left right :
  split_ok subset best ->
  candidate subset s left right ->
  split_ok subset
    (consider subset best (s_feature s) (s_threshold s) (s_isNumeric s)
              left right).
Proof.
  intros Hb Hc. unfold consider.
  destruct (List.length left <? 5)%nat eqn:El; simpl; auto.
  destruct (List.length right <? 5)%nat eqn:Er; simpl; auto.
  apply Nat.ltb_ge in El, Er.
  match goal with |- context [if ?b then _ else _] => destruct b end; auto.
  right. exists left, right. split; [|split]; auto.
  destruct Hc; exact (ltac:(constructor; assumption)).
Qed.

Lemma numeric_loop_S fuel subset feature threshold step max best :
  numeric_loop rt target (S fuel) subset feature threshold step max best
  = if ltb threshold max then
      numeric_loop rt target fuel subset feature (add threshold step) step max
        (consider subset best feature (Num threshold) true
           (filter (fun row => leb (Number_ rt (field row feature)) threshold)
                   subset)
           (filter (fun row => gtb (Number_ rt (field row feature)) threshold)
                   subset))
    else Ok best.
Proof. reflexivity. Qed.

Lemma consider_numeric_ok subset best feature t :
  split_ok subset best -> t <> NaN ->
  Forall (fun row => exists n, field row feature = Num n /\ n <> NaN) subset ->
  split_ok subset
    (consider subset best feature (Num t) true
       (filter (fun row => leb (Number_ rt (field row feature)) t) subset)
       (filter (fun row => gtb (Number_ rt (field row feature)) t) subset)).
Proof.
  intros Hb Ht Hrows.
  exact (consider_ok subset best _ _ _ Hb
           (cand_numeric rt target subset feature t Ht Hrows)).
Qed.

Lemma consider_categorical_ok subset best feature c :
  split_ok subset best ->
  split_ok subset
    (consider subset best feature (Str c) false
       (filter (fun row => streq (String_ rt (field row feature)) c) subset)
       (filter (fun row => negb (streq (String_ rt (field row feature)) c))
               subset)).
Proof.
  intros Hb.
  exact (consider_ok subset best _ _ _ Hb
           (cand_categorical rt target subset feature c)).
Qed.

(** The numeric threshold loop stops within its fuel whenever the
    remaining distance to [max] is covered by the steps left. *)
Lemma numeric_loop_ok subset feature (s m : Q) :
  Forall (fun row => exists n, field row feature = Num n /\ n <> NaN) subset ->
  forall fuel t best,
    split_ok subset best ->
    m <= t + inject_Z (Z.of_nat fuel) * s ->
    exists r,
      numeric_loop rt target (S fuel) subset feature (Fin t) (Fin s) (Fin m)
                   best = Ok r
      /\ split_ok subset r.
Proof.
  intros Hrows. induction fuel as [|fuel IH]; intros t best Hb Hm.
  - rewrite numeric_loop_S. destruct (ltb (Fin t) (Fin m)) eqn:E.
    + apply ltb_Fin in E. change (inject_Z (Z.of_nat 0)) with 0 in Hm. lra.
    + eauto.
  - rewrite numeric_loop_S. destruct (ltb (Fin t) (Fin m)) eqn:E; [|eauto].
    cbn [add]. apply IH.
    + apply consider_numeric_ok; auto. discriminate.
    + rewrite Nat2Z.inj_succ in Hm. unfold Z.succ in Hm.
      rewrite inject_Z_plus in Hm. change (inject_Z 1) with 1 in Hm. lra.
Qed.

Lemma categorical_loop_ok subset feature categories best :
  split_ok subset best ->
  split_ok subset (categorical_loop rt target subset feature categories best).
Proof.
  unfold categorical_loop. revert best.
  induction categories as [|c categories IH]; intros best Hb; simpl; auto.
  apply IH. now apply consider_categorical_ok.
Qed.

Lemma numeric_rows subset feature :
  forallb is_number (map (fun row => field row feature) subset) = true ->
  max_list (map as_number (map (fun row => field row feature) subset)) <> NaN ->
  Forall (fun row => exists n, field row feature = Num n /\ n <> NaN) subset.
Proof.
  intros Hall Hmax. apply max_list_no_NaN in Hmax.
  apply Forall_forall. intros row Hrow.
  rewrite forallb_forall in Hall.
  specialize (Hall (field row feature)
                (in_map (fun row => field row feature) _ _ Hrow)).
  destruct (field row feature) as [n| |] eqn:E; try discriminate.
  exists n. split; auto. intros ->. apply Hmax.
  rewrite map_map. apply in_map_iff. exists row. rewrite E. auto.
Qed.

Lemma scan_feature_ok subset best feature :
  split_ok subset best ->
  exists r, scan_feature rt target subset best feature = Ok r
            /\ split_ok subset r.
Proof.
  intros Hb. unfold scan_feature.
  destruct (forallb is_number _) eqn:Hnum.
  2:{ eexists. split; [reflexivity|]. now apply categorical_loop_ok. }
  pose proof (numeric_rows subset feature Hnum) as Hrows.
  set (vals := map as_number _) in *.
  destruct (max_list vals) as [| | |b] eqn:Emax;
    destruct (min_list vals) as [| | |a] eqn:Emin;
    try (cbn; eexists; split; [reflexivity|assumption]).
  specialize (Hrows ltac:(discriminate)).
  unfold threshold_fuel, sub. cbn [neg add min2].
  set (d := b + - a).
  destruct (ltb (Fin d) (Fin 20)) eqn:Ed.
  - unfold div. destruct (sgn d) eqn:Es.
    + destruct (sgn d); cbn; eauto.
    + cbn [add]. apply numeric_loop_ok; auto.
      assert (Hd : ~ d == 0).
      { intros H. apply Qeq_alt in H. unfold sgn in Es. congruence. }
      apply ltb_Fin in Ed.
      assert (H1 : d / d == 1) by (field; exact Hd).
      rewrite H1. unfold d in Ed.
      change (inject_Z (Z.of_nat 19)) with (19 # 1). lra.
    + cbn [add]. apply numeric_loop_ok; auto.
      assert (Hd : ~ d == 0).
      { intros H. apply Qeq_alt in H. unfold sgn in Es. congruence. }
      apply ltb_Fin in Ed.
      assert (H1 : d / d == 1) by (field; exact Hd).
      rewrite H1. unfold d in Ed.
      change (inject_Z (Z.of_nat 19)) with (19 # 1). lra.
  - unfold div. change (sgn 20) with Gt. cbn [add].
    apply numeric_loop_ok; auto.
    assert (H1 : d / 20 == d * (1 # 20)) by (field; discriminate).
    rewrite H1. unfold d.
    change (inject_Z (Z.of_nat 19)) with (19 # 1). lra.
Qed.

Lemma findBestSplit_ok subset :
  subset <> [] ->
  exists s, findBestSplit rt target subset = Ok s /\ split_ok subset s.
Proof.
  intros Hs. unfold findBestSplit.
  destruct subset as [|row0 rest]; [congruence|].
  set (subset := row0 :: rest).
  assert (H0 : split_ok subset (initial_split)) by now left.
  revert H0. generalize initial_split as best.
  induction (candidate_features target row0) as [|f fs IH]; intros best Hb.
  - simpl. eauto.
  - simpl. destruct (scan_feature_ok subset best f Hb) as (r & -> & Hr).
    now apply IH.
Qed.
End SearchFacts.

(** ** The two parts of a split *)

Lemma filter_complement_length {A} (p : A -> bool) (l : list A) :
  (List.length (filter p l) + List.length (filter (fun x => negb (p x)) l))%nat
  = List.length l.
Proof.
  induction l as [|x l IH]; simpl; auto.
  destruct (p x); simpl; lia.
Qed.

Section PartFacts.
Variable rt : Runtime.
Variable target : string.

Local Abbreviation count_label := (count_label rt target).

Lemma count_label_complement (p : DataPoint -> bool) c data :
  (count_label c (filter p data)
   + count_label c (filter (fun x => negb (p x)) data))%nat
  = count_label c data.
Proof.
  unfold count_label.
  induction data as [|x l IH]; simpl; auto.
  destruct (p x); simpl; destruct (streq _ c); simpl; lia.
Qed.

(** The two parts of a candidate are complementary. *)
Lemma candidate_complement data s l r :
  candidate rt target data s l r ->
  exists p, l = filter p data /\ r = filter (fun row => negb (p row)) data.
Proof.
  intros [feature t Ht Hrows left right | feature c left right].
  - exists (fun row => leb (Number_ rt (field row feature)) t).
    split; [reflexivity|]. subst right. apply filter_ext_in.
    intros row Hrow. rewrite Forall_forall in Hrows.
    destruct (Hrows row Hrow) as (n & -> & Hn). simpl.
    now apply gtb_negb_leb.
  - now eexists.
Qed.

(** [buildDecisionTree] recomputes exactly the parts of the candidate. *)
Lemma candidate_parts data s l r :
  candidate rt target data s l r ->
  left_part rt s data = l /\ right_part rt s data = r.
Proof. intros []; split; reflexivity. Qed.

Lemma split_ok_gain data s :
  split_ok rt target data s ->
  leb (s_gain s) (Fin (1 # 100)) = false ->
  exists l r, candidate rt target data s l r
              /\ (5 <= List.length l)%nat /\ (5 <= List.length r)%nat.
Proof.
  intros [->|H] Hg; [discriminate|exact H].
Qed.

Lemma candidate_gain_pos data s l r :
  data <> [] ->
  candidate rt target data s l r ->
  leb (s_gain s) (Fin (1 # 100)) = false ->
  exists g, s_gain s = Fin g /\ 1 # 100 < g.
Proof.
  intros Hd Hc Hg.
  assert (Hf : exists g, s_gain s = Fin g).
  { destruct Hc; simpl; now apply gain_of_fin. }
  destruct Hf as [g Eg]. exists g. split; auto.
  rewrite Eg in Hg. apply Qnot_le_lt. intros Hle.
  apply leb_Fin in Hle. congruence.
Qed.
End PartFacts.

(** ** The recursion of [buildDecisionTree] *)

Section BuildFacts.
Variable rt : Runtime.
Variable target : string.

Local Abbreviation build := (build rt target).
Local Abbreviation count_label := (count_label rt target).

Lemma build_unfold fuel data maxDepth :
  build fuel data maxDepth
  = if eqb maxDepth (Fin 0) || (List.length data <? 5)%nat then Ok None
    else
      match fuel with
      | O => OutOfFuel
      | S fuel' =>
          split <- findBestSplit rt target data ;;
          if leb (s_gain split) (Fin (1 # 100)) then
            majority_leaf rt target data (getDistribution rt target data)
          else
            leftChild <- build fuel' (left_part rt split data)
                               (sub maxDepth (Fin 1)) ;;
            rightChild <- build fuel' (right_part rt split data)
                                (sub maxDepth (Fin 1)) ;;
            match leftChild, rightChild with
            | Some l, Some r =>
                Ok (Some (Decision
                            (formatFeatureName (s_feature split))
                            (if s_isNumeric split then
                               le_sign ++ " "
                               ++ toFixed1 rt (Number_ rt (s_threshold split))
                             else
                               "= " ++ dquote
                               ++ String_ rt (s_threshold split) ++ dquote)
                            (s_gain split)
                            (formatFeatureName (s_feature split))
                            (s_threshold split)
                            (List.length data)
                            (getDistribution rt target data) l r))
            | _, _ =>
                majority_leaf rt target data (getDistribution rt target data)
            end
      end.
Proof. destruct fuel; reflexivity. Qed.

Lemma majority_leaf_ok data :
  data <> [] ->
  exists m,
    (1 <= count_label m data)%nat
    /\ majority_leaf rt target data (getDistribution rt target data)
       = Ok (Some (Leaf m
                     (div (of_nat (count_label m data))
                          (of_nat (List.length data)))
                     (List.length data)
                     (getDistribution rt target data))).
Proof.
  intros Hd. destruct (getMajorityClass_ok rt target data Hd) as (m & E & Hm).
  exists m. split; auto. unfold majority_leaf. now rewrite E.
Qed.

(** The fuel is enough: in the embedding the recursion never runs out of
    fuel and never raises. *)
Lemma build_total fuel :
  forall data maxDepth,
    (List.length data <= fuel)%nat ->
    exists r, build fuel data maxDepth = Ok r.
Proof.
  induction fuel as [|fuel IH]; intros data maxDepth Hlen;
    rewrite build_unfold.
  - replace (List.length data <? 5)%nat with true
      by (symmetry; apply Nat.ltb_lt; lia).
    rewrite orb_true_r. eauto.
  - destruct (eqb maxDepth (Fin 0) || (List.length data <? 5)%nat) eqn:E;
      [eauto|].
    apply orb_false_elim in E. destruct E as [_ E]. apply Nat.ltb_ge in E.
    assert (Hd : data <> []) by (destruct data; simpl in E; [lia|discriminate]).
    destruct (findBestSplit_ok rt target data Hd) as (s & -> & Hs).
    cbn [bind].
    destruct (majority_leaf_ok data Hd) as (m & _ & Hleaf).
    destruct (leb (s_gain s) (Fin (1 # 100))) eqn:Eg; [eauto|].
    destruct (split_ok_gain rt target data s Hs Eg) as (l & r & Hc & Hl & Hr).
    destruct (candidate_complement rt target data s l r Hc) as (p & Epl & Epr).
    destruct (candidate_parts rt target data s l r Hc) as [-> ->].
    pose proof (filter_complement_length p data) as Hsum.
    rewrite <- Epl, <- Epr in Hsum.
    destruct (IH l (sub maxDepth (Fin 1)) ltac:(lia)) as [lc ->].
    destruct (IH r (sub maxDepth (Fin 1)) ltac:(lia)) as [rc ->].
    cbn [bind]. destruct lc, rc; eauto.
Qed.

(** Induction over the trees [buildDecisionTree] returns. *)
Lemma build_inv (P : list DataPoint -> TreeNode -> Prop) :
  (forall data m,
      (5 <= List.length data)%nat -> (1 <= count_label m data)%nat ->
      P data (Leaf m (div (of_nat (count_label m data))
                          (of_nat (List.length data)))
                   (List.length data) (getDistribution rt target data))) ->
  (forall data s left right cond l r,
      (5 <= List.length data)%nat ->
      candidate rt target data s left right ->
      (5 <= List.length left)%nat -> (5 <= List.length right)%nat ->
      leb (s_gain s) (Fin (1 # 100)) = false ->
      P left l -> P right r ->
      P data (Decision (formatFeatureName (s_feature s)) cond (s_gain s)
                       (formatFeatureName (s_feature s)) (s_threshold s)
                       (List.length data) (getDistribution rt target data)
                       l r)) ->
  forall fuel data maxDepth t,
    build fuel data maxDepth = Ok (Some t) -> P data t.
Proof.
  intros Hleaf Hnode.
  induction fuel as [|fuel IH]; intros data maxDepth t;
    rewrite build_unfold;
    destruct (eqb maxDepth (Fin 0) || (List.length data <? 5)%nat) eqn:E;
    try discriminate.
  apply orb_false_elim in E. destruct E as [_ E]. apply Nat.ltb_ge in E.
  assert (Hd : data <> []) by (destruct data; simpl in E; [lia|discriminate]).
  destruct (findBestSplit_ok rt target data Hd) as (s & -> & Hs).
  cbn [bind].
  destruct (majority_leaf_ok data Hd) as (m & Hm & Eleaf).
  assert (HL : majority_leaf rt target data (getDistribution rt target data)
               = Ok (Some t) -> P data t).
  { rewrite Eleaf. intros [= <-]. now apply Hleaf. }
  destruct (leb (s_gain s) (Fin (1 # 100))) eqn:Eg; [exact HL|].
  destruct (split_ok_gain rt target data s Hs Eg) as (l & r & Hc & Hl & Hr).
  destruct (candidate_parts rt target data s l r Hc) as [-> ->].
  destruct (build fuel l (sub maxDepth (Fin 1))) as [lc| |] eqn:El;
    cbn [bind]; try discriminate.
  destruct (build fuel r (sub maxDepth (Fin 1))) as [rc| |] eqn:Er;
    cbn [bind]; try discriminate.
  destruct lc as [lt|]; [|exact HL].
  destruct rc as [rt'|]; [|exact HL].
  intros [= <-]. eapply Hnode; eauto.
Qed.
End BuildFacts.

(** ** Shape of the built trees *)

Section BuiltTrees.
Variable rt : Runtime.
Variable target : string.

Lemma buildDecisionTree_total data maxDepth :
  exists r, buildDecisionTree rt target data maxDepth = Ok r.
Proof. apply build_total. lia. Qed.

(** The root records the size and the tally of the records it was
    built from. *)
Lemma built_root fuel data maxDepth t :
  build rt target fuel data maxDepth = Ok (Some t) ->
  node_samples t = List.length data
  /\ node_distribution t = getDistribution rt target data.
Proof.
  apply (build_inv rt target
           (fun data t => node_samples t = List.length data
                          /\ node_distribution t = getDistribution rt target data));
    simpl; auto.
Qed.

(** Every leaf carries a positive confidence. *)
Lemma built_leaves_confident fuel data maxDepth t :
  build rt target fuel data maxDepth = Ok (Some t) ->
  Forall (fun lf => exists q, node_confidence lf = Fin q /\ 0 < q) (leaves t).
Proof.
  apply (build_inv rt target
           (fun _ t => Forall (fun lf => exists q, node_confidence lf = Fin q
                                                    /\ 0 < q) (leaves t))).
  - intros d m Hd Hm. cbn [leaves]. constructor; [|constructor].
    cbn [node_confidence]. rewrite div_of_nat by lia. eexists. split; [reflexivity|].
    apply of_nat_ratio_pos; lia.
  - intros. simpl. apply Forall_app. auto.
Qed.

Lemma built_children_add_up fuel data maxDepth t :
  build rt target fuel data maxDepth = Ok (Some t) ->
  children_add_up t.
Proof.
  intros H.
  enough (G : (node_samples t = List.length data
               /\ node_distribution t = getDistribution rt target data)
              /\ children_add_up t) by apply G.
  revert fuel data maxDepth t H.
  apply (build_inv rt target
           (fun data t =>
              (node_samples t = List.length data
               /\ node_distribution t = getDistribution rt target data)
              /\ children_add_up t)).
  - simpl. auto.
  - intros data s left right cond l r Hd Hc Hl Hr Hg
           [[Hsl Hdl] Hal] [[Hsr Hdr] Har].
    simpl. split; [auto|]. repeat split; auto.
    + intros c. rewrite Hdl, Hdr, !get_count_distribution.
      destruct (candidate_complement rt target data s left right Hc)
        as (p & -> & ->).
      apply count_label_complement.
    + rewrite Hsl, Hsr.
      destruct (candidate_complement rt target data s left right Hc)
        as (p & -> & ->).
      apply filter_complement_length.
Qed.
End BuiltTrees.

Lemma children_add_up_subtrees t :
  children_add_up t ->
  forall n cnd c f th s d l r,
    In (Decision n cnd c f th s d l r) (subtrees t) ->
    (forall cls, (get_count cls (node_distribution l)
                  + get_count cls (node_distribution r))%nat
                 = get_count cls d)
    /\ (node_samples l + node_samples r)%nat = s.
Proof.
  induction t as [n0 c0 s0 d0 | n0 cnd0 c0 f0 th0 s0 d0 l0 IHl r0 IHr];
    intros H n cnd c f th s d l r Hin.
  - simpl in Hin. destruct Hin as [Hin|[]]. discriminate.
  - simpl in H. destruct H as (Hd & Hs & Hl & Hr).
    simpl in Hin. destruct Hin as [Hin|Hin].
    + injection Hin as <- <- <- <- <- <- <- <- <-. auto.
    + apply in_app_or in Hin. destruct Hin as [Hin|Hin]; eauto.
Qed.

(** * The claims *)

(** C1.  For every tree returned by [buildDecisionTree] and every input
    (complete or not), the label and the confidence returned by
    [predictFromTree] are the name and the confidence of the last node of
    the path computed by [highlightDecisionPath] on the same tree and
    input. *)
Theorem predict_agrees_with_path rt target data maxDepth t input :
  buildDecisionTree rt target data maxDepth = Ok (Some t) ->
  let final := last (highlightDecisionPath rt t input) t in
  prediction (predictFromTree rt t input) = node_name final
  /\ confidence (predictFromTree rt t input) = node_confidence final.
Proof.
  intros Hb final. rewrite predict_reads_path_end. fold final. simpl.
  split; [reflexivity|].
  pose proof (built_leaves_confident _ _ _ _ _ _ Hb) as Hl.
  rewrite Forall_forall in Hl.
  destruct (Hl final (path_ends_on_leaf rt t input)) as (q & -> & Hq).
  now apply or_else_pos.
Qed.

Lemma predict_agrees_with_path_witness :
  buildDecisionTree Reference.runtime "y" (Sample.ten "x") (Fin 2)
  = Ok (Some (Sample.ten_tree "x"))
  /\ (let input := [("X", Sample.int 3)] in
      let final :=
        last (highlightDecisionPath Reference.runtime (Sample.ten_tree "x") input)
             (Sample.ten_tree "x") in
      prediction (predictFromTree Reference.runtime (Sample.ten_tree "x") input)
      = node_name final
      /\ confidence (predictFromTree Reference.runtime (Sample.ten_tree "x") input)
         = node_confidence final).
Proof.
  split.
  - vm_compute. reflexivity.
  - apply (predict_agrees_with_path Reference.runtime "y" (Sample.ten "x") (Fin 2)).
    vm_compute. reflexivity.
Defined.

(** C2.  With fewer than five records [buildDecisionTree] returns null,
    whatever the target column and the depth: no node is built and
    nothing is raised. *)
Theorem too_few_records_give_null rt target data maxDepth :
  (List.length data < 5)%nat ->
  buildDecisionTree rt target data maxDepth = Ok None.
Proof.
  intros H. unfold buildDecisionTree. rewrite build_unfold.
  apply Nat.ltb_lt in H. rewrite H. now rewrite orb_true_r.
Qed.

Lemma too_few_records_give_null_witness :
  (List.length Sample.four < 5)%nat
  /\ buildDecisionTree Reference.runtime "y" Sample.four (Fin 4) = Ok None.
Proof.
  split.
  - simpl. lia.
  - apply too_few_records_give_null. simpl. lia.
Defined.

(** C3.  In every tree returned by [buildDecisionTree], each decision
    node holds, class by class, the sum of the label distributions of its
    two children, and its sample count is the sum of theirs. *)
Theorem children_sum_to_parent rt target data maxDepth t :
  buildDecisionTree rt target data maxDepth = Ok (Some t) ->
  forall n cnd c f th s d l r,
    In (Decision n cnd c f th s d l r) (subtrees t) ->
    (forall cls, (get_count cls (node_distribution l)
                  + get_count cls (node_distribution r))%nat
                 = get_count cls d)
    /\ (node_samples l + node_samples r)%nat = s.
Proof.
  intros Hb. apply children_add_up_subtrees.
  exact (built_children_add_up _ _ _ _ _ _ Hb).
Qed.

Lemma children_sum_to_parent_witness :
  buildDecisionTree Reference.runtime "y" (Sample.ten "x") (Fin 2)
  = Ok (Some (Sample.ten_tree "x"))
  /\ ((forall cls,
         (get_count cls [("a", 5%nat)] + get_count cls [("b", 5%nat)])%nat
         = get_count cls [("a", 5%nat); ("b", 5%nat)])
      /\ (5 + 5 = 10)%nat).
Proof.
  split.
  - vm_compute. reflexivity.
  - apply (children_sum_to_parent Reference.runtime "y" (Sample.ten "x") (Fin 2)
             (Sample.ten_tree "x") ltac:(vm_compute; reflexivity)
             "X" (le_sign ++ " 5.0")%string (Fin (250000 # 250000)) "X"
             (Num (Fin (32805 # 6561))) 10%nat [("a", 5%nat); ("b", 5%nat)]
             (Leaf "a" (Fin (5 # 5)) 5 [("a", 5%nat)])
             (Leaf "b" (Fin (5 # 5)) 5 [("b", 5%nat)])).
    left. reflexivity.
Defined.

Lemma leaves_are_leaves t lf : In lf (leaves t) -> is_leaf lf = true.
Proof.
  induction t; simpl.
  - intros [<-|[]]. reflexivity.
  - intros H. apply in_app_or in H. tauto.
Qed.

(** The answer computed from a node of the decision path is the answer of
    the whole tree. *)
Lemma predict_from_path_node rt t input u :
  In u (highlightDecisionPath rt t input) ->
  predictFromTree rt u input = predictFromTree rt t input.
Proof.
  induction t as [n c s d | n cnd c f th s d l IHl r IHr].
  - intros [<-|[]]. reflexivity.
  - cbn [highlightDecisionPath predictFromTree]. intros [<-|Hin].
    + reflexivity.
    + destruct (is_number th);
        [destruct (leb _ _)|destruct (streq _ _)]; auto.
Qed.

Lemma field_missing (row : obj value) k : get k row = None -> field row k = Undefined.
Proof. unfold field. now intros ->. Qed.

(** C5, as the code has it.  On a tree built from records whose columns
    bear no inherited name, [predictFromTree] surfaces no failure: for
    every input it answers with the name and the confidence of a leaf of
    the tree.  At each decision node of the traversal whose split feature
    is absent from the input it reads [undefined] and takes a branch all
    the same: the right child under a numeric threshold, and under a
    categorical threshold the left child exactly when the threshold
    literal is "undefined"; the answer is the one computed from that
    child. *)
Theorem missing_feature_still_branches rt target data maxDepth t input :
  plain_columns data ->
  buildDecisionTree rt target data maxDepth = Ok (Some t) ->
  (exists lf,
      In lf (leaves t)
      /\ predictFromTree rt t input
         = {| prediction := node_name lf; confidence := node_confidence lf |})
  /\ forall n cnd c f th s d l r,
       In (Decision n cnd c f th s d l r) (highlightDecisionPath rt t input) ->
       get f input = None ->
       predictFromTree rt t input
       = predictFromTree rt
           (if is_number th then r
            else if streq "undefined" (String_ rt th) then l else r)
           input.
Proof.
  intros _ Hb. split.
  - exists (last (highlightDecisionPath rt t input) t).
    pose proof (path_ends_on_leaf rt t input) as Hin.
    split; [exact Hin|].
    rewrite predict_reads_path_end. f_equal.
    pose proof (built_leaves_confident _ _ _ _ _ _ Hb) as Hl.
    rewrite Forall_forall in Hl.
    destruct (Hl _ Hin) as (q & -> & Hq). now apply or_else_pos.
  - intros n cnd c f th s d l r Hin Hf.
    rewrite <- (predict_from_path_node rt t input _ Hin).
    cbn [predictFromTree]. rewrite (field_missing _ _ Hf).
    cbn [Number_ String_ leb].
    destruct (is_number th); [reflexivity|].
    destruct (streq "undefined" (String_ rt th)); reflexivity.
Qed.

Lemma missing_feature_still_branches_witness :
  plain_columns (Sample.ten "x")
  /\ buildDecisionTree Reference.runtime "y" (Sample.ten "x") (Fin 2)
     = Ok (Some (Sample.ten_tree "x"))
  /\ get "X" ([] : obj value) = None
  /\ predictFromTree Reference.runtime (Sample.ten_tree "x") []
     = predictFromTree Reference.runtime
         (Leaf "b" (Fin (5 # 5)) 5 [("b", 5%nat)]) [].
Proof.
  assert (H1 : plain_columns (Sample.ten "x")) by (repeat constructor).
  assert (H2 : buildDecisionTree Reference.runtime "y" (Sample.ten "x") (Fin 2)
               = Ok (Some (Sample.ten_tree "x"))) by (vm_compute; reflexivity).
  split; [exact H1|]. split; [exact H2|]. split; [reflexivity|].
  exact (proj2 (missing_feature_still_branches Reference.runtime "y"
                  (Sample.ten "x") (Fin 2) (Sample.ten_tree "x") [] H1 H2)
           "X" (le_sign ++ " 5.0")%string (Fin (250000 # 250000)) "X"
           (Num (Fin (32805 # 6561))) 10%nat [("a", 5%nat); ("b", 5%nat)]
           (Leaf "a" (Fin (5 # 5)) 5 [("a", 5%nat)])
           (Leaf "b" (Fin (5 # 5)) 5 [("b", 5%nat)])
           (or_introl eq_refl) eq_refl).
Defined.

(** C5, as stated, fails: on a tree built from ten records, with an input
    that lacks the split feature, the traversal of the specification
    fails while [predictFromTree] answers with the right-hand leaf. *)
Lemma missing_feature_counterexample :
  buildDecisionTree Reference.runtime "y" (Sample.ten "x") (Fin 2)
  = Ok (Some (Sample.ten_tree "x"))
  /\ get "X" ([] : obj value) = None
  /\ predict_checked Reference.runtime (Sample.ten_tree "x") [] = None
  /\ predictFromTree Reference.runtime (Sample.ten_tree "x") []
     = {| prediction := "b"; confidence := Fin (5 # 5) |}.
Proof. repeat split; vm_compute; reflexivity. Qed.

(** C7, as the code has it.  At [maxDepth] 0 [buildDecisionTree] returns
    null for every record array and every target column. *)
Theorem depth_zero_gives_null rt target data :
  buildDecisionTree rt target data (Fin 0) = Ok None.
Proof. unfold buildDecisionTree. rewrite build_unfold. reflexivity. Qed.

(** C7, as stated, fails: ten records at depth 0 give no leaf. *)
Lemma depth_zero_counterexample :
  (5 <= List.length (Sample.ten "x"))%nat
  /\ ~ (exists name conf samples dist,
          buildDecisionTree Reference.runtime "y" (Sample.ten "x") (Fin 0)
          = Ok (Some (Leaf name conf samples dist))).
Proof.
  split; [simpl; lia|].
  intros (name & conf & samples & dist & H).
  unfold buildDecisionTree in H. rewrite build_unfold in H. discriminate.
Qed.

(** The leaf of the depth limit is made one level up: a call at depth 1
    on five records or more returns a leaf. *)
Lemma depth_one_gives_leaf rt target data :
  (5 <= List.length data)%nat ->
  exists name conf,
    buildDecisionTree rt target data (Fin 1)
    = Ok (Some (Leaf name conf (List.length data)
                     (getDistribution rt target data))).
Proof.
  intros Hd. unfold buildDecisionTree.
  assert (Hne : data <> []) by (destruct data; simpl in Hd; [lia|discriminate]).
  destruct (majority_leaf_ok rt target data Hne) as (m & _ & Hleaf).
  assert (G : forall fuel, exists name conf,
               build rt target (S fuel) data (Fin 1)
               = Ok (Some (Leaf name conf (List.length data)
                                (getDistribution rt target data)))).
  { intros fuel. rewrite build_unfold.
    replace (List.length data <? 5)%nat with false
      by (symmetry; apply Nat.ltb_ge; lia).
    change (eqb (Fin 1) (Fin 0)) with false. cbn [orb].
    destruct (findBestSplit_ok rt target data Hne) as (s & -> & _).
    cbn [bind].
    destruct (leb (s_gain s) (Fin (1 # 100))); [rewrite Hleaf; eauto|].
    rewrite !(build_unfold _ _ fuel).
    change (eqb (sub (Fin 1) (Fin 1)) (Fin 0)) with true.
    cbn [orb bind]. rewrite Hleaf. eauto. }
  destruct (G (Nat.pred (List.length data))) as (name & conf & E).
  replace (S (Nat.pred (List.length data))) with (List.length data) in E by lia.
  eauto.
Qed.

(** C8, as the code has it.  On the five records of the scenario, with
    target [y] and depth 2, every threshold leaves fewer than five records
    on one side, so no split is kept and the result is the single leaf
    "b" with confidence 3/5, whatever the runtime. *)
Theorem scenario_gives_majority_leaf rt :
  buildDecisionTree rt "y" Sample.scenario (Fin 2)
  = Ok (Some (Leaf "b" (Fin (3 # 5)) 5 [("a", 2%nat); ("b", 3%nat)])).
Proof. vm_compute. reflexivity. Qed.

(** C8, as stated, fails: the result is not a decision node. *)
Lemma scenario_counterexample :
  ~ scenario_outcome
      (buildDecisionTree Reference.runtime "y" Sample.scenario (Fin 2)).
Proof.
  assert (E : buildDecisionTree Reference.runtime "y" Sample.scenario (Fin 2)
              = Ok (Some (Leaf "b" (Fin (3 # 5)) 5 [("a", 2%nat); ("b", 3%nat)])))
    by (vm_compute; reflexivity).
  rewrite E. unfold scenario_outcome.
  intros (name & cond & g & feature & t & samples & dist
          & ca & sa & da & cb & sb & db & H & _).
  discriminate.
Qed.

(** ** The calls as a relation *)

Section RunsFacts.
Variable rt : Runtime.
Variable target : string.











End RunsFacts.



(** C10.  On a tree returned by [buildDecisionTree], [predictFromTree]
    answers for every input, complete or not, with the name and the
    confidence of a leaf of the tree; at a decision node with a numeric
    threshold whose feature the input lacks, the test on the coerced
    value is false and the traversal continues in the right child. *)
Theorem predict_answers_on_any_input rt target data maxDepth t input :
  buildDecisionTree rt target data maxDepth = Ok (Some t) ->
  (exists lf,
      In lf (leaves t) /\ is_leaf lf = true
      /\ predictFromTree rt t input
         = {| prediction := node_name lf; confidence := node_confidence lf |})
  /\ (forall n cnd c f x s d l r,
         In (Decision n cnd c f (Num x) s d l r) (subtrees t) ->
         get f input = None ->
         Number_ rt (field input f) = NaN
         /\ leb (Number_ rt (field input f)) x = false
         /\ predictFromTree rt (Decision n cnd c f (Num x) s d l r) input
            = predictFromTree rt r input).
Proof.
  intros Hb. split.
  - exists (last (highlightDecisionPath rt t input) t).
    pose proof (path_ends_on_leaf rt t input) as Hin.
    split; [exact Hin|]. split; [exact (leaves_are_leaves _ _ Hin)|].
    rewrite predict_reads_path_end. f_equal.
    pose proof (built_leaves_confident _ _ _ _ _ _ Hb) as Hl.
    rewrite Forall_forall in Hl.
    destruct (Hl _ Hin) as (q & -> & Hq). now apply or_else_pos.
  - intros n cnd c f x s d l r _ Hf.
    cbn [predictFromTree is_number]. rewrite (field_missing _ _ Hf).
    simpl. auto.
Qed.

Lemma predict_answers_on_any_input_witness :
  buildDecisionTree Reference.runtime "y" (Sample.ten "x") (Fin 2)
  = Ok (Some (Sample.ten_tree "x"))
  /\ (exists lf,
         In lf (leaves (Sample.ten_tree "x")) /\ is_leaf lf = true
         /\ predictFromTree Reference.runtime (Sample.ten_tree "x") []
            = {| prediction := node_name lf; confidence := node_confidence lf |}).
Proof.
  split.
  - vm_compute. reflexivity.
  - apply (predict_answers_on_any_input Reference.runtime "y" (Sample.ten "x")
             (Fin 2)).
    vm_compute. reflexivity.
Defined.

(** ** Records that all carry one label *)

Section UniformLabel.
Variable rt : Runtime.
Variable target : string.
Variable L : string.

Hypothesis log2_one : forall q, q == 1 -> log2Q rt q == 0.

Local Abbreviation uniform :=
  (Forall (fun row : DataPoint => label rt target row = L)).

Lemma set_empty {A} k (v : A) : set k v [] = [(k, v)].
Proof. unfold set. simpl. destruct (array_index k); reflexivity. Qed.

Lemma set_single {A} k (v v' : A) : set k v [(k, v')] = [(k, v)].
Proof. unfold set, has. simpl. now rewrite streq_refl. Qed.

Lemma tally_uniform_from subset k :
  uniform subset ->
  fold_left (tally rt target) subset [(L, k)]
  = [(L, (k + List.length subset)%nat)].
Proof.
  revert k. induction subset as [|row subset IH]; intros k Hu; simpl.
  - now rewrite Nat.add_0_r.
  - pose proof (Forall_inv Hu) as Hrow. cbv beta in Hrow.
    apply Forall_inv_tail in Hu.
    unfold tally at 2. rewrite Hrow. simpl.
    rewrite streq_refl, set_single, IH by assumption.
    f_equal. f_equal. lia.
Qed.

Lemma tally_uniform subset :
  uniform subset -> subset <> [] ->
  fold_left (tally rt target) subset [] = [(L, List.length subset)].
Proof.
  intros Hu Hne. destruct subset as [|row subset]; [congruence|].
  pose proof (Forall_inv Hu) as Hrow. cbv beta in Hrow.
  apply Forall_inv_tail in Hu.
  simpl. unfold tally at 2. rewrite Hrow. simpl.
  rewrite set_empty, tally_uniform_from by assumption. reflexivity.
Qed.

Lemma uniform_filter (p : DataPoint -> bool) subset :
  uniform subset -> uniform (filter p subset).
Proof.
  intros Hu. apply Forall_forall. intros row Hrow.
  apply filter_In in Hrow. rewrite Forall_forall in Hu. now apply Hu.
Qed.

Lemma uniform_filter_label subset :
  uniform subset ->
  filter (fun row => streq (label rt target row) L) subset = subset.
Proof.
  induction 1 as [|row subset Hrow Hu IH]; simpl; auto.
  rewrite Hrow, streq_refl. now f_equal.
Qed.

(** The entropy of records that share their label is zero. *)
Lemma getEntropy_uniform subset :
  uniform subset -> exists e, getEntropy rt target subset = Fin e /\ e == 0.
Proof.
  intros Hu. unfold getEntropy. destruct subset as [|row rest] eqn:E.
  - simpl. eexists. split; [reflexivity|]. reflexivity.
  - rewrite <- E in *. assert (Hne : subset <> []) by (subst; discriminate).
    rewrite (tally_uniform subset Hu Hne). cbn [values map snd fold_left].
    assert (Hn : (0 < List.length subset)%nat) by (subst; simpl; lia).
    rewrite div_of_nat by assumption.
    unfold log2. rewrite sgn_pos by (apply of_nat_ratio_pos; lia).
    cbn [mul add neg]. eexists. split; [reflexivity|].
    set (n := inject_Z (Z.of_nat (List.length subset))).
    assert (Hn0 : ~ n == 0).
    { unfold n. intros H. apply (Qlt_irrefl 0). rewrite <- H at 2.
      replace 0 with (inject_Z 0) by reflexivity. rewrite <- Zlt_Qlt. lia. }
    rewrite (log2_one (n / n)) by (field; exact Hn0). ring.
Qed.

Lemma gain_of_uniform data l r :
  uniform data -> uniform l -> uniform r -> data <> [] ->
  exists g, gain_of rt target data l r = Fin g /\ g == 0.
Proof.
  intros Hd Hl Hr Hne. unfold gain_of.
  assert (Hn : (0 < List.length data)%nat)
    by (destruct data; [congruence|simpl; lia]).
  destruct (getEntropy_uniform data Hd) as (e & -> & He).
  destruct (getEntropy_uniform l Hl) as (el & -> & Hel).
  destruct (getEntropy_uniform r Hr) as (er & -> & Her).
  rewrite !div_of_nat by assumption. cbn [mul add sub neg].
  eexists. split; [reflexivity|]. rewrite He, Hel, Her. ring.
Qed.

Lemma candidate_gain data s l r :
  candidate rt target data s l r -> s_gain s = gain_of rt target data l r.
Proof. intros []; reflexivity. Qed.

Lemma split_gain_uniform data s :
  uniform data -> data <> [] -> split_ok rt target data s ->
  leb (s_gain s) (Fin (1 # 100)) = true.
Proof.
  intros Hu Hne [->|(l & r & Hc & _)]; [reflexivity|].
  rewrite (candidate_gain _ _ _ _ Hc).
  destruct (candidate_complement rt target data s l r Hc) as (p & -> & ->).
  destruct (gain_of_uniform data (filter p data)
              (filter (fun row => negb (p row)) data)) as (g & -> & Hg);
    auto using uniform_filter.
  apply leb_Fin. rewrite Hg. discriminate.
Qed.

Lemma majority_leaf_uniform data :
  uniform data -> data <> [] ->
  majority_leaf rt target data (getDistribution rt target data)
  = Ok (Some (Leaf L (div (of_nat (List.length data)) (of_nat (List.length data)))
                   (List.length data) [(L, List.length data)])).
Proof.
  intros Hu Hne. unfold majority_leaf, getMajorityClass, getDistribution.
  rewrite (tally_uniform data Hu Hne). cbn [fold_left fst bind].
  now rewrite uniform_filter_label.
Qed.

(** Records that share their label give a single leaf of confidence 1. *)
Lemma build_uniform fuel data maxDepth :
  uniform data -> (5 <= List.length data)%nat ->
  eqb maxDepth (Fin 0) = false ->
  exists c,
    build rt target (S fuel) data maxDepth
    = Ok (Some (Leaf L (Fin c) (List.length data) [(L, List.length data)]))
    /\ c == 1.
Proof.
  intros Hu Hlen Hdepth.
  assert (Hne : data <> []) by (destruct data; simpl in Hlen; [lia|discriminate]).
  rewrite build_unfold, Hdepth.
  replace (List.length data <? 5)%nat with false
    by (symmetry; apply Nat.ltb_ge; lia).
  cbn [orb].
  destruct (findBestSplit_ok rt target data Hne) as (s & -> & Hs).
  cbn [bind]. rewrite (split_gain_uniform data s Hu Hne Hs).
  rewrite (majority_leaf_uniform data Hu Hne).
  rewrite div_of_nat by lia. eexists. split; [reflexivity|].
  field. intros H. apply (Qlt_irrefl 0). rewrite <- H at 2.
  replace 0 with (inject_Z 0) by reflexivity. rewrite <- Zlt_Qlt. lia.
Qed.
End UniformLabel.

Lemma positive_depth_is_not_zero maxDepth :
  gtb maxDepth (Fin 0) = true -> eqb maxDepth (Fin 0) = false.
Proof.
  destruct maxDepth as [| | |q]; simpl; try discriminate; auto.
  destruct (0 ?= q)%Q eqn:E; try discriminate. intros _.
  destruct (Qeq_bool q 0) eqn:Eq; auto.
  apply Qeq_bool_eq in Eq. symmetry in Eq. apply Qeq_alt in Eq. congruence.
Qed.

(** C6, as the code has it.  When no record has the target column, which
    bears no inherited name, each label is read as "undefined" and,
    [Math.log2(1)] being 0, the call returns a single leaf named
    "undefined" with confidence 1 that holds all the records; nothing is
    raised.  The numbers of the records are safe values, so that every
    threshold loop of [findBestSplit] ends. *)
Theorem missing_target_gives_undefined_leaf rt target data maxDepth :
  (forall q, q == 1 -> log2Q rt q == 0) ->
  (5 <= List.length data)%nat ->
  gtb maxDepth (Fin 0) = true ->
  inherited target = false ->
  safe_numbers data ->
  Forall (fun row : DataPoint => get target row = None) data ->
  exists c,
    buildDecisionTree rt target data maxDepth
    = Ok (Some (Leaf "undefined" (Fin c) (List.length data)
                     [("undefined", List.length data)]))
    /\ c == 1.
Proof.
  intros Hlog Hlen Hdepth _ _ Hmiss. unfold buildDecisionTree.
  assert (Hu : Forall (fun row : DataPoint => label rt target row = "undefined")
                      data).
  { eapply Forall_impl; [|exact Hmiss]. intros row Hrow. unfold label.
    now rewrite (field_missing _ _ Hrow). }
  destruct (build_uniform rt target "undefined" Hlog
              (Nat.pred (List.length data)) data maxDepth Hu Hlen
              (positive_depth_is_not_zero _ Hdepth)) as (c & E & Hc).
  replace (S (Nat.pred (List.length data))) with (List.length data) in E by lia.
  eauto.
Qed.

Lemma reference_log2_one q : q == 1 -> log2Q Reference.runtime q == 0.
Proof.
  intros H. simpl. unfold Reference.log2Q.
  assert (E : Qred q = Qred 1) by now apply Qred_complete.
  rewrite E. reflexivity.
Qed.

Lemma safe_numbers_ten k : safe_numbers (Sample.ten k).
Proof. repeat constructor; vm_compute; discriminate. Qed.

Lemma missing_target_gives_undefined_leaf_witness :
  (5 <= List.length (Sample.ten "x"))%nat
  /\ gtb (Fin 4) (Fin 0) = true
  /\ inherited "label" = false
  /\ safe_numbers (Sample.ten "x")
  /\ Forall (fun row : DataPoint => get "label" row = None) (Sample.ten "x")
  /\ exists c,
       buildDecisionTree Reference.runtime "label" (Sample.ten "x") (Fin 4)
       = Ok (Some (Leaf "undefined" (Fin c) (List.length (Sample.ten "x"))
                        [("undefined", List.length (Sample.ten "x"))]))
       /\ c == 1.
Proof.
  assert (H1 : (5 <= List.length (Sample.ten "x"))%nat) by (simpl; lia).
  assert (H2 : gtb (Fin 4) (Fin 0) = true) by reflexivity.
  assert (H3 : Forall (fun row : DataPoint => get "label" row = None)
                      (Sample.ten "x"))
    by (repeat constructor).
  assert (H4 : inherited "label" = false) by reflexivity.
  pose proof (safe_numbers_ten "x") as H5.
  split; [exact H1|]. split; [exact H2|]. split; [exact H4|].
  split; [exact H5|]. split; [exact H3|].
  exact (missing_target_gives_undefined_leaf Reference.runtime "label"
           (Sample.ten "x") (Fin 4) reference_log2_one H1 H2 H4 H5 H3).
Defined.

(** C6, as stated, fails: with ten records that have no [label] column
    the call returns a leaf and raises nothing. *)
Lemma missing_target_counterexample :
  (5 <= List.length (Sample.ten "x"))%nat
  /\ gtb (Fin 4) (Fin 0) = true
  /\ Forall (fun row : DataPoint => get "label" row = None) (Sample.ten "x")
  /\ buildDecisionTree Reference.runtime "label" (Sample.ten "x") (Fin 4)
     = Ok (Some (Leaf "undefined" (Fin (10 # 10)) 10 [("undefined", 10%nat)]))
  /\ buildDecisionTree Reference.runtime "label" (Sample.ten "x") (Fin 4)
     <> TypeError.
Proof.
  assert (E : buildDecisionTree Reference.runtime "label" (Sample.ten "x") (Fin 4)
              = Ok (Some (Leaf "undefined" (Fin (10 # 10)) 10
                               [("undefined", 10%nat)])))
    by (vm_compute; reflexivity).
  split; [simpl; lia|]. split; [reflexivity|].
  split; [repeat constructor|]. split; [exact E|].
  rewrite E. discriminate.
Qed.

(** ** Feature importance *)

Lemma total_of_app f cs cs' :
  total_of f (cs ++ cs') == total_of f cs + total_of f cs'.
Proof.
  induction cs as [|[f' c] cs IH]; simpl.
  - ring.
  - rewrite IH. ring.
Qed.

Lemma grand_total_app cs cs' :
  grand_total (cs ++ cs') == grand_total cs + grand_total cs'.
Proof.
  induction cs as [|[f' c] cs IH]; simpl.
  - ring.
  - rewrite IH. ring.
Qed.

Lemma grand_total_pos cs :
  cs <> [] -> Forall (fun e => 0 < snd e) cs -> 0 < grand_total cs.
Proof.
  intros Hne H. destruct cs as [|[f c] cs]; [congruence|].
  inversion H as [|? ? Hc Hcs]; subst. simpl in *.
  assert (G : 0 <= grand_total cs).
  { clear -Hcs. induction Hcs as [|[f' c'] cs Hc' _ IH]; simpl in *; lra. }
  lra.
Qed.

Lemma sum_weights_perm l l' :
  Permutation l l' -> sum_weights l == sum_weights l'.
Proof.
  induction 1 as [|[k v] l l' _ IH|[k v] [k' v'] l|l1 l2 l3 _ IH1 _ IH2];
    simpl; lra.
Qed.

Lemma In_get_NoDup {A} k (v : A) (o : obj A) :
  NoDup (keys o) -> In (k, v) o -> get k o = Some v.
Proof.
  induction o as [|[k' v'] o IH]; simpl; [tauto|].
  intros Hnd [[= -> ->]|Hin].
  - now rewrite streq_refl.
  - inversion Hnd; subst. destruct (streq k k') eqn:E; auto.
    apply streq_true in E. subst k'. exfalso. apply H1.
    unfold keys. change k with (fst (k, v)). now apply in_map.
Qed.

Lemma total_of_absent f cs : ~ In f (map fst cs) -> total_of f cs == 0.
Proof.
  induction cs as [|[f' c] cs IH]; simpl; intros H.
  - reflexivity.
  - destruct (streq f f') eqn:E.
    + apply streq_true in E. subst. tauto.
    + rewrite IH by tauto. ring.
Qed.

Lemma total_of_last f cs f' c :
  total_of f (cs ++ [(f', c)])
  == total_of f cs + (if streq f f' then c else 0).
Proof. rewrite total_of_app. simpl. ring. Qed.

Lemma grand_total_last cs f c :
  grand_total (cs ++ [(f, c)]) == grand_total cs + c.
Proof. rewrite grand_total_app. simpl. ring. Qed.

(** The value written by [add_importance] and the growth of the sum of
    the dictionary. *)
Lemma tracks_write st acc f c :
  tracks st acc -> 0 < c ->
  exists q,
    add (match get f (importanceMap st) with
         | Some v => or_else v (Fin 0)
         | None => Fin 0
         end) (Fin c) = Fin q
    /\ q == total_of f acc + c
    /\ sum_weights (set f (Fin q) (importanceMap st))
       == sum_weights (importanceMap st) + c.
Proof.
  intros (Hnd & _ & Hsome & Hnone & _ & _) Hc.
  destruct (get f (importanceMap st)) as [v|] eqn:G.
  - destruct (Hsome f v G) as (_ & q & -> & Hq & Hpos).
    rewrite or_else_pos by assumption. cbn [add].
    eexists. split; [reflexivity|]. split; [lra|].
    rewrite set_old by congruence.
    destruct (replace_NoDup_perm f (Fin (q + c)) (Fin q) _ Hnd G)
      as (o' & P1 & P2).
    rewrite (sum_weights_perm _ _ P1), (sum_weights_perm _ _ P2).
    simpl. ring.
  - cbn [add]. eexists. split; [reflexivity|].
    rewrite (total_of_absent f acc (Hnone f G)). split; [ring|].
    rewrite (sum_weights_perm _ _ (set_new_perm f (Fin (0 + c)) _ G)).
    simpl. ring.
Qed.

Lemma tracks_add st acc f c :
  tracks st acc -> 0 < c ->
  tracks
    {| importanceMap :=
         set f (add (match get f (importanceMap st) with
                     | Some v => or_else v (Fin 0)
                     | None => Fin 0
                     end) (Fin c))
             (importanceMap st);
       totalImportance := add (totalImportance st) (Fin c) |}
    (acc ++ [(f, c)]).
Proof.
  intros Ht Hc.
  destruct (tracks_write st acc f c Ht Hc) as (q & -> & Hq & Hsum).
  destruct Ht as (Hnd & (T & ET & HT) & Hsome & Hnone & Hs & Hall).
  unfold tracks. cbn [importanceMap totalImportance].
  split; [now apply set_NoDup|].
  split.
  { rewrite ET. cbn [add]. eexists. split; [reflexivity|].
    rewrite grand_total_last. lra. }
  split.
  { intros f' v Hg. destruct (string_dec f' f) as [->|Hne].
    - rewrite get_set_same in Hg. injection Hg as <-.
      split.
      + rewrite map_app. apply in_or_app. right. simpl. auto.
      + exists q. split; [reflexivity|].
        rewrite total_of_last, streq_refl. split; [lra|].
        assert (0 <= total_of f acc).
        { clear -Hall. induction Hall as [|[f' c'] cs Hc' _ IH]; simpl in *.
          - lra.
          - destruct (streq f f'); lra. }
        lra.
    - rewrite get_set_other in Hg by assumption.
      destruct (Hsome f' v Hg) as (Hin & q' & -> & Hq' & Hpos).
      split.
      + rewrite map_app. apply in_or_app. now left.
      + exists q'. split; [reflexivity|].
        rewrite total_of_last.
        apply streq_false in Hne. rewrite Hne. split; [lra|assumption]. }
  split.
  { intros f' Hg. destruct (string_dec f' f) as [->|Hne].
    - rewrite get_set_same in Hg. discriminate.
    - rewrite get_set_other in Hg by assumption.
      rewrite map_app. intros Hin. apply in_app_or in Hin.
      destruct Hin as [Hin|[Hin|[]]].
      + exact (Hnone f' Hg Hin).
      + simpl in Hin. congruence. }
  split.
  { rewrite Hsum, grand_total_last. lra. }
  apply Forall_app. split; auto.
Qed.

Lemma inject_nat_pos n : (0 < n)%nat -> 0 < inject_Z (Z.of_nat n).
Proof.
  intros H. replace 0 with (inject_Z 0) by reflexivity.
  rewrite <- Zlt_Qlt. lia.
Qed.

Lemma contribution_pos samples depth g :
  (0 < samples)%nat -> 0 < g -> 0 < contribution samples depth g.
Proof.
  intros Hs Hg. unfold contribution.
  apply Qmult_lt_0_compat; [apply Qmult_lt_0_compat|assumption].
  - apply Qlt_shift_div_l; [reflexivity|].
    rewrite Qmult_0_l. now apply inject_nat_pos.
  - apply Qpower_0_lt. reflexivity.
Qed.

(** On a scored node [nodeImportance] is the contribution of the
    specification. *)
Lemma node_importance_value samples depth g :
  (0 < samples)%nat -> 0 < g ->
  mul (mul (div (or_else (of_nat samples) (Fin 1)) (Fin 100))
           (pow (9 # 10) depth))
      (or_else (Fin g) (Fin (1 # 2)))
  = Fin (contribution samples depth g).
Proof.
  intros Hs Hg. unfold of_nat.
  rewrite !or_else_pos by auto using inject_nat_pos.
  unfold div. change (sgn 100) with Gt. reflexivity.
Qed.

Lemma tracks_traverse t :
  decisions_scored t ->
  forall depth st acc,
    tracks st acc ->
    tracks (traverse t depth st) (acc ++ contributions t depth).
Proof.
  induction t as [n c s d | n cnd c f th s d l IHl r IHr];
    intros Hsc depth st acc Ht.
  - simpl. now rewrite app_nil_r.
  - simpl in Hsc. destruct Hsc as (Hf & Hs & (g & -> & Hg) & Hl & Hr).
    cbn [traverse contributions to_Q].
    apply streq_false in Hf. rewrite Hf.
    unfold add_importance. rewrite node_importance_value by assumption.
    pose proof (tracks_add st acc f (contribution s depth g) Ht
                  (contribution_pos s depth g Hs Hg)) as H1.
    pose proof (IHl Hl (depth + 1)%nat _ _ H1) as H2.
    pose proof (IHr Hr (depth + 1)%nat _ _ H2) as H3.
    rewrite <- !app_assoc in H3. exact H3.
Qed.

(** ** Normalisation and ranking *)

Lemma get_app_absent {A} k (pre post : obj A) :
  ~ In k (keys pre) -> get k (pre ++ post) = get k post.
Proof.
  intros H. rewrite get_app. apply get_None_keys in H. now rewrite H.
Qed.

Lemma replace_app_absent {A} k (v : A) (pre post : obj A) :
  ~ In k (keys pre) -> replace k v (pre ++ post) = pre ++ replace k v post.
Proof.
  induction pre as [|[k' v'] pre IH]; simpl; intros H; auto.
  destruct (streq k k') eqn:E.
  - apply streq_true in E. subst. tauto.
  - rewrite IH by tauto. reflexivity.
Qed.

(** [normalize] divides every value in place. *)
Lemma normalize_from total (pre post : obj num) :
  NoDup (keys (pre ++ post)) ->
  fold_left
    (fun m key =>
       set key (div (match get key m with Some v => v | None => NaN end) total)
           m)
    (keys post) (pre ++ post)
  = pre ++ map (fun e => (fst e, div (snd e) total)) post.
Proof.
  revert pre. induction post as [|[k v] post IH]; intros pre Hnd; simpl.
  - reflexivity.
  - assert (Hk : ~ In k (keys pre)).
    { unfold keys in *. rewrite map_app in Hnd. simpl in Hnd.
      apply NoDup_remove_2 in Hnd. intros H. apply Hnd.
      apply in_or_app. now left. }
    rewrite get_app_absent by assumption. simpl. rewrite streq_refl.
    rewrite set_old
      by (rewrite get_app_absent by assumption; simpl;
          rewrite streq_refl; discriminate).
    rewrite replace_app_absent by assumption. simpl. rewrite streq_refl.
    change (pre ++ (k, div v total) :: post)
      with (pre ++ [(k, div v total)] ++ post).
    rewrite app_assoc, IH.
    + now rewrite <- app_assoc.
    + rewrite <- app_assoc. simpl. unfold keys in *.
      rewrite map_app in *. simpl in *. exact Hnd.
Qed.

Lemma normalize_map total (m : obj num) :
  NoDup (keys m) ->
  normalize total m = map (fun e => (fst e, div (snd e) total)) m.
Proof. intros H. exact (normalize_from total [] m H). Qed.

Lemma sort_insert_perm {A} (cmp : A -> A -> num) x l :
  Permutation (sort_insert cmp x l) (x :: l).
Proof.
  induction l as [|y l IH]; simpl; auto.
  destruct (ltb (cmp x y) (Fin 0)); auto.
  rewrite IH. apply perm_swap.
Qed.

Lemma sort_perm {A} (cmp : A -> A -> num) l : Permutation (sort cmp l) l.
Proof.
  unfold sort.
  enough (G : forall acc, Permutation
                            (fold_left (fun acc x => sort_insert cmp x acc) l acc)
                            (acc ++ l)) by apply (G []).
  induction l as [|x l IH]; intros acc; simpl.
  - now rewrite app_nil_r.
  - rewrite IH, sort_insert_perm. apply Permutation_middle.
Qed.

Local Abbreviation by_weight := (fun a b : string * num => sub (snd b) (snd a)).

Lemma sort_insert_descending x l :
  is_fin (snd x) -> Forall (fun e => is_fin (snd e)) l ->
  descending l -> descending (sort_insert by_weight x l).
Proof.
  unfold descending. intros Hx Hl Hs.
  induction Hs as [|y l Hs IH Hy]; simpl.
  - constructor; constructor.
  - inversion Hl as [|? ? Hfy Hl']; subst.
    destruct x as [kx [| | |qx]]; try contradiction.
    destruct y as [ky [| | |qy]]; try contradiction.
    cbn [snd sub neg add].
    destruct (ltb (Fin (qy + - qx)) (Fin 0)) eqn:E.
    + apply ltb_Fin in E. constructor; [constructor; assumption|].
      constructor.
      * simpl. lra.
      * eapply Forall_impl; [|exact Hy]. simpl. intros a Ha. lra.
    + assert (Hle : qx <= qy).
      { apply Qnot_lt_le. intros H. assert (qy + - qx < 0) by lra.
        apply ltb_Fin in H0. congruence. }
      constructor; [apply IH; assumption|].
      eapply Permutation_Forall.
      * symmetry. apply sort_insert_perm.
      * constructor; [simpl; exact Hle|exact Hy].
Qed.

Lemma sort_descending l :
  Forall (fun e => is_fin (snd e)) l -> descending (sort by_weight l).
Proof.
  unfold sort. intros Hl.
  enough (G : forall acc,
             Forall (fun e => is_fin (snd e)) acc -> descending acc ->
             descending (fold_left (fun acc x => sort_insert by_weight x acc)
                                   l acc)).
  { apply G; constructor. }
  induction Hl as [|x l Hx Hl IH]; intros acc Hacc Hs; simpl; auto.
  apply IH.
  - eapply Permutation_Forall.
    + symmetry. apply sort_insert_perm.
    + constructor; assumption.
  - now apply sort_insert_descending.
Qed.

Lemma sum_weights_normalized T (m : obj num) :
  0 < T -> Forall (fun e => is_fin (snd e)) m ->
  sum_weights (map (fun e => (fst e, div (snd e) (Fin T))) m)
  == sum_weights m / T.
Proof.
  intros HT Hm. induction Hm as [|[k v] m Hv _ IH]; simpl.
  - field. lra.
  - destruct v as [| | |q]; try contradiction.
    unfold div at 1. rewrite (sgn_pos T HT). cbn [to_Q].
    rewrite IH. field. lra.
Qed.

Lemma tracks_initial :
  tracks {| importanceMap := []; totalImportance := Fin 0 |} [].
Proof.
  unfold tracks. simpl. repeat split; try constructor; try discriminate; auto.
  exists 0. split; reflexivity.
Qed.

(** The ranking returned for a tree whose decision nodes are all scored:
    it is in descending order, lists each feature of a decision node once
    with its total over the grand total, and its weights sum to one. *)
Lemma importance_ranking t :
  decisions_scored t -> contributions t 0 <> [] ->
  let cs := contributions t 0 in
  let ranking := calculateFeatureImportance (Some t) in
  descending ranking
  /\ NoDup (map fst ranking)
  /\ (forall f, In f (map fst ranking) <-> In f (map fst cs))
  /\ (forall f w, In (f, w) ranking ->
        exists q, w = Fin q /\ q == total_of f cs / grand_total cs)
  /\ sum_weights ranking == 1.
Proof.
  intros Hsc Hne cs ranking.
  pose proof (tracks_traverse t Hsc 0%nat _ _ tracks_initial) as Ht.
  cbn [app] in Ht. fold cs in Ht.
  set (st := traverse t 0 _) in Ht.
  destruct Ht as (Hnd & (T & ET & HT) & Hsome & Hnone & Hsum & Hall).
  assert (Hpos : 0 < T) by (rewrite HT; now apply grand_total_pos).
  assert (Hfin : forall e, In e (importanceMap st) ->
                   exists q, snd e = Fin q /\ q == total_of (fst e) cs).
  { intros [k v] Hin. apply In_get_NoDup in Hin; auto.
    destruct (Hsome k v Hin) as (_ & q & -> & Hq & _). simpl. eauto. }
  set (norm := fun e : string * num => (fst e, div (snd e) (Fin T))).
  assert (Er : ranking = sort (fun a b => sub (snd b) (snd a))
                              (map norm (importanceMap st))).
  { unfold ranking, calculateFeatureImportance. fold st. rewrite ET.
    replace (gtb (Fin T) (Fin 0)) with true
      by (symmetry; apply ltb_Fin; exact Hpos).
    now rewrite normalize_map. }
  assert (Hperm : Permutation ranking (map norm (importanceMap st)))
    by (rewrite Er; apply sort_perm).
  assert (Hnormfin : Forall (fun e => is_fin (snd e))
                            (map norm (importanceMap st))).
  { apply Forall_forall. intros e He. apply in_map_iff in He.
    destruct He as (e0 & <- & He0). destruct (Hfin e0 He0) as (q & Eq & _).
    unfold norm. simpl. rewrite Eq. unfold div. rewrite (sgn_pos T Hpos).
    exact I. }
  assert (Hkeys : Permutation (map fst ranking) (keys (importanceMap st))).
  { rewrite (Permutation_map fst Hperm). rewrite map_map. reflexivity. }
  split; [rewrite Er; now apply sort_descending|].
  split; [eapply Permutation_NoDup; [symmetry; exact Hkeys|exact Hnd]|].
  split.
  { intros f. split; intros Hin.
    - apply (Permutation_in _ Hkeys) in Hin.
      destruct (get f (importanceMap st)) as [v|] eqn:G.
      + now destruct (Hsome f v G).
      + apply get_None_keys in G. contradiction.
    - apply (Permutation_in _ (Permutation_sym Hkeys)).
      destruct (get f (importanceMap st)) as [v|] eqn:G.
      + apply get_In in G. unfold keys. change f with (fst (f, v)).
        now apply in_map.
      + exfalso. exact (Hnone f G Hin). }
  split.
  { intros f w Hin. apply (Permutation_in _ Hperm) in Hin.
    apply in_map_iff in Hin. destruct Hin as (e0 & E0 & He0).
    destruct (Hfin e0 He0) as (q & Eq & Hq).
    unfold norm in E0. rewrite Eq in E0. injection E0 as <- <-.
    unfold div. rewrite (sgn_pos T Hpos). eexists. split; [reflexivity|].
    now rewrite Hq, HT. }
  rewrite (sum_weights_perm _ _ Hperm).
  assert (Hmfin : Forall (fun e => is_fin (snd e)) (importanceMap st)).
  { apply Forall_forall. intros e He. destruct (Hfin e He) as (q & -> & _).
    exact I. }
  unfold norm. rewrite (sum_weights_normalized T _ Hpos Hmfin).
  rewrite Hsum, <- HT. field. lra.
Qed.

(** In a built tree every decision node holds at least five samples and a
    finite gain above 0.01. *)
Lemma built_decisions_scored rt target fuel data maxDepth t :
  build rt target fuel data maxDepth = Ok (Some t) ->
  forall depth,
    Forall (fun e => fst e <> "") (contributions t depth) ->
    decisions_scored t.
Proof.
  apply (build_inv rt target
           (fun _ t => forall depth,
                Forall (fun e => fst e <> "") (contributions t depth) ->
                decisions_scored t)).
  - simpl. auto.
  - intros d s left right cond l r Hd Hc Hl Hr Hg IHl IHr depth Hall.
    cbn [contributions] in Hall. inversion Hall as [|? ? Hf Hrest]; subst.
    apply Forall_app in Hrest. destruct Hrest as [Hal Har].
    assert (Hne : d <> []) by (destruct d; simpl in Hd; [lia|discriminate]).
    destruct (candidate_gain_pos rt target d s left right Hne Hc Hg)
      as (g & Eg & Hgpos).
    simpl. repeat split; eauto.
    + lia.
    + exists g. split; auto. lra.
Qed.

(** The importance of a built tree none of whose split features has an
    empty name: empty for a single leaf, and otherwise the normalised
    ranking of the specification. *)
Lemma importance_of_built_tree rt target data maxDepth t :
  buildDecisionTree rt target data maxDepth = Ok (Some t) ->
  Forall (fun e => fst e <> "") (contributions t 0) ->
  let cs := contributions t 0 in
  let ranking := calculateFeatureImportance (Some t) in
  (is_leaf t = true -> ranking = [])
  /\ (is_leaf t = false ->
      descending ranking
      /\ NoDup (map fst ranking)
      /\ (forall f, In f (map fst ranking) <-> In f (map fst cs))
      /\ (forall f w, In (f, w) ranking ->
            exists q, w = Fin q /\ q == total_of f cs / grand_total cs)
      /\ sum_weights ranking == 1).
Proof.
  intros Hb Hnames cs ranking. split.
  - destruct t; [reflexivity|discriminate].
  - intros Hleaf. apply importance_ranking.
    + exact (built_decisions_scored _ _ _ _ _ _ Hb 0%nat Hnames).
    + destruct t; simpl in *; discriminate.
Qed.

(** C4 fails on the code.  Ten records whose only feature column has the
    empty name give a tree with one decision node, for which
    [calculateFeatureImportance] returns the empty list: [if (node.feature)]
    takes the empty name for the absence of a feature.  The same records
    with the column named [x] give the ranking of the claim. *)
Theorem empty_feature_name_is_dropped :
  buildDecisionTree Reference.runtime "y" (Sample.ten "") (Fin 2)
  = Ok (Some (Sample.ten_tree ""))
  /\ is_leaf (Sample.ten_tree "") = false
  /\ contributions (Sample.ten_tree "") 0
     = [("", contribution 10 0 (250000 # 250000))]
  /\ calculateFeatureImportance (Some (Sample.ten_tree "")) = []
  /\ buildDecisionTree Reference.runtime "y" (Sample.ten "x") (Fin 2)
     = Ok (Some (Sample.ten_tree "x"))
  /\ exists w, calculateFeatureImportance (Some (Sample.ten_tree "x"))
               = [("X", Fin w)] /\ w == 1.
Proof.
  repeat split; try (vm_compute; reflexivity).
  eexists. split; [vm_compute; reflexivity|]. reflexivity.
Qed.

(** The ranking lemma applies to the tree built from [Sample.ten "x"]. *)
Example importance_of_sample_tree :
  let ranking := calculateFeatureImportance (Some (Sample.ten_tree "x")) in
  descending ranking /\ NoDup (map fst ranking) /\ sum_weights ranking == 1.
Proof.
  destruct (importance_of_built_tree Reference.runtime "y" (Sample.ten "x")
              (Fin 2) (Sample.ten_tree "x"))
    as [_ H].
  - vm_compute. reflexivity.
  - repeat constructor. discriminate.
  - destruct (H eq_refl) as (H1 & H2 & _ & _ & H5). auto.
Qed.

(** * Further properties of the builder *)

(** ** The tally of the labels *)

Lemma sum_values_replace k v old (o : obj nat) :
  get k o = Some old ->
  (list_sum (values (replace k v o)) + old = list_sum (values o) + v)%nat.
Proof.
  induction o as [|[k' v'] o IH]; simpl; [discriminate|].
  destruct (streq k k') eqn:E; simpl.
  - intros [= ->]. lia.
  - intros H. specialize (IH H). lia.
Qed.

Lemma sum_values_perm (o o' : obj nat) :
  Permutation o o' -> list_sum (values o) = list_sum (values o').
Proof.
  induction 1 as [|[k v] l l' _ IH|[k v] [k' v'] l|l1 l2 l3 _ IH1 _ IH2];
    simpl in *; lia.
Qed.

Section TallyTotals.
Variable rt : Runtime.
Variable target : string.

Lemma sum_values_tally o row :
  list_sum (values (tally rt target o row)) = S (list_sum (values o)).
Proof.
  unfold tally. destruct (get (label rt target row) o) as [old|] eqn:G.
  - rewrite set_old by congruence.
    pose proof (sum_values_replace _ (old + 1)%nat old o G). lia.
  - rewrite (sum_values_perm _ _ (set_new_perm _ _ _ G)). simpl. lia.
Qed.

Lemma sum_values_fold data o :
  list_sum (values (fold_left (tally rt target) data o))
  = (list_sum (values o) + List.length data)%nat.
Proof.
  revert o. induction data as [|row data IH]; intros o; simpl.
  - lia.
  - rewrite IH, sum_values_tally. lia.
Qed.

Lemma tally_fold_NoDup data o :
  NoDup (keys o) -> NoDup (keys (fold_left (tally rt target) data o)).
Proof.
  revert o. induction data as [|row data IH]; intros o Ho; simpl; auto.
  apply IH. unfold tally. now apply set_NoDup.
Qed.

Lemma count_label_pos_iff c data :
  (1 <= count_label rt target c data)%nat
  <-> exists row, In row data /\ label rt target row = c.
Proof.
  unfold count_label. split.
  - intros H.
    destruct (filter (fun row => streq (label rt target row) c) data)
      as [|row rest] eqn:E; [simpl in H; lia|].
    assert (Hin : In row (filter (fun row => streq (label rt target row) c) data))
      by (rewrite E; now left).
    apply filter_In in Hin. destruct Hin as [Hin Hl].
    apply streq_true in Hl. eauto.
  - intros (row & Hin & Hl).
    assert (Hf : In row (filter (fun row => streq (label rt target row) c) data)).
    { apply filter_In. split; auto. now apply streq_true. }
    destruct (filter _ data); [contradiction|simpl; lia].
Qed.

(** X1.  When the target and the labels bear no inherited name,
    [getDistribution] lists each class of the subset once, with the
    number of records that carry it; a class is listed exactly when some
    record carries it, and the counts add up to the number of records. *)
Theorem distribution_counts_every_record data :
  plain_labels rt target data ->
  let d := getDistribution rt target data in
  NoDup (keys d)
  /\ (forall c, get_count c d = count_label rt target c data)
  /\ (forall c, In c (keys d)
                <-> exists row, In row data /\ label rt target row = c)
  /\ (forall c n, In (c, n) d -> (1 <= n)%nat)
  /\ list_sum (values d) = List.length data.
Proof.
  intros _ d. unfold d, getDistribution.
  assert (Hpos : forall x, In x (fold_left (tally rt target) data []) ->
                           (1 <= snd x)%nat)
    by (apply tally_fold_pos; intros x []).
  split; [apply tally_fold_NoDup; constructor|].
  split; [intros c; apply (get_count_distribution rt target)|].
  split.
  { intros c. rewrite <- count_label_pos_iff.
    rewrite <- (get_count_distribution rt target). unfold getDistribution, get_count.
    destruct (get c (fold_left (tally rt target) data [])) as [n|] eqn:G.
    - split; intros _.
      + apply get_In in G. exact (Hpos _ G).
      + apply get_In in G. unfold keys. change c with (fst (c, n)).
        now apply in_map.
    - split; [|lia]. intros Hin. apply get_None_keys in G. contradiction. }
  split; [intros c n Hin; exact (Hpos _ Hin)|].
  rewrite sum_values_fold. reflexivity.
Qed.
End TallyTotals.

Lemma plain_labels_scenario : plain_labels Reference.runtime "y" Sample.scenario.
Proof. split; [reflexivity|repeat constructor]. Qed.

Lemma plain_labels_ten k :
  streq "y" k = false -> plain_labels Reference.runtime "y" (Sample.ten k).
Proof.
  intros Hk. split; [reflexivity|].
  unfold Sample.ten, Sample.row, label, field.
  repeat (apply Forall_cons; [cbn [get]; rewrite Hk; reflexivity|]).
  constructor.
Qed.

Lemma distribution_counts_every_record_witness :
  plain_labels Reference.runtime "y" Sample.scenario
  /\ getDistribution Reference.runtime "y" Sample.scenario
     = [("a", 2%nat); ("b", 3%nat)]
  /\ list_sum (values (getDistribution Reference.runtime "y" Sample.scenario))
     = List.length Sample.scenario.
Proof.
  split; [exact plain_labels_scenario|]. split; [reflexivity|].
  destruct (distribution_counts_every_record Reference.runtime "y"
              Sample.scenario plain_labels_scenario) as (_ & _ & _ & _ & H).
  exact H.
Defined.

(** ** The majority class *)

Lemma majority_fold_max (rest : obj nat) first :
  forall x, In x (first :: rest) ->
    (snd x
     <= snd (fold_left (fun a b => if (snd b <? snd a)%nat then a else b)
                       rest first))%nat.
Proof.
  revert first. induction rest as [|b rest IH]; intros first x Hx.
  - destruct Hx as [<-|[]]. simpl. lia.
  - cbn [fold_left].
    set (w := if (snd b <? snd first)%nat then first else b).
    assert (Hw : (snd first <= snd w)%nat /\ (snd b <= snd w)%nat).
    { unfold w. destruct (snd b <? snd first)%nat eqn:E.
      - apply Nat.ltb_lt in E. lia.
      - apply Nat.ltb_ge in E. lia. }
    pose proof (IH w w (or_introl eq_refl)) as Hww.
    destruct Hx as [<-|[<-|Hx]]; try lia.
    apply (IH w x). now right.
Qed.

Section MajorityFacts.
Variable rt : Runtime.
Variable target : string.

Lemma getMajorityClass_max data :
  data <> [] ->
  exists m,
    getMajorityClass rt target data = Ok m
    /\ (1 <= count_label rt target m data)%nat
    /\ forall c, (count_label rt target c data
                  <= count_label rt target m data)%nat.
Proof.
  intros Hd. unfold getMajorityClass.
  pose proof (tally_fold_nonempty rt target data [] Hd) as Hne.
  pose proof (tally_fold_NoDup rt target data [] (NoDup_nil _)) as Hnd.
  assert (Hpos : forall x, In x (fold_left (tally rt target) data []) ->
                           (1 <= snd x)%nat)
    by (apply tally_fold_pos; intros x []).
  assert (Hcount : forall c, get_count c (fold_left (tally rt target) data [])
                             = count_label rt target c data)
    by (intros c; apply (get_count_distribution rt target)).
  destruct (fold_left (tally rt target) data []) as [|first rest] eqn:E;
    [congruence|].
  eexists. split; [reflexivity|].
  set (w := fold_left _ rest first).
  assert (Hin : In w (first :: rest)) by apply majority_fold_In.
  assert (Hget : get (fst w) (first :: rest) = Some (snd w)).
  { apply In_get_NoDup; auto. now destruct w. }
  assert (Hm : count_label rt target (fst w) data = snd w).
  { rewrite <- Hcount. unfold get_count. now rewrite Hget. }
  split; [rewrite Hm; exact (Hpos w Hin)|].
  intros c. rewrite Hm, <- Hcount. unfold get_count.
  destruct (get c (first :: rest)) as [n|] eqn:G; [|lia].
  apply get_In in G. exact (majority_fold_max rest first (c, n) G).
Qed.

End MajorityFacts.

(** X2.  On a non-empty subset whose target and labels bear no inherited
    name, [getMajorityClass] returns a class that occurs in it and that no
    other class outnumbers. *)
Theorem majority_class_is_most_frequent rt target data :
  data <> [] ->
  plain_labels rt target data ->
  exists m,
    getMajorityClass rt target data = Ok m
    /\ (1 <= count_label rt target m data)%nat
    /\ forall c, (count_label rt target c data
                  <= count_label rt target m data)%nat.
Proof. intros Hd _. now apply getMajorityClass_max. Qed.

Lemma majority_class_is_most_frequent_witness :
  Sample.scenario <> []
  /\ plain_labels Reference.runtime "y" Sample.scenario
  /\ exists m,
       getMajorityClass Reference.runtime "y" Sample.scenario = Ok m
       /\ (1 <= count_label Reference.runtime "y" m Sample.scenario)%nat
       /\ forall c, (count_label Reference.runtime "y" c Sample.scenario
                     <= count_label Reference.runtime "y" m Sample.scenario)%nat.
Proof.
  split; [discriminate|]. split; [exact plain_labels_scenario|].
  apply (majority_class_is_most_frequent Reference.runtime "y").
  - discriminate.
  - exact plain_labels_scenario.
Defined.

(** ** Induction over the recursion, with the depth and the split *)

Section BuildInduction.
Variable rt : Runtime.
Variable target : string.

Lemma build_induction (P : list DataPoint -> num -> TreeNode -> Prop) :
  (forall data maxDepth m,
      (5 <= List.length data)%nat -> eqb maxDepth (Fin 0) = false ->
      getMajorityClass rt target data = Ok m ->
      P data maxDepth
        (Leaf m (div (of_nat (count_label rt target m data))
                     (of_nat (List.length data)))
              (List.length data) (getDistribution rt target data))) ->
  (forall data maxDepth s left right cond l r,
      (5 <= List.length data)%nat -> eqb maxDepth (Fin 0) = false ->
      findBestSplit rt target data = Ok s ->
      candidate rt target data s left right ->
      (5 <= List.length left)%nat -> (5 <= List.length right)%nat ->
      leb (s_gain s) (Fin (1 # 100)) = false ->
      P left (sub maxDepth (Fin 1)) l -> P right (sub maxDepth (Fin 1)) r ->
      P data maxDepth
        (Decision (formatFeatureName (s_feature s)) cond (s_gain s)
                  (formatFeatureName (s_feature s)) (s_threshold s)
                  (List.length data) (getDistribution rt target data) l r)) ->
  forall fuel data maxDepth t,
    build rt target fuel data maxDepth = Ok (Some t) -> P data maxDepth t.
Proof.
  intros Hleaf Hnode.
  induction fuel as [|fuel IH]; intros data maxDepth t;
    rewrite build_unfold;
    destruct (eqb maxDepth (Fin 0)) eqn:Edepth; cbn [orb];
    try discriminate;
    destruct (List.length data <? 5)%nat eqn:E; try discriminate.
  apply Nat.ltb_ge in E.
  assert (Hd : data <> []) by (destruct data; simpl in E; [lia|discriminate]).
  destruct (findBestSplit_ok rt target data Hd) as (s & Es & Hs).
  rewrite Es. cbn [bind].
  assert (HL : majority_leaf rt target data (getDistribution rt target data)
               = Ok (Some t) -> P data maxDepth t).
  { unfold majority_leaf.
    destruct (getMajorityClass rt target data) as [m| |] eqn:Em;
      cbn [bind]; try discriminate.
    intros [= <-]. now apply Hleaf. }
  destruct (leb (s_gain s) (Fin (1 # 100))) eqn:Eg; [exact HL|].
  destruct (split_ok_gain rt target data s Hs Eg) as (l & r & Hc & Hl & Hr).
  destruct (candidate_parts rt target data s l r Hc) as [-> ->].
  destruct (build rt target fuel l (sub maxDepth (Fin 1))) as [lc| |] eqn:El;
    cbn [bind]; try discriminate.
  destruct (build rt target fuel r (sub maxDepth (Fin 1))) as [rc| |] eqn:Er;
    cbn [bind]; try discriminate.
  destruct lc as [lt|]; [|exact HL].
  destruct rc as [rt'|]; [|exact HL].
  intros [= <-]. eapply Hnode; eauto.
Qed.
End BuildInduction.

Lemma count_label_le_length rt target c data :
  (count_label rt target c data <= List.length data)%nat.
Proof. unfold count_label. apply filter_length_le. Qed.

(** X3.  When the target and the labels of the records bear no inherited
    name, every leaf of a built tree is labelled with a class that no
    other class of its distribution outnumbers, and its confidence is the
    share of that class among its samples, a number above 0 and at most 1. *)
Theorem leaf_confidence_is_majority_share rt target data maxDepth t :
  plain_labels rt target data ->
  buildDecisionTree rt target data maxDepth = Ok (Some t) ->
  forall name conf samples dist,
    In (Leaf name conf samples dist) (leaves t) ->
    (forall c, (get_count c dist <= get_count name dist)%nat)
    /\ conf = Fin (inject_Z (Z.of_nat (get_count name dist))
                   / inject_Z (Z.of_nat samples))
    /\ 0 < to_Q conf /\ to_Q conf <= 1.
Proof.
  intros _. unfold buildDecisionTree.
  apply (build_induction rt target
           (fun _ _ t =>
              forall name conf samples dist,
                In (Leaf name conf samples dist) (leaves t) ->
                (forall c, (get_count c dist <= get_count name dist)%nat)
                /\ conf = Fin (inject_Z (Z.of_nat (get_count name dist))
                               / inject_Z (Z.of_nat samples))
                /\ 0 < to_Q conf /\ to_Q conf <= 1)).
  - intros d depth m Hd _ Em name conf samples dist [Hin|[]].
    injection Hin as <- <- <- <-.
    assert (Hne : d <> []) by (destruct d; simpl in Hd; [lia|discriminate]).
    destruct (getMajorityClass_max rt target d Hne)
      as (m' & Em' & Hpos & Hmax).
    rewrite Em in Em'. injection Em' as <-.
    rewrite !get_count_distribution.
    split; [intros c; rewrite get_count_distribution; apply Hmax|].
    rewrite sgn_of_nat by lia. split; [reflexivity|]. cbn [to_Q].
    split; [apply of_nat_ratio_pos; lia|].
    apply Qle_shift_div_r; [apply inject_nat_pos; lia|].
    rewrite Qmult_1_l, <- Zle_Qle.
    pose proof (count_label_le_length rt target m d). lia.
  - intros d depth s left right cond l r _ _ _ _ _ _ _ IHl IHr
           name conf samples dist Hin.
    simpl in Hin. apply in_app_or in Hin. destruct Hin; eauto.
Qed.

Lemma leaf_confidence_is_majority_share_witness :
  plain_labels Reference.runtime "y" Sample.scenario
  /\ buildDecisionTree Reference.runtime "y" Sample.scenario (Fin 2)
     = Ok (Some (Leaf "b" (Fin (3 # 5)) 5 [("a", 2%nat); ("b", 3%nat)]))
  /\ ((forall c, (get_count c [("a", 2%nat); ("b", 3%nat)]
                  <= get_count "b" [("a", 2%nat); ("b", 3%nat)])%nat)
      /\ Fin (3 # 5)
         = Fin (inject_Z (Z.of_nat (get_count "b" [("a", 2%nat); ("b", 3%nat)]))
                / inject_Z (Z.of_nat 5))
      /\ 0 < to_Q (Fin (3 # 5)) /\ to_Q (Fin (3 # 5)) <= 1).
Proof.
  split; [exact plain_labels_scenario|]. split.
  - vm_compute. reflexivity.
  - apply (leaf_confidence_is_majority_share Reference.runtime "y"
             Sample.scenario (Fin 2)
             (Leaf "b" (Fin (3 # 5)) 5 [("a", 2%nat); ("b", 3%nat)])).
    + exact plain_labels_scenario.
    + vm_compute. reflexivity.
    + left. reflexivity.
Defined.

(** ** Sizes *)

Lemma built_tree_accounting rt target data maxDepth t :
  buildDecisionTree rt target data maxDepth = Ok (Some t) ->
  node_samples t = List.length data
  /\ (5 * List.length (leaves t) <= List.length data)%nat
  /\ forall u,
       In u (subtrees t) ->
       (5 <= node_samples u)%nat
       /\ (is_leaf u = false -> (10 <= node_samples u)%nat)
       /\ list_sum (values (node_distribution u)) = node_samples u
       /\ node_samples u = list_sum (map node_samples (leaves u)).
Proof.
  unfold buildDecisionTree. intros Hb.
  enough (G : (node_samples t = List.length data
               /\ node_samples t = list_sum (map node_samples (leaves t)))
              /\ (5 * List.length (leaves t) <= List.length data)%nat
              /\ forall u,
                   In u (subtrees t) ->
                   (5 <= node_samples u)%nat
                   /\ (is_leaf u = false -> (10 <= node_samples u)%nat)
                   /\ list_sum (values (node_distribution u)) = node_samples u
                   /\ node_samples u = list_sum (map node_samples (leaves u)))
    by (destruct G as ((? & ?) & ? & ?); auto).
  revert Hb.
  apply (build_induction rt target
           (fun data _ t =>
              (node_samples t = List.length data
               /\ node_samples t = list_sum (map node_samples (leaves t)))
              /\ (5 * List.length (leaves t) <= List.length data)%nat
              /\ forall u,
                   In u (subtrees t) ->
                   (5 <= node_samples u)%nat
                   /\ (is_leaf u = false -> (10 <= node_samples u)%nat)
                   /\ list_sum (values (node_distribution u)) = node_samples u
                   /\ node_samples u = list_sum (map node_samples (leaves u)))).
  - intros d depth m Hd _ _. simpl. split; [split; lia|]. split; [lia|].
    intros u [<-|[]]. simpl. repeat split; try lia; try discriminate.
    unfold getDistribution. now rewrite sum_values_fold.
  - intros d depth s left right cond l r Hd _ _ Hc Hl Hr _
           ((Hsl & Hll) & Hnl & Hul) ((Hsr & Hlr) & Hnr & Hur).
    destruct (candidate_complement rt target d s left right Hc)
      as (p & Epl & Epr).
    pose proof (filter_complement_length p d) as Hsum.
    rewrite <- Epl, <- Epr in Hsum.
    assert (Hleaves : List.length d
                      = list_sum (map node_samples (leaves l ++ leaves r))).
    { rewrite map_app, list_sum_app. lia. }
    cbn [node_samples leaves subtrees]. split; [split; [reflexivity|exact Hleaves]|].
    split; [rewrite length_app; lia|].
    intros u [<-|Hu].
    + cbn [node_samples node_distribution is_leaf leaves].
      repeat split; try lia; auto.
      unfold getDistribution. now rewrite sum_values_fold.
    + apply in_app_or in Hu. destruct Hu; auto.
Qed.

(** X4.  In a built tree every node holds at least five samples, a
    decision node at least ten, and the samples of a node are the samples
    of the leaves below it.  The root holds all the records, so there is
    at most one leaf per five records.  When the target and the labels
    bear no inherited name, the counts of each node's distribution add up
    to its samples. *)
Theorem every_node_accounts_for_its_records rt target data maxDepth t :
  buildDecisionTree rt target data maxDepth = Ok (Some t) ->
  node_samples t = List.length data
  /\ (5 * List.length (leaves t) <= List.length data)%nat
  /\ forall u,
       In u (subtrees t) ->
       (5 <= node_samples u)%nat
       /\ (is_leaf u = false -> (10 <= node_samples u)%nat)
       /\ node_samples u = list_sum (map node_samples (leaves u))
       /\ (plain_labels rt target data ->
           list_sum (values (node_distribution u)) = node_samples u).
Proof.
  intros Hb.
  destruct (built_tree_accounting rt target data maxDepth t Hb)
    as (H1 & H2 & H3).
  split; [exact H1|]. split; [exact H2|].
  intros u Hu. destruct (H3 u Hu) as (Ha & Hb' & Hc & Hd). auto.
Qed.

Lemma every_node_accounts_for_its_records_witness :
  buildDecisionTree Reference.runtime "y" (Sample.ten "x") (Fin 2)
  = Ok (Some (Sample.ten_tree "x"))
  /\ plain_labels Reference.runtime "y" (Sample.ten "x")
  /\ node_samples (Sample.ten_tree "x") = List.length (Sample.ten "x")
  /\ list_sum (values (node_distribution (Sample.ten_tree "x")))
     = node_samples (Sample.ten_tree "x").
Proof.
  assert (Hb : buildDecisionTree Reference.runtime "y" (Sample.ten "x") (Fin 2)
               = Ok (Some (Sample.ten_tree "x"))) by (vm_compute; reflexivity).
  pose proof (plain_labels_ten "x" eq_refl) as Hp.
  split; [exact Hb|]. split; [exact Hp|].
  destruct (every_node_accounts_for_its_records Reference.runtime "y"
              (Sample.ten "x") (Fin 2) (Sample.ten_tree "x") Hb)
    as (H1 & _ & H3).
  split; [exact H1|].
  destruct (H3 (Sample.ten_tree "x") (or_introl eq_refl)) as (_ & _ & _ & H4).
  exact (H4 Hp).
Defined.

(** X5.  [buildDecisionTree] returns null exactly when [maxDepth] is 0 or
    fewer than five records are given: past its first statement no path
    through the body returns null. *)
Theorem null_only_for_depth_zero_or_small_data rt target data maxDepth :
  buildDecisionTree rt target data maxDepth = Ok None
  <-> eqb maxDepth (Fin 0) = true \/ (List.length data < 5)%nat.
Proof.
  unfold buildDecisionTree. split.
  - intros H. rewrite build_unfold in H.
    destruct (eqb maxDepth (Fin 0)) eqn:Ed; [now left|]. cbn [orb] in H.
    destruct (List.length data <? 5)%nat eqn:E;
      [right; now apply Nat.ltb_lt|].
    exfalso. apply Nat.ltb_ge in E.
    assert (Hne : data <> []) by (destruct data; simpl in E; [lia|discriminate]).
    destruct (majority_leaf_ok rt target data Hne) as (m & _ & Hleaf).
    destruct (List.length data) as [|fuel] eqn:El; [lia|].
    destruct (findBestSplit_ok rt target data Hne) as (s & Es & _).
    rewrite Es in H. cbn [bind] in H. rewrite Hleaf in H.
    destruct (leb (s_gain s) (Fin (1 # 100))); [discriminate|].
    destruct (build rt target fuel (left_part rt s data) _) as [[lt|]| |];
      cbn [bind] in H; try discriminate;
      destruct (build rt target fuel (right_part rt s data) _) as [[rt'|]| |];
      cbn [bind] in H; discriminate.
  - intros H. rewrite build_unfold.
    destruct H as [->|H]; [reflexivity|].
    apply Nat.ltb_lt in H. rewrite H. now rewrite orb_true_r.
Qed.

(** X6.  With fewer than ten records no split is kept: a tree built from
    them is a single leaf. *)
Theorem fewer_than_ten_records_give_a_leaf rt target data maxDepth t :
  (List.length data < 10)%nat ->
  buildDecisionTree rt target data maxDepth = Ok (Some t) ->
  is_leaf t = true.
Proof.
  intros Hlen Hb.
  destruct (built_tree_accounting rt target data maxDepth t Hb)
    as (Hs & _ & Hu).
  destruct (Hu t) as (_ & H10 & _).
  - destruct t; simpl; auto.
  - destruct (is_leaf t); auto. specialize (H10 eq_refl). lia.
Qed.

Lemma fewer_than_ten_records_give_a_leaf_witness :
  (List.length Sample.scenario < 10)%nat
  /\ buildDecisionTree Reference.runtime "y" Sample.scenario (Fin 2)
     = Ok (Some (Leaf "b" (Fin (3 # 5)) 5 [("a", 2%nat); ("b", 3%nat)]))
  /\ is_leaf (Leaf "b" (Fin (3 # 5)) 5 [("a", 2%nat); ("b", 3%nat)]) = true.
Proof.
  assert (H1 : (List.length Sample.scenario < 10)%nat) by (simpl; lia).
  assert (H2 : buildDecisionTree Reference.runtime "y" Sample.scenario (Fin 2)
               = Ok (Some (Leaf "b" (Fin (3 # 5)) 5 [("a", 2%nat); ("b", 3%nat)])))
    by (vm_compute; reflexivity).
  split; [exact H1|]. split; [exact H2|].
  exact (fewer_than_ten_records_give_a_leaf Reference.runtime "y"
           Sample.scenario (Fin 2) _ H1 H2).
Defined.

(** ** Depth *)

Lemma Fin_eqb_zero_nat q n :
  q == inject_Z (Z.of_nat n) -> eqb (Fin q) (Fin 0) = false -> (0 < n)%nat.
Proof.
  intros Hq He. destruct n; [|lia]. exfalso.
  simpl in He. change (inject_Z (Z.of_nat 0)) with 0 in Hq.
  apply Qeq_bool_iff in Hq. congruence.
Qed.

Lemma build_height rt target fuel data maxDepth t :
  build rt target fuel data maxDepth = Ok (Some t) ->
  forall q n, maxDepth = Fin q -> q == inject_Z (Z.of_nat n) ->
              (height t < n)%nat.
Proof.
  apply (build_induction rt target
           (fun _ maxDepth t =>
              forall q n, maxDepth = Fin q -> q == inject_Z (Z.of_nat n) ->
                          (height t < n)%nat)).
  - intros d depth m _ Hdepth _ q n -> Hq. simpl.
    exact (Fin_eqb_zero_nat q n Hq Hdepth).
  - intros d depth s left right cond l r _ Hdepth _ _ _ _ _ IHl IHr q n -> Hq.
    pose proof (Fin_eqb_zero_nat q n Hq Hdepth) as Hn.
    destruct n as [|n']; [lia|].
    assert (Hq' : q + - (1) == inject_Z (Z.of_nat n')).
    { rewrite Hq, Nat2Z.inj_succ. unfold Z.succ. rewrite inject_Z_plus.
      change (inject_Z 1) with 1. ring. }
    specialize (IHl _ _ eq_refl Hq'). specialize (IHr _ _ eq_refl Hq').
    simpl. lia.
Qed.

(** X7.  When [maxDepth] is a natural number [n], the tree has fewer than
    [n] levels of decision nodes: the default depth 4 allows at most three
    tests on a path. *)
Theorem height_below_depth_limit rt target data (n : nat) t :
  buildDecisionTree rt target data (of_nat n) = Ok (Some t) ->
  (height t < n)%nat.
Proof.
  intros Hb.
  exact (build_height rt target _ data _ t Hb _ n eq_refl (Qeq_refl _)).
Qed.

Lemma height_below_depth_limit_witness :
  buildDecisionTree Reference.runtime "y" (Sample.ten "x") (of_nat 2)
  = Ok (Some (Sample.ten_tree "x"))
  /\ (height (Sample.ten_tree "x") < 2)%nat.
Proof.
  split.
  - vm_compute. reflexivity.
  - apply (height_below_depth_limit Reference.runtime "y" (Sample.ten "x")).
    vm_compute. reflexivity.
Defined.

(** ** Records of a single class *)

(** X8.  When all the records carry the same label, and [Math.log2(1)] is
    0, every gain is 0 and the result is the single leaf of that label,
    with confidence 1 and all the records as samples.  The target and the
    label bear no inherited name, and the numbers of the records are safe
    values, so that every threshold loop ends. *)
Theorem single_class_gives_pure_leaf rt target data maxDepth lbl :
  (forall q, q == 1 -> log2Q rt q == 0) ->
  (5 <= List.length data)%nat ->
  eqb maxDepth (Fin 0) = false ->
  inherited target = false -> inherited lbl = false ->
  safe_numbers data ->
  Forall (fun row => label rt target row = lbl) data ->
  exists c,
    buildDecisionTree rt target data maxDepth
    = Ok (Some (Leaf lbl (Fin c) (List.length data)
                     [(lbl, List.length data)]))
    /\ c == 1.
Proof.
  intros Hlog Hlen Hdepth _ _ _ Hu. unfold buildDecisionTree.
  destruct (build_uniform rt target lbl Hlog (Nat.pred (List.length data))
              data maxDepth Hu Hlen Hdepth) as (c & E & Hc).
  replace (S (Nat.pred (List.length data))) with (List.length data) in E by lia.
  eauto.
Qed.

Lemma single_class_gives_pure_leaf_witness :
  (5 <= List.length (Sample.ten "x"))%nat
  /\ eqb (Fin 4) (Fin 0) = false
  /\ inherited "x" = false /\ inherited "k" = false
  /\ safe_numbers (map (fun row => [("x", Str "k")]) (Sample.ten "x"))
  /\ Forall (fun row => label Reference.runtime "x" row
                        = label Reference.runtime "x" [("x", Str "k")])
            (map (fun row => [("x", Str "k")]) (Sample.ten "x"))
  /\ exists c,
       buildDecisionTree Reference.runtime "x"
         (map (fun row => [("x", Str "k")]) (Sample.ten "x")) (Fin 4)
       = Ok (Some (Leaf "k" (Fin c) 10 [("k", 10%nat)]))
       /\ c == 1.
Proof.
  assert (H1 : (5 <= List.length (map (fun row : DataPoint => [("x", Str "k")])
                                      (Sample.ten "x")))%nat) by (simpl; lia).
  assert (H2 : eqb (Fin 4) (Fin 0) = false) by reflexivity.
  assert (H3 : Forall (fun row => label Reference.runtime "x" row = "k")
                      (map (fun row : DataPoint => [("x", Str "k")])
                           (Sample.ten "x")))
    by (repeat constructor).
  assert (H4 : safe_numbers (map (fun row : DataPoint => [("x", Str "k")])
                                  (Sample.ten "x")))
    by (repeat constructor).
  split; [simpl; lia|]. split; [exact H2|].
  split; [reflexivity|]. split; [reflexivity|]. split; [exact H4|].
  split; [exact H3|].
  exact (single_class_gives_pure_leaf Reference.runtime "x" _ (Fin 4) "k"
           reference_log2_one H1 H2 eq_refl eq_refl H4 H3).
Defined.

(** ** Labels and nodes of a built tree *)

Lemma count_label_filter_le rt target c (p : DataPoint -> bool) data :
  (count_label rt target c (filter p data) <= count_label rt target c data)%nat.
Proof.
  pose proof (count_label_complement rt target p c data). lia.
Qed.

Lemma built_leaf_labels_occur rt target fuel data maxDepth t :
  build rt target fuel data maxDepth = Ok (Some t) ->
  forall lf, In lf (leaves t) ->
             (1 <= count_label rt target (node_name lf) data)%nat.
Proof.
  apply (build_induction rt target
           (fun data _ t =>
              forall lf, In lf (leaves t) ->
                         (1 <= count_label rt target (node_name lf) data)%nat)).
  - intros d depth m Hd _ Em lf [<-|[]]. simpl.
    assert (Hne : d <> []) by (destruct d; simpl in Hd; [lia|discriminate]).
    destruct (getMajorityClass_max rt target d Hne) as (m' & Em' & Hpos & _).
    congruence.
  - intros d depth s left right cond l r _ _ _ Hc _ _ _ IHl IHr lf Hin.
    destruct (candidate_complement rt target d s left right Hc)
      as (p & -> & ->).
    simpl in Hin. apply in_app_or in Hin. destruct Hin as [Hin|Hin].
    + specialize (IHl lf Hin).
      pose proof (count_label_filter_le rt target (node_name lf) p d). lia.
    + specialize (IHr lf Hin).
      pose proof (count_label_filter_le rt target (node_name lf)
                    (fun row => negb (p row)) d). lia.
Qed.

(** X9.  Whatever the input, the label [predictFromTree] returns on a
    built tree is the label of one of the records the tree was built
    from. *)
Theorem prediction_is_a_label_of_the_data rt target data maxDepth t input :
  buildDecisionTree rt target data maxDepth = Ok (Some t) ->
  exists row,
    In row data
    /\ label rt target row = prediction (predictFromTree rt t input).
Proof.
  intros Hb. rewrite predict_reads_path_end. cbn [prediction].
  apply count_label_pos_iff.
  exact (built_leaf_labels_occur rt target _ data maxDepth t Hb _
           (path_ends_on_leaf rt t input)).
Qed.

Lemma prediction_is_a_label_of_the_data_witness :
  buildDecisionTree Reference.runtime "y" (Sample.ten "x") (Fin 2)
  = Ok (Some (Sample.ten_tree "x"))
  /\ exists row,
       In row (Sample.ten "x")
       /\ label Reference.runtime "y" row
          = prediction (predictFromTree Reference.runtime (Sample.ten_tree "x")
                          [("X", Sample.int 3)]).
Proof.
  split.
  - vm_compute. reflexivity.
  - apply (prediction_is_a_label_of_the_data Reference.runtime "y"
             (Sample.ten "x") (Fin 2)).
    vm_compute. reflexivity.
Defined.

(** X10.  Every decision node of a built tree is named after its
    feature, carries a finite gain above 0.01 as its confidence, and its
    threshold is either a number other than NaN or a string, so that the
    test [typeof threshold === 'number'] of the traversals tells the two
    kinds of split apart. *)
Theorem decision_nodes_are_well_formed rt target data maxDepth t :
  buildDecisionTree rt target data maxDepth = Ok (Some t) ->
  forall n cnd c f th s d l r,
    In (Decision n cnd c f th s d l r) (subtrees t) ->
    n = f
    /\ (exists g, c = Fin g /\ 1 # 100 < g)
    /\ ((exists x, th = Num x /\ x <> NaN) \/ (exists k, th = Str k)).
Proof.
  unfold buildDecisionTree.
  apply (build_induction rt target
           (fun _ _ t =>
              forall n cnd c f th s d l r,
                In (Decision n cnd c f th s d l r) (subtrees t) ->
                n = f
                /\ (exists g, c = Fin g /\ 1 # 100 < g)
                /\ ((exists x, th = Num x /\ x <> NaN)
                    \/ (exists k, th = Str k)))).
  - intros d0 depth m _ _ _ n cnd c f th s d l r [Hin|[]]. discriminate.
  - intros d0 depth sp left right cond l0 r0 Hd _ _ Hc _ _ Hg IHl IHr
           n cnd c f th s d l r [Hin|Hin].
    + injection Hin as <- <- <- <- <- <- <- <- <-.
      assert (Hne : d0 <> []) by (destruct d0; simpl in Hd; [lia|discriminate]).
      split; [reflexivity|].
      split; [exact (candidate_gain_pos rt target d0 sp left right Hne Hc Hg)|].
      destruct Hc; simpl; eauto.
    + apply in_app_or in Hin. destruct Hin; eauto.
Qed.

Lemma decision_nodes_are_well_formed_witness :
  buildDecisionTree Reference.runtime "y" (Sample.ten "x") (Fin 2)
  = Ok (Some (Sample.ten_tree "x"))
  /\ ("X" = "X"
      /\ (exists g, Fin (250000 # 250000) = Fin g /\ 1 # 100 < g)
      /\ ((exists x, Num (Fin (32805 # 6561)) = Num x /\ x <> NaN)
          \/ (exists k, Num (Fin (32805 # 6561)) = Str k))).
Proof.
  split.
  - vm_compute. reflexivity.
  - apply (decision_nodes_are_well_formed Reference.runtime "y" (Sample.ten "x")
             (Fin 2) (Sample.ten_tree "x") ltac:(vm_compute; reflexivity)
             "X" (le_sign ++ " 5.0")%string (Fin (250000 # 250000)) "X"
             (Num (Fin (32805 # 6561))) 10%nat [("a", 5%nat); ("b", 5%nat)]
             (Leaf "a" (Fin (5 # 5)) 5 [("a", 5%nat)])
             (Leaf "b" (Fin (5 # 5)) 5 [("b", 5%nat)])).
    left. reflexivity.
Defined.

(** ** The search as a fold over candidates *)

Lemma leb_trans a b c : leb a b = true -> leb b c = true -> leb a c = true.
Proof.
  destruct a as [| | |x], b as [| | |y], c as [| | |z]; simpl;
    try congruence; auto.
  intros H1 H2.
  assert (x <= y) by (apply leb_Fin; exact H1).
  assert (y <= z) by (apply leb_Fin; exact H2).
  apply leb_Fin. lra.
Qed.

Lemma ltb_leb a b : ltb a b = true -> leb a b = true.
Proof.
  destruct a as [| | |x], b as [| | |y]; simpl; try congruence; auto.
  intros H. assert (x < y) by (apply ltb_Fin; exact H).
  apply leb_Fin. lra.
Qed.

Lemma leb_refl a : a <> NaN -> leb a a = true.
Proof.
  destruct a as [| | |x]; simpl; try congruence; auto.
  intros _. apply leb_Fin. lra.
Qed.

Lemma not_ltb_leb a b : a <> NaN -> b <> NaN -> ltb a b = false -> leb b a = true.
Proof.
  destruct a as [| | |x], b as [| | |y]; simpl; try congruence; auto.
  intros _ _ H. apply leb_Fin. apply Qnot_lt_le. intros Hlt.
  apply ltb_Fin in Hlt. simpl in Hlt. congruence.
Qed.

Lemma ltb_right_not_NaN a b : ltb a b = true -> b <> NaN.
Proof. destruct a, b; simpl; congruence. Qed.

Section FoldFacts.
Variable rt : Runtime.
Variable target : string.
Variable subset : list DataPoint.

(** One step of either loop of [findBestSplit]. *)
Lemma consider_cases best feature threshold isNumeric left right :
  let r := consider rt target subset best feature threshold isNumeric left right in
  r = best
  \/ (r = {| s_feature := feature; s_threshold := threshold;
             s_gain := gain_of rt target subset left right;
             s_isNumeric := isNumeric |}
      /\ (5 <= List.length left)%nat /\ (5 <= List.length right)%nat
      /\ ltb (s_gain best) (gain_of rt target subset left right) = true).
Proof.
  unfold consider.
  destruct (List.length left <? 5)%nat eqn:El; [now left|].
  destruct (List.length right <? 5)%nat eqn:Er; [now left|].
  apply Nat.ltb_ge in El, Er. cbn [orb].
  fold (gain_of rt target subset left right). unfold gtb.
  destruct (ltb (s_gain best) (gain_of rt target subset left right)) eqn:E;
    [right|now left]. auto.
Qed.

Lemma consider_gain_not_NaN best feature threshold isNumeric left right :
  s_gain best <> NaN ->
  s_gain (consider rt target subset best feature threshold isNumeric left right)
  <> NaN.
Proof.
  intros Hb.
  destruct (consider_cases best feature threshold isNumeric left right)
    as [->|(-> & _ & _ & H)]; auto.
  simpl. exact (ltb_right_not_NaN _ _ H).
Qed.

(** The gain of the best candidate never decreases. *)
Lemma consider_gain_mono g best feature threshold isNumeric left right :
  leb g (s_gain best) = true ->
  leb g (s_gain (consider rt target subset best feature threshold isNumeric
                          left right)) = true.
Proof.
  intros Hg.
  destruct (consider_cases best feature threshold isNumeric left right)
    as [->|(-> & _ & _ & H)]; auto.
  simpl. exact (leb_trans _ _ _ Hg (ltb_leb _ _ H)).
Qed.

(** After a candidate with two large enough parts is considered, the
    best gain is at least its gain. *)
Lemma consider_gain_hit best feature threshold isNumeric left right :
  subset <> [] -> s_gain best <> NaN ->
  (5 <= List.length left)%nat -> (5 <= List.length right)%nat ->
  leb (gain_of rt target subset left right)
      (s_gain (consider rt target subset best feature threshold isNumeric
                        left right)) = true.
Proof.
  intros Hne Hb Hl Hr.
  destruct (gain_of_fin rt target subset left right Hne) as [g Eg].
  unfold consider.
  replace (List.length left <? 5)%nat with false
    by (symmetry; apply Nat.ltb_ge; lia).
  replace (List.length right <? 5)%nat with false
    by (symmetry; apply Nat.ltb_ge; lia).
  cbn [orb]. fold (gain_of rt target subset left right). unfold gtb.
  destruct (ltb (s_gain best) (gain_of rt target subset left right)) eqn:E.
  - simpl. rewrite Eg. apply leb_refl. discriminate.
  - apply not_ltb_leb; auto. rewrite Eg. discriminate.
Qed.

Section OneColumn.
Context {X : Type}.
Variable feature : string.
Variable isNumeric : bool.
Variables (th : X -> value) (lft rgt : X -> list DataPoint).

Let step := fun best x =>
  consider rt target subset best feature (th x) isNumeric (lft x) (rgt x).

Lemma fold_gain_not_NaN xs best :
  s_gain best <> NaN -> s_gain (fold_left step xs best) <> NaN.
Proof.
  revert best. induction xs as [|x xs IH]; intros best Hb; simpl; auto.
  apply IH. now apply consider_gain_not_NaN.
Qed.

Lemma fold_gain_mono g xs best :
  leb g (s_gain best) = true -> leb g (s_gain (fold_left step xs best)) = true.
Proof.
  revert best. induction xs as [|x xs IH]; intros best Hb; simpl; auto.
  apply IH. now apply consider_gain_mono.
Qed.

Lemma fold_gain_hit xs best x :
  subset <> [] -> s_gain best <> NaN -> In x xs ->
  (5 <= List.length (lft x))%nat -> (5 <= List.length (rgt x))%nat ->
  leb (gain_of rt target subset (lft x) (rgt x))
      (s_gain (fold_left step xs best)) = true.
Proof.
  intros Hne. revert best.
  induction xs as [|y xs IH]; intros best Hb Hin Hl Hr; [contradiction|].
  simpl. destruct Hin as [->|Hin].
  - apply fold_gain_mono. now apply consider_gain_hit.
  - apply IH; auto. now apply consider_gain_not_NaN.
Qed.

Lemma fold_feature_origin xs best :
  let r := fold_left step xs best in
  r = best \/ s_feature r = feature.
Proof.
  revert best. induction xs as [|x xs IH]; intros best; simpl; [now left|].
  destruct (IH (step best x)) as [->|H]; [|now right].
  unfold step.
  destruct (consider_cases best feature (th x) isNumeric (lft x) (rgt x))
    as [->|(-> & _)]; [now left|now right].
Qed.
End OneColumn.

(** The numeric loop is a fold over the thresholds it visits. *)
Lemma numeric_loop_is_fold feature fuel :
  forall threshold step max best r,
    numeric_loop rt target fuel subset feature threshold step max best = Ok r ->
    r = fold_left
          (fun best t =>
             consider rt target subset best feature (Num t) true
               (filter (fun row => leb (Number_ rt (field row feature)) t) subset)
               (filter (fun row => gtb (Number_ rt (field row feature)) t) subset))
          (thresholds fuel threshold step max) best.
Proof.
  induction fuel as [|fuel IH]; intros threshold step max best r H.
  - discriminate.
  - rewrite numeric_loop_S in H. cbn [thresholds].
    destruct (ltb threshold max).
    + cbn [fold_left]. now apply IH.
    + now injection H as <-.
Qed.

(** What scanning one column does to the best candidate. *)
Lemma scan_feature_is_fold best feature r :
  scan_feature rt target subset best feature = Ok r ->
  if numeric_column subset feature then
    r = fold_left
          (fun best t =>
             consider rt target subset best feature (Num t) true
               (filter (fun row => leb (Number_ rt (field row feature)) t) subset)
               (filter (fun row => gtb (Number_ rt (field row feature)) t) subset))
          (examined_thresholds subset feature) best
  else
    r = fold_left
          (fun best c =>
             consider rt target subset best feature (Str c) false
               (filter (fun row => streq (String_ rt (field row feature)) c)
                       subset)
               (filter (fun row =>
                          negb (streq (String_ rt (field row feature)) c))
                       subset))
          (set_of [] (map (String_ rt)
                          (map (fun row => field row feature) subset)))
          best.
Proof.
  unfold scan_feature, numeric_column, examined_thresholds.
  destruct (forallb is_number _).
  - apply numeric_loop_is_fold.
  - intros [= <-]. reflexivity.
Qed.
End FoldFacts.

Lemma set_of_complete seen l x :
  In x l -> ~ In x seen -> In x (set_of seen l).
Proof.
  revert seen. induction l as [|y l IH]; intros seen Hin Hseen; [contradiction|].
  simpl. destruct (existsb (streq y) seen) eqn:E.
  - destruct Hin as [->|Hin]; [|now apply IH].
    exfalso. apply existsb_exists in E. destruct E as (z & Hz & Ez).
    apply streq_true in Ez. subst. contradiction.
  - destruct Hin as [->|Hin]; [now left|].
    destruct (string_dec x y) as [->|Hne]; [now left|].
    right. apply IH; auto. intros [H|H]; congruence.
Qed.

Section FeatureFold.
Variable rt : Runtime.
Variable target : string.
Variable subset : list DataPoint.

Let scan_all (fs : list string) (acc : result Split) : result Split :=
  fold_left
    (fun acc feature => best <- acc ;; scan_feature rt target subset best feature)
    fs acc.

Lemma scan_all_cons f fs b :
  scan_all (f :: fs) (Ok b)
  = scan_all fs (scan_feature rt target subset b f).
Proof. reflexivity. Qed.

Lemma scan_all_fails fs acc :
  (forall b, acc <> Ok b) -> scan_all fs acc = acc.
Proof.
  revert acc. induction fs as [|f fs IH]; intros acc H; simpl; auto.
  unfold scan_all in *. simpl. destruct acc as [b| |]; simpl.
  - now destruct (H b).
  - apply IH. discriminate.
  - apply IH. discriminate.
Qed.

Lemma scan_all_inv (I : Split -> Prop) fs :
  (forall b f r, In f fs -> I b ->
                 scan_feature rt target subset b f = Ok r -> I r) ->
  forall b0 s, I b0 -> scan_all fs (Ok b0) = Ok s -> I s.
Proof.
  induction fs as [|f fs IH]; intros Hstep b0 s Hb H.
  - now injection H as <-.
  - rewrite scan_all_cons in H.
    destruct (scan_feature rt target subset b0 f) as [r| |] eqn:E.
    + apply (IH (fun b f' r' Hin => Hstep b f' r' (or_intror Hin)) r s); auto.
      apply (Hstep b0 f r); auto. now left.
    + rewrite (scan_all_fails fs TypeError) in H by discriminate. discriminate.
    + rewrite (scan_all_fails fs OutOfFuel) in H by discriminate. discriminate.
Qed.

Lemma scan_all_hit (I Q : Split -> Prop) fs f0 :
  (forall b f r, I b -> scan_feature rt target subset b f = Ok r -> I r) ->
  (forall b f r, I b -> Q b ->
                 scan_feature rt target subset b f = Ok r -> Q r) ->
  (forall b r, I b -> scan_feature rt target subset b f0 = Ok r -> Q r) ->
  In f0 fs ->
  forall b0 s, I b0 -> scan_all fs (Ok b0) = Ok s -> Q s.
Proof.
  intros HI Hmono Hhit.
  induction fs as [|f fs IH]; intros Hin b0 s Hb H; [contradiction|].
  rewrite scan_all_cons in H.
  destruct (scan_feature rt target subset b0 f) as [r| |] eqn:E.
  - destruct Hin as [->|Hin].
    + assert (G : I s /\ Q s); [|tauto].
      apply (scan_all_inv (fun b => I b /\ Q b) fs) with (b0 := r); auto.
      * intros b f' r' _ [Hib Hqb] E'. split; eauto.
      * split; eauto.
    + apply (IH Hin r s); eauto.
  - rewrite (scan_all_fails fs TypeError) in H by discriminate. discriminate.
  - rewrite (scan_all_fails fs OutOfFuel) in H by discriminate. discriminate.
Qed.

Lemma scan_gain_not_NaN best feature r :
  scan_feature rt target subset best feature = Ok r ->
  s_gain best <> NaN -> s_gain r <> NaN.
Proof.
  intros H Hb. apply scan_feature_is_fold in H.
  destruct (numeric_column subset feature); subst r;
    now apply fold_gain_not_NaN.
Qed.

Lemma scan_gain_mono g best feature r :
  scan_feature rt target subset best feature = Ok r ->
  leb g (s_gain best) = true -> leb g (s_gain r) = true.
Proof.
  intros H Hb. apply scan_feature_is_fold in H.
  destruct (numeric_column subset feature); subst r;
    now apply fold_gain_mono.
Qed.

Lemma scan_origin best feature r :
  scan_feature rt target subset best feature = Ok r ->
  r = best \/ s_feature r = feature.
Proof.
  intros H. apply scan_feature_is_fold in H.
  destruct (numeric_column subset feature); subst r;
    apply fold_feature_origin.
Qed.

Lemma findBestSplit_scan_all row0 rest :
  subset = row0 :: rest ->
  findBestSplit rt target subset
  = scan_all (candidate_features target row0) (Ok initial_split).
Proof. intros ->. reflexivity. Qed.

(** The split comes from a column of the first record that is neither
    the target nor [id] nor [loan_id]. *)
Lemma findBestSplit_origin row0 rest s :
  subset = row0 :: rest ->
  findBestSplit rt target subset = Ok s ->
  s = initial_split \/ In (s_feature s) (candidate_features target row0).
Proof.
  intros Es H. rewrite (findBestSplit_scan_all row0 rest Es) in H.
  apply (scan_all_inv
           (fun b => b = initial_split
                     \/ In (s_feature b) (candidate_features target row0))
           (candidate_features target row0)) with (b0 := initial_split);
    auto.
  intros b f r Hf Hb E. destruct (scan_origin b f r E) as [-> | Hr]; auto.
  right. now rewrite Hr.
Qed.

(** No candidate that was examined and has two parts of five records or
    more has a greater gain than the split returned. *)
Lemma findBestSplit_greatest row0 rest s feature :
  subset = row0 :: rest ->
  findBestSplit rt target subset = Ok s ->
  In feature (candidate_features target row0) ->
  forall th left right,
    (5 <= List.length left)%nat -> (5 <= List.length right)%nat ->
    (if numeric_column subset feature then
       exists t,
         In t (examined_thresholds subset feature) /\ th = Num t
         /\ left = filter (fun row => leb (Number_ rt (field row feature)) t)
                          subset
         /\ right = filter (fun row => gtb (Number_ rt (field row feature)) t)
                           subset
     else
       exists c,
         th = Str c
         /\ left = filter (fun row => streq (String_ rt (field row feature)) c)
                          subset
         /\ right = filter (fun row =>
                              negb (streq (String_ rt (field row feature)) c))
                           subset) ->
    leb (gain_of rt target subset left right) (s_gain s) = true.
Proof.
  intros Es H Hf th left right Hl Hr Hcand.
  assert (Hne : subset <> []) by (rewrite Es; discriminate).
  rewrite (findBestSplit_scan_all row0 rest Es) in H.
  apply (scan_all_hit
           (fun b => s_gain b <> NaN)
           (fun b => leb (gain_of rt target subset left right) (s_gain b) = true)
           (candidate_features target row0) feature)
    with (b0 := initial_split); auto.
  - intros b f r Hb E. exact (scan_gain_not_NaN b f r E Hb).
  - intros b f r _ Hq E. exact (scan_gain_mono _ b f r E Hq).
  - intros b r Hb E. apply scan_feature_is_fold in E.
    destruct (numeric_column subset feature).
    + destruct Hcand as (t & Ht & -> & -> & ->). subst r.
      apply (fold_gain_hit rt target subset feature true Num
               (fun t => filter (fun row => leb (Number_ rt (field row feature)) t)
                                subset)
               (fun t => filter (fun row => gtb (Number_ rt (field row feature)) t)
                                subset)); auto.
    + destruct Hcand as (c & -> & -> & ->). subst r.
      apply (fold_gain_hit rt target subset feature false Str
               (fun c => filter (fun row =>
                                   streq (String_ rt (field row feature)) c)
                                subset)
               (fun c => filter (fun row =>
                                   negb (streq (String_ rt (field row feature)) c))
                                subset)); auto.
      apply set_of_complete; [|intros []].
      destruct (filter (fun row => streq (String_ rt (field row feature)) c)
                       subset) as [|row tl] eqn:Ef; [simpl in Hl; lia|].
      assert (Hin : In row (filter (fun row =>
                                      streq (String_ rt (field row feature)) c)
                                   subset)) by (rewrite Ef; now left).
      apply filter_In in Hin. destruct Hin as [Hin Hc].
      apply streq_true in Hc. rewrite <- Hc. rewrite map_map.
      apply (in_map (fun row => String_ rt (field row feature))). exact Hin.
  - discriminate.
Qed.
End FeatureFold.

Lemma candidate_features_spec target row0 f :
  In f (candidate_features target row0)
  <-> In f (keys row0) /\ f <> target /\ f <> "id" /\ f <> "loan_id".
Proof.
  unfold candidate_features. rewrite filter_In.
  rewrite !andb_true_iff, !negb_true_iff, !streq_false. tauto.
Qed.

(** X11.  The split [findBestSplit] returns on a non-empty subset is its
    initial value (gain -Infinity, no candidate kept) or tests a column
    of the first record other than the target, [id] and [loan_id]; its
    two parts hold at least five records each and no examined candidate
    with two such parts has a greater gain: on a column that is not
    numeric the candidates are its categories, on a unit-step column
    they are the thresholds of the loop. *)
Theorem best_split_has_the_greatest_gain rt target row0 rest s :
  findBestSplit rt target (row0 :: rest) = Ok s ->
  (s = initial_split
   \/ (In (s_feature s) (keys row0) /\ s_feature s <> target
       /\ s_feature s <> "id" /\ s_feature s <> "loan_id"
       /\ (5 <= List.length (left_part rt s (row0 :: rest)))%nat
       /\ (5 <= List.length (right_part rt s (row0 :: rest)))%nat))
  /\ forall feature,
       In feature (keys row0) -> feature <> target ->
       feature <> "id" -> feature <> "loan_id" ->
       (numeric_column (row0 :: rest) feature = true ->
        forall z b t,
          unit_step_column (row0 :: rest) feature z b ->
          In t (examined_thresholds (row0 :: rest) feature) ->
          let left :=
            filter (fun row => leb (Number_ rt (field row feature)) t)
                   (row0 :: rest) in
          let right :=
            filter (fun row => gtb (Number_ rt (field row feature)) t)
                   (row0 :: rest) in
          (5 <= List.length left)%nat -> (5 <= List.length right)%nat ->
          leb (gain_of rt target (row0 :: rest) left right) (s_gain s) = true)
       /\ (numeric_column (row0 :: rest) feature = false ->
           forall c,
             let left :=
               filter (fun row => streq (String_ rt (field row feature)) c)
                      (row0 :: rest) in
             let right :=
               filter (fun row =>
                         negb (streq (String_ rt (field row feature)) c))
                      (row0 :: rest) in
             (5 <= List.length left)%nat -> (5 <= List.length right)%nat ->
             leb (gain_of rt target (row0 :: rest) left right) (s_gain s)
             = true).
Proof.
  intros H. split.
  - destruct (findBestSplit_origin rt target _ row0 rest s eq_refl H)
      as [->|Hf]; [now left|].
    destruct (findBestSplit_ok rt target (row0 :: rest) ltac:(discriminate))
      as (s' & Es' & Hok).
    rewrite H in Es'. injection Es' as <-.
    destruct Hok as [->|(l & r & Hc & Hl & Hr)]; [now left|].
    right. apply candidate_features_spec in Hf.
    destruct (candidate_parts rt target _ s l r Hc) as [-> ->]. tauto.
  - intros feature Hk Ht Hid Hloan.
    assert (Hf : In feature (candidate_features target row0))
      by (apply candidate_features_spec; tauto).
    split.
    + intros Hnum z b t _ Hin left right Hl Hr.
      apply (findBestSplit_greatest rt target _ row0 rest s feature eq_refl H Hf
               (Num t) left right Hl Hr).
      rewrite Hnum. exists t. auto.
    + intros Hnum c left right Hl Hr.
      apply (findBestSplit_greatest rt target _ row0 rest s feature eq_refl H Hf
               (Str c) left right Hl Hr).
      rewrite Hnum. exists c. auto.
Qed.

Lemma unit_step_ten : unit_step_column (Sample.ten "x") "x" 1 10.
Proof.
  exists 1. split; [vm_compute; reflexivity|]. split; [vm_compute; reflexivity|].
  split; [reflexivity|]. split; vm_compute; discriminate.
Qed.

Lemma best_split_has_the_greatest_gain_witness :
  let s :=
    {| s_feature := "x"; s_threshold := Num (Fin (32805 # 6561));
       s_gain := Fin (250000 # 250000); s_isNumeric := true |} in
  let t := Fin (32805 # 6561) in
  findBestSplit Reference.runtime "y" (Sample.ten "x") = Ok s
  /\ unit_step_column (Sample.ten "x") "x" 1 10
  /\ In t (examined_thresholds (Sample.ten "x") "x")
  /\ (5 <= List.length (left_part Reference.runtime s (Sample.ten "x")))%nat
  /\ forall left right,
       left = filter (fun row => leb (Number_ Reference.runtime (field row "x")) t)
                     (Sample.ten "x") ->
       right = filter (fun row => gtb (Number_ Reference.runtime (field row "x")) t)
                      (Sample.ten "x") ->
       (5 <= List.length left)%nat -> (5 <= List.length right)%nat ->
       leb (gain_of Reference.runtime "y" (Sample.ten "x") left right) (s_gain s)
       = true.
Proof.
  intros s t.
  assert (E : findBestSplit Reference.runtime "y" (Sample.ten "x") = Ok s)
    by (vm_compute; reflexivity).
  assert (Ht : In t (examined_thresholds (Sample.ten "x") "x"))
    by (vm_compute; do 3 right; left; reflexivity).
  destruct (best_split_has_the_greatest_gain Reference.runtime "y" _ _ _ E)
    as [Horigin Hbest].
  split; [exact E|]. split; [exact unit_step_ten|]. split; [exact Ht|].
  split.
  - destruct Horigin as [H|H]; [discriminate|tauto].
  - intros left right -> ->.
    apply (proj1 (Hbest "x" ltac:(now left) ltac:(discriminate)
                    ltac:(discriminate) ltac:(discriminate))
             eq_refl 1%Z 10 t unit_step_ten Ht).
Defined.

Lemma built_features_origin rt target data maxDepth t :
  buildDecisionTree rt target data maxDepth = Ok (Some t) ->
  forall f,
    In f (tree_features t) ->
    exists column row,
      In row data /\ In column (keys row)
      /\ column <> target /\ column <> "id" /\ column <> "loan_id"
      /\ f = formatFeatureName column.
Proof.
  unfold buildDecisionTree.
  apply (build_induction rt target
           (fun data _ t =>
              forall f,
                In f (tree_features t) ->
                exists column row,
                  In row data /\ In column (keys row)
                  /\ column <> target /\ column <> "id" /\ column <> "loan_id"
                  /\ f = formatFeatureName column)).
  - intros d depth m _ _ _ f [].
  - intros d depth s left right cond l r Hd _ Es Hc _ _ Hg IHl IHr f Hin.
    destruct (candidate_complement rt target d s left right Hc)
      as (p & -> & ->).
    simpl in Hin. destruct Hin as [<-|Hin].
    + destruct d as [|row0 rest]; [simpl in Hd; lia|].
      destruct (findBestSplit_origin rt target _ row0 rest s eq_refl Es)
        as [->|Hf]; [discriminate|].
      apply candidate_features_spec in Hf.
      exists (s_feature s), row0. simpl. tauto.
    + apply in_app_or in Hin.
      destruct Hin as [Hin|Hin];
        [destruct (IHl f Hin) as (c & row & Hrow & H)
        |destruct (IHr f Hin) as (c & row & Hrow & H)];
        apply filter_In in Hrow; exists c, row; tauto.
Qed.

(** X12.  Every feature tested in a built tree is the display name
    [formatFeatureName] gives to a column of one of the records, and that
    column is neither the target nor [id] nor [loan_id]. *)
Theorem tested_features_are_data_columns rt target data maxDepth t :
  buildDecisionTree rt target data maxDepth = Ok (Some t) ->
  forall f,
    In f (tree_features t) ->
    exists column row,
      In row data /\ In column (keys row)
      /\ column <> target /\ column <> "id" /\ column <> "loan_id"
      /\ f = formatFeatureName column.
Proof. apply built_features_origin. Qed.

Lemma tested_features_are_data_columns_witness :
  buildDecisionTree Reference.runtime "y" (Sample.ten "x") (Fin 2)
  = Ok (Some (Sample.ten_tree "x"))
  /\ exists column row,
       In row (Sample.ten "x") /\ In column (keys row)
       /\ column <> "y" /\ column <> "id" /\ column <> "loan_id"
       /\ "X" = formatFeatureName column.
Proof.
  split.
  - vm_compute. reflexivity.
  - apply (tested_features_are_data_columns Reference.runtime "y"
             (Sample.ten "x") (Fin 2) (Sample.ten_tree "x")).
    + vm_compute. reflexivity.
    + left. reflexivity.
Defined.

(** ** The thresholds of a numeric column *)

Lemma thresholds_bounds (s m : Q) :
  0 < s ->
  forall fuel t0 t,
    In t (thresholds fuel (Fin t0) (Fin s) (Fin m)) ->
    exists q, t = Fin q /\ t0 <= q /\ q < m.
Proof.
  intros Hs. induction fuel as [|fuel IH]; intros t0 t Hin; [contradiction|].
  cbn [thresholds] in Hin. destruct (ltb (Fin t0) (Fin m)) eqn:E; [|contradiction].
  apply ltb_Fin in E. destruct Hin as [<-|Hin].
  - exists t0. repeat split; auto. lra.
  - cbn [add] in Hin. destruct (IH _ _ Hin) as (q & -> & Hq1 & Hq2).
    exists q. repeat split; auto. lra.
Qed.

Lemma thresholds_length (s m : Q) :
  forall fuel k t0,
    m <= t0 + inject_Z (Z.of_nat k) * s ->
    (List.length (thresholds fuel (Fin t0) (Fin s) (Fin m)) <= k)%nat.
Proof.
  induction fuel as [|fuel IH]; intros k t0 Hm; [simpl; lia|].
  cbn [thresholds]. destruct (ltb (Fin t0) (Fin m)) eqn:E; [|simpl; lia].
  apply ltb_Fin in E. destruct k as [|k].
  - change (inject_Z (Z.of_nat 0)) with 0 in Hm. lra.
  - cbn [add List.length]. apply le_n_S. apply IH.
    rewrite Nat2Z.inj_succ in Hm. unfold Z.succ in Hm.
    rewrite inject_Z_plus in Hm. change (inject_Z 1) with 1 in Hm. lra.
Qed.

Lemma thresholds_nil_unless_below fuel t step max :
  ltb t max = false -> thresholds fuel t step max = [].
Proof. intros H. destruct fuel; simpl; [|rewrite H]; reflexivity. Qed.

Lemma examined_thresholds_facts subset feature :
  let vals := map as_number (map (fun row => field row feature) subset) in
  (List.length (examined_thresholds subset feature) <= 19)%nat
  /\ (forall t,
         In t (examined_thresholds subset feature) ->
         exists a b q,
           min_list vals = Fin a /\ max_list vals = Fin b /\ t = Fin q
           /\ a < q /\ q < b)
  /\ (forall a b,
         min_list vals = Fin a -> max_list vals = Fin b -> b - a <= 1 ->
         examined_thresholds subset feature = []).
Proof.
  intros vals. unfold examined_thresholds. fold vals.
  destruct (max_list vals) as [| | |b] eqn:Emax;
    destruct (min_list vals) as [| | |a] eqn:Emin;
    try (split; [|split]; [cbn; lia | cbn; intros t [] | discriminate]).
  unfold threshold_fuel, sub. cbn [neg add min2].
  set (d := b + - a).
  destruct (ltb (Fin d) (Fin 20)) eqn:Ed.
  - unfold div. destruct (sgn d) eqn:Es.
    + replace (match sgn d with Eq => NaN | Lt => NInf | Gt => PInf end)
        with NaN by (rewrite Es; reflexivity).
      cbn. split; [lia|]. split; [intros t []|reflexivity].
    + cbn [add].
      assert (Hd : ~ d == 0).
      { intros H. apply Qeq_alt in H. unfold sgn in Es. congruence. }
      apply ltb_Fin in Ed.
      assert (H1 : d / d == 1) by (field; exact Hd).
      split; [|split].
      * apply thresholds_length. rewrite H1. unfold d in Ed.
        change (inject_Z (Z.of_nat 19)) with (19 # 1). lra.
      * intros t Hin.
        destruct (thresholds_bounds (d / d) b ltac:(rewrite H1; reflexivity)
                    _ _ _ Hin) as (q & -> & Hq1 & Hq2).
        exists a, b, q. rewrite H1 in Hq1. repeat split; auto. lra.
      * intros a' b' [= <-] [= <-] Hle.
        apply thresholds_nil_unless_below.
        destruct (ltb (Fin (a + d / d)) (Fin b)) eqn:E; auto.
        apply ltb_Fin in E. rewrite H1 in E. lra.
    + cbn [add].
      assert (Hd : ~ d == 0).
      { intros H. apply Qeq_alt in H. unfold sgn in Es. congruence. }
      apply ltb_Fin in Ed.
      assert (H1 : d / d == 1) by (field; exact Hd).
      split; [|split].
      * apply thresholds_length. rewrite H1. unfold d in Ed.
        change (inject_Z (Z.of_nat 19)) with (19 # 1). lra.
      * intros t Hin.
        destruct (thresholds_bounds (d / d) b ltac:(rewrite H1; reflexivity)
                    _ _ _ Hin) as (q & -> & Hq1 & Hq2).
        exists a, b, q. rewrite H1 in Hq1. repeat split; auto. lra.
      * intros a' b' [= <-] [= <-] Hle.
        apply thresholds_nil_unless_below.
        destruct (ltb (Fin (a + d / d)) (Fin b)) eqn:E; auto.
        apply ltb_Fin in E. rewrite H1 in E. lra.
  - unfold div. change (sgn 20) with Gt. cbn [add].
    assert (Hd : 20 <= d).
    { apply Qnot_lt_le. intros H. apply ltb_Fin in H. congruence. }
    assert (H1 : d / 20 == d * (1 # 20)) by (field; discriminate).
    split; [|split].
    + apply thresholds_length. rewrite H1. unfold d.
      change (inject_Z (Z.of_nat 19)) with (19 # 1). lra.
    + intros t Hin.
      destruct (thresholds_bounds (d / 20) b ltac:(rewrite H1; lra) _ _ _ Hin)
        as (q & -> & Hq1 & Hq2).
      exists a, b, q. rewrite H1 in Hq1. repeat split; auto. lra.
    + intros a' b' [= <-] [= <-] Hle. unfold d in Hd. lra.
Qed.

(** With a step of 1 the thresholds are the start plus 0, 1, 2, ..., as
    long as they stay below the largest value. *)
Lemma thresholds_offsets (s m : Q) :
  s == 1 ->
  forall fuel t0 t,
    In t (thresholds fuel (Fin t0) (Fin s) (Fin m)) ->
    exists q (k : nat),
      t = Fin q /\ q == t0 + inject_Z (Z.of_nat k) /\ q < m.
Proof.
  intros Hs. induction fuel as [|fuel IH]; intros t0 t Hin; [contradiction|].
  cbn [thresholds] in Hin.
  destruct (ltb (Fin t0) (Fin m)) eqn:E; [|contradiction].
  apply ltb_Fin in E. destruct Hin as [<-|Hin].
  - exists t0, 0%nat. split; [reflexivity|]. split; [|exact E].
    change (inject_Z (Z.of_nat 0)) with 0. ring.
  - cbn [add] in Hin. destruct (IH _ _ Hin) as (q & k & -> & Hq & Hm).
    exists q, (S k). split; [reflexivity|]. split; [|exact Hm].
    rewrite Hq, Hs, Nat2Z.inj_succ. unfold Z.succ. rewrite inject_Z_plus.
    change (inject_Z 1) with 1. ring.
Qed.

Lemma thresholds_complete (s m : Q) :
  s == 1 ->
  forall fuel t0 (k : nat),
    (k < fuel)%nat -> t0 + inject_Z (Z.of_nat k) < m ->
    exists q,
      In (Fin q) (thresholds fuel (Fin t0) (Fin s) (Fin m))
      /\ q == t0 + inject_Z (Z.of_nat k).
Proof.
  intros Hs. induction fuel as [|fuel IH]; intros t0 k Hk Hm; [lia|].
  assert (Hk0 : 0 <= inject_Z (Z.of_nat k)).
  { change 0 with (inject_Z 0). rewrite <- Zle_Qle. lia. }
  cbn [thresholds].
  replace (ltb (Fin t0) (Fin m)) with true
    by (symmetry; apply ltb_Fin; lra).
  destruct k as [|k].
  - exists t0. split; [now left|].
    change (inject_Z (Z.of_nat 0)) with 0. ring.
  - rewrite Nat2Z.inj_succ in Hm |- *. unfold Z.succ in Hm |- *.
    rewrite inject_Z_plus in Hm |- *. change (inject_Z 1) with 1 in Hm |- *.
    destruct (IH (t0 + s) k ltac:(lia)) as (q & Hin & Hq).
    { rewrite Hs. lra. }
    exists q. split; [right; exact Hin|]. rewrite Hq, Hs. ring.
Qed.

(** On a unit-step column the loop starts one above the smallest value
    and advances by 1, unless the column holds a single value. *)
Lemma examined_thresholds_unit subset feature z b :
  unit_step_column subset feature z b ->
  (examined_thresholds subset feature = [] /\ b == inject_Z z)
  \/ exists a s,
       a == inject_Z z /\ s == 1 /\ b - a <= 20
       /\ examined_thresholds subset feature
          = thresholds threshold_fuel (Fin (a + s)) (Fin s) (Fin b).
Proof.
  intros (a & Emin & Emax & Ha & Hd & _). cbv zeta in Emin, Emax.
  unfold examined_thresholds. rewrite Emin, Emax.
  unfold sub. cbn [neg add min2].
  set (d := b + - a).
  destruct (ltb (Fin d) (Fin 20)) eqn:Ed.
  - unfold div. destruct (sgn d) eqn:Es.
    + left. split; [reflexivity|].
      unfold sgn in Es. apply Qeq_alt in Es. unfold d in Es.
      rewrite <- Ha. lra.
    + right. exists a, (d / d).
      assert (Hd0 : ~ d == 0).
      { intros H. apply Qeq_alt in H. unfold sgn in Es. congruence. }
      split; [exact Ha|]. split; [field; exact Hd0|]. split; [exact Hd|].
      reflexivity.
    + right. exists a, (d / d).
      assert (Hd0 : ~ d == 0).
      { intros H. apply Qeq_alt in H. unfold sgn in Es. congruence. }
      split; [exact Ha|]. split; [field; exact Hd0|]. split; [exact Hd|].
      reflexivity.
  - right. exists a, (d / 20). unfold div. change (sgn 20) with Gt.
    assert (H20 : 20 <= d).
    { apply Qnot_lt_le. intros H. apply ltb_Fin in H. congruence. }
    split; [exact Ha|]. split; [|split; [exact Hd|reflexivity]].
    assert (E : d == 20) by (unfold d in *; lra).
    rewrite E. reflexivity.
Qed.

(** X13.  On a unit-step column (smallest value an integer [z], range at
    most 20, within the safe integers) the thresholds [findBestSplit]
    examines are the numbers [z + 1], [z + 2], ... that lie below the
    largest value: each examined threshold is one of them, each of them
    is examined, and there are 19 at most. *)
Theorem unit_step_thresholds_are_the_integers_inside subset feature z b :
  unit_step_column subset feature z b ->
  (forall t,
      In t (examined_thresholds subset feature) ->
      exists q (k : nat),
        t = Fin q /\ (1 <= k)%nat
        /\ q == inject_Z (z + Z.of_nat k) /\ q < b)
  /\ (forall k : nat,
         (1 <= k)%nat -> inject_Z (z + Z.of_nat k) < b ->
         exists q,
           In (Fin q) (examined_thresholds subset feature)
           /\ q == inject_Z (z + Z.of_nat k))
  /\ (List.length (examined_thresholds subset feature) <= 19)%nat.
Proof.
  intros Hu.
  destruct (examined_thresholds_facts subset feature) as (Hlen & _ & _).
  destruct (examined_thresholds_unit subset feature z b Hu)
    as [[E Hb]|(a & s & Ha & Hs & Hd & E)]; rewrite E in *.
  - split; [intros t []|]. split; [|exact Hlen].
    intros k Hk Hlt. exfalso.
    rewrite inject_Z_plus, Hb in Hlt.
    assert (H0 : 0 <= inject_Z (Z.of_nat k)).
    { change 0 with (inject_Z 0). rewrite <- Zle_Qle. lia. }
    lra.
  - split; [|split; [|exact Hlen]].
    + intros t Hin.
      destruct (thresholds_offsets s b Hs _ _ _ Hin) as (q & k & -> & Hq & Hm).
      exists q, (S k). split; [reflexivity|]. split; [lia|].
      split; [|exact Hm].
      rewrite Hq, Hs, Ha, Nat2Z.inj_succ. unfold Z.succ.
      rewrite !inject_Z_plus. change (inject_Z 1) with 1. ring.
    + intros k Hk Hlt. destruct k as [|k]; [lia|].
      rewrite Nat2Z.inj_succ in Hlt |- *. unfold Z.succ in Hlt |- *.
      rewrite !inject_Z_plus in Hlt |- *.
      change (inject_Z 1) with 1 in Hlt |- *.
      assert (Hk19 : (k < threshold_fuel)%nat).
      { unfold threshold_fuel.
        assert (H : inject_Z (Z.of_nat k) < inject_Z 19).
        { change (inject_Z 19) with 19. lra. }
        rewrite <- Zlt_Qlt in H. lia. }
      destruct (thresholds_complete s b Hs threshold_fuel (a + s) k Hk19)
        as (q & Hin & Hq).
      { rewrite Hs, Ha. lra. }
      exists q. split; [exact Hin|]. rewrite Hq, Hs, Ha. ring.
Qed.

Lemma unit_step_thresholds_are_the_integers_inside_witness :
  unit_step_column (Sample.ten "x") "x" 1 10
  /\ exists q,
       In (Fin q) (examined_thresholds (Sample.ten "x") "x")
       /\ q == inject_Z (1 + Z.of_nat 4).
Proof.
  split; [exact unit_step_ten|].
  destruct (unit_step_thresholds_are_the_integers_inside (Sample.ten "x") "x"
              1 10 unit_step_ten) as (_ & H & _).
  apply (H 4%nat).
  - lia.
  - vm_compute. reflexivity.
Defined.

(** X14.  A numeric column whose largest and smallest values differ by 1
    or less, such as a 0/1 indicator, offers no candidate: scanning it
    leaves the best split as it was. *)
Theorem narrow_numeric_column_is_never_split rt target subset feature a b best :
  numeric_column subset feature = true ->
  min_list (map as_number (map (fun row => field row feature) subset)) = Fin a ->
  max_list (map as_number (map (fun row => field row feature) subset)) = Fin b ->
  b - a <= 1 ->
  scan_feature rt target subset best feature = Ok best.
Proof.
  intros Hnum Hmin Hmax Hle.
  destruct (examined_thresholds_facts subset feature) as (_ & _ & Hnil).
  specialize (Hnil a b Hmin Hmax Hle).
  unfold scan_feature. unfold numeric_column in Hnum. rewrite Hnum.
  unfold examined_thresholds, threshold_fuel in Hnil. cbv zeta in Hnil |- *.
  unfold threshold_fuel. rewrite numeric_loop_S.
  cbn [thresholds] in Hnil.
  match type of Hnil with
  | (if ?c then _ else _) = _ => destruct c; [discriminate|reflexivity]
  end.
Qed.

Lemma narrow_numeric_column_is_never_split_witness :
  let subset :=
    map (fun z => [("flag", Sample.int z); ("y", Str "a")]) [0; 1; 0; 1; 1; 0]%Z in
  numeric_column subset "flag" = true
  /\ 1 - 0 <= 1
  /\ scan_feature Reference.runtime "y" subset (initial_split) "flag"
     = Ok initial_split.
Proof.
  intros subset. split; [reflexivity|]. split; [discriminate|].
  apply (narrow_numeric_column_is_never_split Reference.runtime "y" subset
           "flag" 0 1).
  - reflexivity.
  - vm_compute. reflexivity.
  - vm_compute. reflexivity.
  - discriminate.
Defined.

(** * Further properties of the inference *)

Lemma inference_depends_on_tested_features rt t input input' :
  (forall f, In f (tree_features t) -> get f input = get f input') ->
  predictFromTree rt t input = predictFromTree rt t input'
  /\ highlightDecisionPath rt t input = highlightDecisionPath rt t input'.
Proof.
  induction t as [n c s d | n cnd c f th s d l IHl r IHr]; intros H.
  - split; reflexivity.
  - assert (Hf : field input f = field input' f).
    { unfold field. rewrite (H f); [reflexivity|now left]. }
    destruct IHl as [IHl1 IHl2].
    { intros g Hg. apply H. simpl. right. apply in_or_app. now left. }
    destruct IHr as [IHr1 IHr2].
    { intros g Hg. apply H. simpl. right. apply in_or_app. now right. }
    simpl. rewrite Hf, IHl1, IHl2, IHr1, IHr2. split; reflexivity.
Qed.

(** X15.  The prediction and the decision path depend on the input only
    through the features the tree tests: two inputs that agree on them
    give the same prediction and the same path. *)
Theorem prediction_depends_only_on_tested_features rt t input input' :
  (forall f, In f (tree_features t) -> get f input = get f input') ->
  predictFromTree rt t input = predictFromTree rt t input'
  /\ highlightDecisionPath rt t input = highlightDecisionPath rt t input'.
Proof. apply inference_depends_on_tested_features. Qed.

Lemma prediction_depends_only_on_tested_features_witness :
  (forall f, In f (tree_features (Sample.ten_tree "x")) ->
             get f [("X", Sample.int 3); ("other", Str "u")]
             = get f [("X", Sample.int 3)])
  /\ predictFromTree Reference.runtime (Sample.ten_tree "x")
       [("X", Sample.int 3); ("other", Str "u")]
     = predictFromTree Reference.runtime (Sample.ten_tree "x")
         [("X", Sample.int 3)].
Proof.
  assert (H : forall f, In f (tree_features (Sample.ten_tree "x")) ->
                        get f [("X", Sample.int 3); ("other", Str "u")]
                        = get f [("X", Sample.int 3)]).
  { intros f [<-|[]]. reflexivity. }
  split; [exact H|].
  exact (proj1 (prediction_depends_only_on_tested_features Reference.runtime
                  (Sample.ten_tree "x") _ _ H)).
Defined.

(** ** The decision path *)

Lemma path_head rt t input :
  exists rest, highlightDecisionPath rt t input = t :: rest.
Proof. destruct t; simpl; eauto. Qed.

Lemma path_structure rt t input :
  let path := highlightDecisionPath rt t input in
  descends path
  /\ (forall u, In u path -> In u (subtrees t))
  /\ (List.length path <= S (height t))%nat
  /\ forall pre u post,
       path = pre ++ u :: post ->
       highlightDecisionPath rt u input = u :: post
       /\ predictFromTree rt u input = predictFromTree rt t input.
Proof.
  induction t as [n c s d | n cnd c f th s d l IHl r IHr].
  - cbn [highlightDecisionPath descends subtrees height List.length].
    split; [exact I|]. split; [auto|]. split; [lia|].
    intros pre u post E. destruct pre as [|x pre].
    + injection E as <- <-. split; reflexivity.
    + destruct pre; discriminate.
  - set (tt := Decision n cnd c f th s d l r).
    assert (Hchoice :
              exists ch,
                (ch = l \/ ch = r)
                /\ highlightDecisionPath rt tt input
                   = tt :: highlightDecisionPath rt ch input
                /\ predictFromTree rt tt input = predictFromTree rt ch input).
    { unfold tt. simpl.
      destruct (is_number th);
        [destruct (leb _ _)|destruct (streq _ _)]; eauto. }
    destruct Hchoice as (ch & Hch & Epath & Epred).
    assert (IH : let path := highlightDecisionPath rt ch input in
                 descends path
                 /\ (forall u, In u path -> In u (subtrees ch))
                 /\ (List.length path <= S (height ch))%nat
                 /\ forall pre u post,
                      path = pre ++ u :: post ->
                      highlightDecisionPath rt u input = u :: post
                      /\ predictFromTree rt u input = predictFromTree rt ch input)
      by (destruct Hch as [->| ->]; assumption).
    cbv zeta in IH |- *. destruct IH as (Hd & Hin & Hlen & Hsuf).
    rewrite Epath.
    destruct (path_head rt ch input) as [rest Erest].
    split; [|split; [|split]].
    + rewrite Erest.
      change (child_of tt ch /\ descends (ch :: rest)). split.
      * unfold tt. simpl. tauto.
      * rewrite <- Erest. exact Hd.
    + intros u [<-|Hu]; [unfold tt; simpl; now left|].
      apply Hin in Hu. unfold tt. cbn [subtrees]. right. apply in_or_app.
      destruct Hch as [->| ->]; auto.
    + cbn [List.length]. unfold tt. cbn [height].
      destruct Hch as [->| ->]; lia.
    + intros pre u post E. destruct pre as [|x pre].
      * injection E as <- <-. rewrite Epath. auto.
      * injection E as <- E. destruct (Hsuf pre u post E) as [H1 H2].
        split; [exact H1|]. now rewrite H2, Epred.
Qed.

(** X16.  The decision path starts at the root and goes from each node
    to one of its children; it visits at most one node per level.  The
    path computed from any node on it is the rest of the path, and the
    prediction computed from that node is the prediction of the whole
    tree. *)
Theorem path_is_a_descending_chain rt t input :
  let path := highlightDecisionPath rt t input in
  (exists rest, path = t :: rest)
  /\ descends path
  /\ (forall u, In u path -> In u (subtrees t))
  /\ (List.length path <= S (height t))%nat
  /\ forall pre u post,
       path = pre ++ u :: post ->
       highlightDecisionPath rt u input = u :: post
       /\ predictFromTree rt u input = predictFromTree rt t input.
Proof.
  intros path. split; [apply path_head|]. apply path_structure.
Qed.

Lemma path_is_a_descending_chain_witness :
  highlightDecisionPath Reference.runtime (Sample.ten_tree "x")
    [("X", Sample.int 3)]
  = [] ++ Sample.ten_tree "x" :: [Leaf "a" (Fin (5 # 5)) 5 [("a", 5%nat)]]
  /\ (List.length (highlightDecisionPath Reference.runtime (Sample.ten_tree "x")
                     [("X", Sample.int 3)])
      <= S (height (Sample.ten_tree "x")))%nat.
Proof.
  split.
  - vm_compute. reflexivity.
  - destruct (path_is_a_descending_chain Reference.runtime (Sample.ten_tree "x")
                [("X", Sample.int 3)]) as (_ & _ & _ & H & _).
    exact H.
Defined.

(** ** Display names *)

Lemma split_underscore_nonempty s : split_underscore s <> [].
Proof.
  induction s as [|c s IH]; simpl; [discriminate|].
  destruct (Ascii.eqb c "_"); [discriminate|].
  destruct (split_underscore s); discriminate.
Qed.

Lemma toUpperCase_not_lowercase c :
  let n := nat_of_ascii (toUpperCase c) in
  (97 <=? n)%nat && (n <=? 122)%nat = false.
Proof.
  unfold toUpperCase.
  destruct ((97 <=? nat_of_ascii c)%nat && (nat_of_ascii c <=? 122)%nat) eqn:E.
  - apply andb_true_iff in E. destruct E as [E1 E2].
    apply Nat.leb_le in E1, E2. cbv zeta.
    rewrite nat_ascii_embedding by lia.
    apply andb_false_iff. left. apply Nat.leb_gt. lia.
  - exact E.
Qed.

Lemma join_space_head c w ws :
  exists tail, join_space (String c w :: ws) = String c tail.
Proof. destruct ws; simpl; eauto. Qed.

Lemma featureMap_values_capitalized f pretty :
  get f featureMap = Some pretty -> starts_lowercase pretty = false.
Proof.
  intros H. apply get_In in H. unfold featureMap in H. simpl in H.
  repeat (destruct H as [H|H]; [injection H as <- <-; reflexivity|]).
  contradiction.
Qed.

Lemma formatFeatureName_not_lowercase f :
  starts_lowercase (formatFeatureName f) = false.
Proof.
  unfold formatFeatureName.
  destruct (get f featureMap) as [pretty|] eqn:G;
    [exact (featureMap_values_capitalized f pretty G)|].
  destruct f as [|c s]; [reflexivity|].
  cbn [split_underscore]. destruct (Ascii.eqb c "_") eqn:Ec.
  - cbn [map capitalize].
    pose proof (split_underscore_nonempty s) as Hne.
    destruct (split_underscore s) as [|w ws]; [congruence|]. reflexivity.
  - assert (Hs : exists w ws,
               match split_underscore s with
               | [] => [String c ""]
               | w :: ws => String c w :: ws
               end = String c w :: ws)
      by (destruct (split_underscore s); eauto).
    destruct Hs as (w & ws & ->). cbn [map capitalize].
    destruct (join_space_head (toUpperCase c) w (map capitalize ws))
      as [tail ->].
    exact (toUpperCase_not_lowercase c).
Qed.

(** X17.  For a column that bears no inherited name, [formatFeatureName]
    never returns a name that starts with a letter from [a] to [z]: a
    column whose name starts with one is stored in the tree under another
    name. *)
Theorem display_name_never_starts_lowercase f :
  inherited f = false ->
  starts_lowercase (formatFeatureName f) = false
  /\ (starts_lowercase f = true -> formatFeatureName f <> f).
Proof.
  intros _. split; [apply formatFeatureName_not_lowercase|].
  intros Hf E. pose proof (formatFeatureName_not_lowercase f) as H.
  rewrite E in H. congruence.
Qed.

Lemma display_name_never_starts_lowercase_witness :
  inherited "age" = false
  /\ starts_lowercase "age" = true /\ formatFeatureName "age" <> "age".
Proof.
  split; [reflexivity|]. split; [reflexivity|].
  apply (proj2 (display_name_never_starts_lowercase "age" eq_refl)).
  reflexivity.
Defined.

Lemma get_lowercase_keys_misses {A} (input : obj A) f :
  Forall (fun k => starts_lowercase k = true) (keys input) ->
  starts_lowercase f = false -> get f input = None.
Proof.
  intros Hkeys Hf. apply get_None_keys. intros Hin.
  rewrite Forall_forall in Hkeys. specialize (Hkeys f Hin). congruence.
Qed.

(** X18.  On a tree built from records whose columns bear no inherited
    name, an input all of whose keys start with a letter from [a] to [z]
    (column names such as [age] or [cp]) is read as if it were empty:
    none of the tested features is found in it, so the prediction and the
    path are those of the empty input, whatever values the input holds. *)
Theorem lowercase_keyed_input_is_ignored rt target data maxDepth t input :
  plain_columns data ->
  buildDecisionTree rt target data maxDepth = Ok (Some t) ->
  Forall (fun k => starts_lowercase k = true) (keys input) ->
  (forall f, In f (tree_features t) -> get f input = None)
  /\ predictFromTree rt t input = predictFromTree rt t []
  /\ highlightDecisionPath rt t input = highlightDecisionPath rt t [].
Proof.
  intros _ Hb Hkeys.
  assert (Hmiss : forall f, In f (tree_features t) -> get f input = None).
  { intros f Hf.
    destruct (built_features_origin rt target data maxDepth t Hb f Hf)
      as (column & _ & _ & _ & _ & _ & _ & ->).
    apply get_lowercase_keys_misses; auto.
    apply formatFeatureName_not_lowercase. }
  split; [exact Hmiss|].
  apply inference_depends_on_tested_features.
  intros f Hf. now rewrite (Hmiss f Hf).
Qed.

Lemma lowercase_keyed_input_is_ignored_witness :
  plain_columns (Sample.ten "x")
  /\ buildDecisionTree Reference.runtime "y" (Sample.ten "x") (Fin 2)
     = Ok (Some (Sample.ten_tree "x"))
  /\ Forall (fun k => starts_lowercase k = true) (keys [("x", Sample.int 3)])
  /\ predictFromTree Reference.runtime (Sample.ten_tree "x") [("x", Sample.int 3)]
     = predictFromTree Reference.runtime (Sample.ten_tree "x") [].
Proof.
  assert (H1 : buildDecisionTree Reference.runtime "y" (Sample.ten "x") (Fin 2)
               = Ok (Some (Sample.ten_tree "x"))) by (vm_compute; reflexivity).
  assert (H2 : Forall (fun k => starts_lowercase k = true)
                      (keys [("x", Sample.int 3)]))
    by (repeat constructor).
  assert (H0 : plain_columns (Sample.ten "x")) by (repeat constructor).
  split; [exact H0|]. split; [exact H1|]. split; [exact H2|].
  exact (proj1 (proj2 (lowercase_keyed_input_is_ignored Reference.runtime "y"
                         (Sample.ten "x") (Fin 2) (Sample.ten_tree "x")
                         [("x", Sample.int 3)] H0 H1 H2))).
Defined.

(** * The form *)

(** X19.  [handleFeatureChange] writes the new value under the changed
    name and leaves every other entry of the input as it was; when the
    tree does not test the changed name, the prediction, the confidence
    and the path it shows are those of the input before the change. *)
Theorem feature_change_touches_one_entry rt treeData st name value_ :
  let st' := handleFeatureChange rt treeData st name value_ in
  get name (inputData st') = Some value_
  /\ (forall k, k <> name -> get k (inputData st') = get k (inputData st))
  /\ (forall tree,
         treeData = Some tree -> ~ In name (tree_features tree) ->
         shownPrediction st'
         = Some (prediction (predictFromTree rt tree (inputData st)))
         /\ shownConfidence st'
            = Some (confidence (predictFromTree rt tree (inputData st)))
         /\ selectedPath st' = highlightDecisionPath rt tree (inputData st)).
Proof.
  intros st'.
  assert (Hin : inputData st' = set name value_ (inputData st))
    by (unfold st', handleFeatureChange; destruct treeData; reflexivity).
  split; [rewrite Hin; apply get_set_same|].
  split; [intros k Hk; rewrite Hin; now apply get_set_other|].
  intros tree -> Hname. unfold st', handleFeatureChange.
  cbn [shownPrediction shownConfidence selectedPath].
  destruct (inference_depends_on_tested_features rt tree
              (set name value_ (inputData st)) (inputData st)) as [E1 E2].
  - intros f Hf. apply get_set_other. intros ->. contradiction.
  - rewrite E1, E2. auto.
Qed.

Lemma feature_change_touches_one_entry_witness :
  let st := {| inputData := [("X", Sample.int 3); ("other", Str "u")];
               shownPrediction := None; shownConfidence := None;
               selectedPath := [] |} in
  "X" <> "other"
  /\ get "X" (inputData (handleFeatureChange Reference.runtime
                           (Some (Sample.ten_tree "x")) st "other" (Str "v")))
     = get "X" (inputData st).
Proof.
  intros st. split; [discriminate|].
  destruct (feature_change_touches_one_entry Reference.runtime
              (Some (Sample.ten_tree "x")) st "other" (Str "v"))
    as (_ & H & _).
  apply H. discriminate.
Defined.

(** X20.  When the tree of the component is a built tree, the prediction
    and the confidence shown after a feature change are the name and the
    confidence of the last node of the path highlighted by the same
    change, and that node is a leaf. *)
Theorem shown_prediction_matches_highlighted_path
    rt target data maxDepth tree st name value_ :
  buildDecisionTree rt target data maxDepth = Ok (Some tree) ->
  let st' := handleFeatureChange rt (Some tree) st name value_ in
  let final := last (selectedPath st') tree in
  is_leaf final = true
  /\ shownPrediction st' = Some (node_name final)
  /\ shownConfidence st' = Some (node_confidence final).
Proof.
  intros Hb st' final. unfold st', handleFeatureChange in final |- *.
  cbn [shownPrediction shownConfidence selectedPath] in final |- *.
  pose proof (path_ends_on_leaf rt tree (set name value_ (inputData st))) as Hin.
  fold final in Hin.
  split; [exact (leaves_are_leaves _ _ Hin)|].
  rewrite predict_reads_path_end. fold final. cbn [prediction confidence].
  split; [reflexivity|].
  pose proof (built_leaves_confident _ _ _ _ _ _ Hb) as Hl.
  rewrite Forall_forall in Hl.
  destruct (Hl final Hin) as (q & -> & Hq). now rewrite or_else_pos.
Qed.

Lemma shown_prediction_matches_highlighted_path_witness :
  let st := {| inputData := []; shownPrediction := None;
               shownConfidence := None; selectedPath := [] |} in
  buildDecisionTree Reference.runtime "y" (Sample.ten "x") (Fin 2)
  = Ok (Some (Sample.ten_tree "x"))
  /\ shownPrediction (handleFeatureChange Reference.runtime
                        (Some (Sample.ten_tree "x")) st "X" (Sample.int 3))
     = Some (node_name
               (last (selectedPath
                        (handleFeatureChange Reference.runtime
                           (Some (Sample.ten_tree "x")) st "X" (Sample.int 3)))
                     (Sample.ten_tree "x"))).
Proof.
  intros st.
  assert (H1 : buildDecisionTree Reference.runtime "y" (Sample.ten "x") (Fin 2)
               = Ok (Some (Sample.ten_tree "x"))) by (vm_compute; reflexivity).
  split; [exact H1|].
  exact (proj1 (proj2 (shown_prediction_matches_highlighted_path
                         Reference.runtime "y" (Sample.ten "x") (Fin 2)
                         (Sample.ten_tree "x") st "X" (Sample.int 3) H1))).
Defined.

(** * Further properties of the importance *)

Lemma contributions_pos t :
  decisions_scored t ->
  forall depth, Forall (fun e => 0 < snd e) (contributions t depth).
Proof.
  induction t as [n c s d | n cnd c f th s d l IHl r IHr]; intros Hsc depth.
  - constructor.
  - simpl in Hsc. destruct Hsc as (_ & Hs & (g & -> & Hg) & Hl & Hr).
    cbn [contributions to_Q]. constructor.
    + simpl. now apply contribution_pos.
    + apply Forall_app. auto.
Qed.

Lemma total_of_bounds f cs :
  Forall (fun e => 0 < snd e) cs ->
  0 <= total_of f cs /\ total_of f cs <= grand_total cs
  /\ (In f (map fst cs) -> 0 < total_of f cs).
Proof.
  induction 1 as [|[f' c] cs Hc _ IH]; simpl in *.
  - split; [lra|]. split; [lra|]. contradiction.
  - destruct IH as (H0 & H1 & H2).
    destruct (streq f f') eqn:E.
    + split; [lra|]. split; [lra|]. intros _. lra.
    + split; [lra|]. split; [lra|]. intros [Hf|Hf].
      * apply streq_false in E. congruence.
      * specialize (H2 Hf). lra.
Qed.

(** X21.  For a built tree none of whose tested features has the empty
    name, [calculateFeatureImportance] returns the empty list when the
    tree is a leaf; otherwise it lists every tested feature once, with
    its share of the grand total of [(samples/100) * 0.9^depth * gain]
    over the decision nodes, in descending order; each weight is above 0
    and at most 1 and the weights add up to 1. *)
Theorem importance_is_a_normalised_ranking rt target data maxDepth t :
  buildDecisionTree rt target data maxDepth = Ok (Some t) ->
  ~ In "" (tree_features t) ->
  let cs := contributions t 0 in
  let ranking := calculateFeatureImportance (Some t) in
  (is_leaf t = true -> ranking = [])
  /\ (is_leaf t = false ->
      descending ranking
      /\ NoDup (map fst ranking)
      /\ (forall f, In f (map fst ranking) <-> In f (tree_features t))
      /\ (forall f w, In (f, w) ranking ->
            exists q, w = Fin q /\ q == total_of f cs / grand_total cs
                      /\ 0 < q /\ q <= 1)
      /\ sum_weights ranking == 1).
Proof.
  intros Hb Hnames cs ranking.
  assert (Hfeat : forall u depth, map fst (contributions u depth) = tree_features u).
  { induction u as [|? ? ? ? ? ? ? l IHl r IHr]; intros depth; simpl; auto.
    rewrite map_app, IHl, IHr. reflexivity. }
  assert (Hall : Forall (fun e => fst e <> "") (contributions t 0)).
  { apply Forall_forall. intros e He Hf. apply Hnames.
    rewrite <- (Hfeat t 0%nat). rewrite <- Hf. now apply in_map. }
  destruct (importance_of_built_tree rt target data maxDepth t Hb Hall)
    as [Hleaf Hnode].
  split; [exact Hleaf|]. intros Hl.
  destruct (Hnode Hl) as (H1 & H2 & H3 & H4 & H5).
  pose proof (contributions_pos t
                (built_decisions_scored _ _ _ _ _ _ Hb 0%nat Hall) 0%nat) as Hpos.
  assert (Hne : contributions t 0 <> []) by (destruct t; simpl in *; discriminate).
  pose proof (grand_total_pos _ Hne Hpos) as Hg.
  split; [exact H1|]. split; [exact H2|].
  split; [intros f; rewrite <- (Hfeat t 0%nat); apply H3|].
  split; [|exact H5].
  intros f w Hin. destruct (H4 f w Hin) as (q & -> & Hq).
  exists q. split; [reflexivity|]. split; [exact Hq|].
  assert (Hf : In f (map fst (contributions t 0))).
  { apply H3. change f with (fst (f, Fin q)). now apply in_map. }
  destruct (total_of_bounds f _ Hpos) as (_ & Hle & Hlt).
  specialize (Hlt Hf). fold cs in Hq, Hle, Hlt, Hg. rewrite Hq. split.
  - apply Qlt_shift_div_l; [exact Hg|]. lra.
  - apply Qle_shift_div_r; [exact Hg|]. lra.
Qed.

Lemma importance_is_a_normalised_ranking_witness :
  buildDecisionTree Reference.runtime "y" (Sample.ten "x") (Fin 2)
  = Ok (Some (Sample.ten_tree "x"))
  /\ ~ In "" (tree_features (Sample.ten_tree "x"))
  /\ sum_weights (calculateFeatureImportance (Some (Sample.ten_tree "x"))) == 1.
Proof.
  assert (H1 : buildDecisionTree Reference.runtime "y" (Sample.ten "x") (Fin 2)
               = Ok (Some (Sample.ten_tree "x"))) by (vm_compute; reflexivity).
  assert (H2 : ~ In "" (tree_features (Sample.ten_tree "x"))).
  { intros [H|[]]. discriminate. }
  split; [exact H1|]. split; [exact H2|].
  destruct (importance_is_a_normalised_ranking Reference.runtime "y"
              (Sample.ten "x") (Fin 2) (Sample.ten_tree "x") H1 H2) as [_ H].
  destruct (H eq_refl) as (_ & _ & _ & _ & H5). exact H5.
Defined.

(** * The inputs of the form *)

Lemma set_of_spec l :
  forall seen,
    NoDup (set_of seen l)
    /\ forall x, In x (set_of seen l) <-> In x l /\ ~ In x seen.
Proof.
  induction l as [|y l IH]; intros seen; simpl.
  - split; [constructor|]. tauto.
  - destruct (existsb (streq y) seen) eqn:E.
    + destruct (IH seen) as [Hnd Hin]. split; [exact Hnd|].
      intros x. rewrite Hin. split; [tauto|].
      intros [[->|Hx] Hs]; [|tauto].
      exfalso. apply existsb_exists in E. destruct E as (z & Hz & Ez).
      apply streq_true in Ez. subst. contradiction.
    + destruct (IH (y :: seen)) as [Hnd Hin]. split.
      * constructor; [|exact Hnd]. rewrite Hin. simpl. tauto.
      * intros x. simpl. rewrite Hin. simpl.
        assert (Hy : ~ In y seen).
        { intros Hy. rewrite <- not_true_iff_false in E. apply E.
          apply existsb_exists. exists y. split; auto. apply streq_refl. }
        destruct (string_dec y x) as [->|Hne]; [tauto|].
        split; [intros [?|?]; [congruence|tauto]|tauto].
Qed.

Lemma min2_le a b :
  a <> NaN -> b <> NaN ->
  min2 a b <> NaN /\ leb (min2 a b) a = true /\ leb (min2 a b) b = true.
Proof.
  intros Ha Hb.
  assert (E : min2 a b = if ltb b a then b else a)
    by (destruct a, b; try congruence; reflexivity).
  rewrite E. destruct (ltb b a) eqn:L.
  - repeat split; auto using ltb_leb, leb_refl.
  - repeat split; auto using leb_refl. now apply not_ltb_leb.
Qed.

Lemma max2_ge a b :
  a <> NaN -> b <> NaN ->
  max2 a b <> NaN /\ leb a (max2 a b) = true /\ leb b (max2 a b) = true.
Proof.
  intros Ha Hb.
  assert (E : max2 a b = if ltb a b then b else a)
    by (destruct a, b; try congruence; reflexivity).
  rewrite E. destruct (ltb a b) eqn:L.
  - repeat split; auto using ltb_leb, leb_refl.
  - repeat split; auto using leb_refl. now apply not_ltb_leb.
Qed.

Lemma fold_min2_le l :
  ~ In NaN l ->
  forall acc, acc <> NaN ->
    fold_left min2 l acc <> NaN
    /\ leb (fold_left min2 l acc) acc = true
    /\ forall x, In x l -> leb (fold_left min2 l acc) x = true.
Proof.
  induction l as [|y l IH]; intros Hl acc Hacc; simpl.
  - split; [exact Hacc|]. split; [now apply leb_refl|]. intros x [].
  - assert (Hy : y <> NaN) by (intros ->; apply Hl; now left).
    destruct (min2_le acc y Hacc Hy) as (Hm & Hma & Hmy).
    destruct (IH (fun H => Hl (or_intror H)) (min2 acc y) Hm) as (H1 & H2 & H3).
    split; [exact H1|]. split; [exact (leb_trans _ _ _ H2 Hma)|].
    intros x [<-|Hx]; [exact (leb_trans _ _ _ H2 Hmy)|auto].
Qed.

Lemma fold_max2_ge l :
  ~ In NaN l ->
  forall acc, acc <> NaN ->
    fold_left max2 l acc <> NaN
    /\ leb acc (fold_left max2 l acc) = true
    /\ forall x, In x l -> leb x (fold_left max2 l acc) = true.
Proof.
  induction l as [|y l IH]; intros Hl acc Hacc; simpl.
  - split; [exact Hacc|]. split; [now apply leb_refl|]. intros x [].
  - assert (Hy : y <> NaN) by (intros ->; apply Hl; now left).
    destruct (max2_ge acc y Hacc Hy) as (Hm & Hma & Hmy).
    destruct (IH (fun H => Hl (or_intror H)) (max2 acc y) Hm) as (H1 & H2 & H3).
    split; [exact H1|]. split; [exact (leb_trans _ _ _ Hma H2)|].
    intros x [<-|Hx]; [exact (leb_trans _ _ _ Hmy H2)|auto].
Qed.

Section FormFacts.
Variable rt : Runtime.
Variable d3_mean : list num -> option num.
Variable Math_round : num -> num.
Variable dataset : string.

Local Abbreviation kept :=
  (fun key => negb (existsb (streq key) (excludeColumns dataset))).

Lemma extract_loop data (entries : obj value) acc :
  fold_left
    (fun features (entry : string * value) =>
       let key := fst entry in
       if existsb (streq key) (excludeColumns dataset) then features
       else features ++ [feature_input rt d3_mean Math_round data key])
    entries acc
  = acc ++ map (feature_input rt d3_mean Math_round data)
               (filter kept (keys entries)).
Proof.
  revert acc. induction entries as [|[k v] entries IH]; intros acc; simpl.
  - now rewrite app_nil_r.
  - rewrite IH. destruct (existsb (streq k) (excludeColumns dataset)); simpl.
    + reflexivity.
    + now rewrite <- app_assoc.
Qed.

Lemma extract_as_map firstRow rest :
  extractFeatureInputs rt d3_mean Math_round dataset (firstRow :: rest)
  = Ok (map (feature_input rt d3_mean Math_round (firstRow :: rest))
            (filter kept (keys firstRow))).
Proof. unfold extractFeatureInputs. now rewrite extract_loop. Qed.

Lemma feature_input_name data key :
  fi_name (feature_input rt d3_mean Math_round data key) = key.
Proof. unfold feature_input. destruct (forallb _ _); reflexivity. Qed.

Lemma feature_input_type data key :
  fi_type (feature_input rt d3_mean Math_round data key) = numeric
  <-> forall row, In row data -> reads_as_number rt (field row key) = true.
Proof.
  unfold feature_input.
  destruct (forallb (reads_as_number rt) (map (fun row => field row key) data))
    eqn:E; simpl.
  - split; [intros _|reflexivity]. intros row Hrow.
    rewrite forallb_forall in E. apply E.
    now apply (in_map (fun row => field row key)).
  - split; [discriminate|]. intros H. exfalso.
    rewrite <- not_true_iff_false in E. apply E. apply forallb_forall.
    intros v Hv. apply in_map_iff in Hv. destruct Hv as (row & <- & Hrow). auto.
Qed.

Lemma target_is_excluded : In (getTargetColumn dataset) (excludeColumns dataset).
Proof.
  unfold getTargetColumn, excludeColumns.
  destruct (streq dataset "Adult Income"); [simpl; tauto|].
  destruct (streq dataset "Heart Disease"); [simpl; tauto|].
  destruct (streq dataset "Loan Approval"); simpl; tauto.
Qed.
End FormFacts.

(** X22.  [extractFeatureInputs] raises on an empty data set; otherwise
    it returns one input per column of the first record that is not
    excluded for the data set, in the order of the columns and under the
    column's own name.  The target column of the data set is never among
    them, and an input is numeric exactly when every record's value for
    the column converts to a number other than NaN and is not the empty
    string. *)
Theorem form_has_one_input_per_kept_column
    rt d3_mean Math_round dataset firstRow rest :
  let data := firstRow :: rest in
  extractFeatureInputs rt d3_mean Math_round dataset [] = TypeError
  /\ exists inputs,
       extractFeatureInputs rt d3_mean Math_round dataset data = Ok inputs
       /\ map fi_name inputs
          = filter (fun key => negb (existsb (streq key) (excludeColumns dataset)))
                   (keys firstRow)
       /\ ~ In (getTargetColumn dataset) (map fi_name inputs)
       /\ forall f, In f inputs ->
                    (fi_type f = numeric
                     <-> forall row, In row data ->
                           reads_as_number rt (field row (fi_name f)) = true).
Proof.
  intros data. subst data. split; [reflexivity|].
  eexists. split; [apply extract_as_map|].
  assert (Hnames : map fi_name
                     (map (feature_input rt d3_mean Math_round (firstRow :: rest))
                          (filter (fun key =>
                                     negb (existsb (streq key)
                                                   (excludeColumns dataset)))
                                  (keys firstRow)))
                   = filter (fun key =>
                               negb (existsb (streq key) (excludeColumns dataset)))
                            (keys firstRow)).
  { rewrite map_map. erewrite map_ext; [apply map_id|].
    intros k. apply feature_input_name. }
  split; [exact Hnames|]. split.
  - rewrite Hnames. intros Hin. apply filter_In in Hin.
    destruct Hin as [_ Hk]. apply negb_true_iff in Hk.
    rewrite <- not_true_iff_false in Hk. apply Hk. apply existsb_exists.
    exists (getTargetColumn dataset). split; [apply target_is_excluded|].
    apply streq_refl.
  - intros f Hf. apply in_map_iff in Hf. destruct Hf as (k & <- & _).
    rewrite feature_input_name. apply feature_input_type.
Qed.

(** X23.  A categorical input offers the distinct values of its column,
    each once, written as strings: every record's value is among the
    options and every option is the value of some record.  Its default
    value is the value of the first record, and it has no range. *)
Theorem categorical_input_lists_the_column
    rt d3_mean Math_round firstRow rest key :
  let data := firstRow :: rest in
  let f := feature_input rt d3_mean Math_round data key in
  fi_type f = categorical ->
  exists options,
    fi_options f = Some options
    /\ NoDup options
    /\ (forall c, In c options
                  <-> exists row, In row data /\ String_ rt (field row key) = c)
    /\ fi_value f = Str (String_ rt (field firstRow key))
    /\ In (String_ rt (field firstRow key)) options
    /\ fi_min f = None /\ fi_max f = None.
Proof.
  intros data f. unfold f, feature_input.
  destruct (forallb (reads_as_number rt) (map (fun row => field row key) data));
    [discriminate|].
  intros _. cbn [fi_options fi_value fi_min fi_max].
  destruct (set_of_spec (map (fun row => String_ rt (field row key)) data) [])
    as [Hnd Hin].
  eexists. split; [reflexivity|]. split; [exact Hnd|].
  assert (Hiff : forall c,
             In c (set_of [] (map (fun row => String_ rt (field row key)) data))
             <-> exists row, In row data /\ String_ rt (field row key) = c).
  { intros c. rewrite Hin, in_map_iff. split.
    - intros [(row & E & Hrow) _]. eauto.
    - intros (row & Hrow & E). split; [eauto|]. intros []. }
  split; [exact Hiff|].
  split; [reflexivity|].
  split; [|split; reflexivity].
  apply Hiff. exists firstRow. split; [now left|reflexivity].
Qed.

Lemma categorical_input_lists_the_column_witness :
  let f := feature_input Reference.runtime ReferenceForm.mean ReferenceForm.round
             (Sample.ten "x") "y" in
  fi_type f = categorical
  /\ fi_options f = Some ["a"; "b"]
  /\ fi_value f = Str "a".
Proof.
  intros f.
  assert (H : fi_type f = categorical) by reflexivity.
  split; [exact H|].
  destruct (categorical_input_lists_the_column Reference.runtime
              ReferenceForm.mean ReferenceForm.round
              (Sample.row "x" 1 "a")
              (List.tl (Sample.ten "x")) "y" H)
    as (options & E & _ & _ & Ev & _).
  split; [reflexivity|exact Ev].
Defined.

(** X24.  A numeric input has no options, and its range covers the
    column: the number every record holds for it lies between [min] and
    [max]. *)
Theorem numeric_input_range_covers_the_column
    rt d3_mean Math_round data key :
  let f := feature_input rt d3_mean Math_round data key in
  fi_type f = numeric ->
  fi_options f = None
  /\ exists lo hi,
       fi_min f = Some lo /\ fi_max f = Some hi
       /\ forall row, In row data ->
            leb lo (Number_ rt (field row key)) = true
            /\ leb (Number_ rt (field row key)) hi = true.
Proof.
  intros f. unfold f, feature_input.
  destruct (forallb (reads_as_number rt) (map (fun row => field row key) data))
    eqn:E; [|discriminate].
  intros _. cbn [fi_options fi_min fi_max]. split; [reflexivity|].
  do 2 eexists. split; [reflexivity|]. split; [reflexivity|].
  assert (Hnan : ~ In NaN (map (fun row => Number_ rt (field row key)) data)).
  { intros Hin. apply in_map_iff in Hin. destruct Hin as (row & En & Hrow).
    rewrite forallb_forall in E.
    specialize (E (field row key) (in_map (fun row => field row key) _ _ Hrow)).
    unfold reads_as_number in E. rewrite En in E. discriminate. }
  intros row Hrow.
  assert (Hin : In (Number_ rt (field row key))
                   (map (fun row => Number_ rt (field row key)) data))
    by (apply (in_map (fun row => Number_ rt (field row key))); exact Hrow).
  split.
  - destruct (fold_min2_le _ Hnan PInf ltac:(discriminate)) as (_ & _ & H).
    exact (H _ Hin).
  - destruct (fold_max2_ge _ Hnan NInf ltac:(discriminate)) as (_ & _ & H).
    exact (H _ Hin).
Qed.

Lemma numeric_input_range_covers_the_column_witness :
  let f := feature_input Reference.runtime ReferenceForm.mean ReferenceForm.round
             (Sample.ten "x") "x" in
  fi_type f = numeric
  /\ fi_options f = None
  /\ fi_value f = Num (Fin 6).
Proof.
  intros f.
  assert (H : fi_type f = numeric) by reflexivity.
  split; [exact H|].
  split.
  - exact (proj1 (numeric_input_range_covers_the_column Reference.runtime
                    ReferenceForm.mean ReferenceForm.round (Sample.ten "x")
                    "x" H)).
  - vm_compute. reflexivity.
Defined.

(** X25.  A column that [findBestSplit] takes for numeric (every value
    is a number) and that holds no NaN is also a numeric input of the
    form. *)
Theorem numeric_for_the_builder_is_numeric_for_the_form
    rt d3_mean Math_round data key :
  numeric_column data key = true ->
  (forall row, In row data -> field row key <> Num NaN) ->
  fi_type (feature_input rt d3_mean Math_round data key) = numeric.
Proof.
  intros Hnum Hnan. apply feature_input_type. intros row Hrow.
  unfold numeric_column in Hnum. rewrite forallb_forall in Hnum.
  specialize (Hnum _ (in_map (fun row => field row key) _ _ Hrow)).
  specialize (Hnan row Hrow).
  destruct (field row key) as [[| | |q]| |]; try discriminate;
    try reflexivity.
  congruence.
Qed.

Lemma numeric_for_the_builder_is_numeric_for_the_form_witness :
  numeric_column (Sample.ten "x") "x" = true
  /\ (forall row, In row (Sample.ten "x") -> field row "x" <> Num NaN)
  /\ fi_type (feature_input Reference.runtime ReferenceForm.mean
                ReferenceForm.round (Sample.ten "x") "x") = numeric.
Proof.
  assert (H1 : numeric_column (Sample.ten "x") "x" = true) by reflexivity.
  assert (H2 : forall row, In row (Sample.ten "x") -> field row "x" <> Num NaN).
  { intros row Hrow. simpl in Hrow.
    repeat (destruct Hrow as [<-|Hrow]; [discriminate|]). contradiction. }
  split; [exact H1|]. split; [exact H2|].
  exact (numeric_for_the_builder_is_numeric_for_the_form Reference.runtime
           ReferenceForm.mean ReferenceForm.round _ _ H1 H2).
Defined.

Lemma defaultInputData_fold inputs :
  forall o k,
    ~ In k (map fi_name inputs) ->
    get k (fold_left (fun o f => set (fi_name f) (fi_value f) o) inputs o)
    = get k o.
Proof.
  induction inputs as [|f inputs IH]; intros o k Hk; simpl; auto.
  rewrite IH by (simpl in Hk; tauto).
  apply get_set_other. simpl in Hk. intros ->. tauto.
Qed.

(** X26.  The initial input built from the form reads back, under each
    input's name, that input's default value, provided no two inputs
    share a name; it has an entry for the names of the form and for no
    other. *)
Theorem default_input_holds_the_default_values inputs :
  NoDup (map fi_name inputs) ->
  (forall f, In f inputs ->
             get (fi_name f) (defaultInputData inputs) = Some (fi_value f))
  /\ (forall k, ~ In k (map fi_name inputs) ->
                get k (defaultInputData inputs) = None).
Proof.
  unfold defaultInputData. intros Hnd. split.
  - generalize (@nil (string * value)) as o.
    induction inputs as [|g inputs IH]; intros o f Hf; [contradiction|].
    simpl in Hnd. inversion Hnd as [|? ? Hg Hnd']; subst.
    simpl. destruct Hf as [->|Hf].
    + rewrite defaultInputData_fold by assumption. apply get_set_same.
    + now apply IH.
  - intros k Hk. now rewrite defaultInputData_fold.
Qed.

Lemma default_input_holds_the_default_values_witness :
  let inputs :=
    [ feature_input Reference.runtime ReferenceForm.mean ReferenceForm.round
        (Sample.ten "x") "x";
      feature_input Reference.runtime ReferenceForm.mean ReferenceForm.round
        (Sample.ten "x") "y" ] in
  NoDup (map fi_name inputs)
  /\ get "x" (defaultInputData inputs) = Some (Num (Fin 6)).
Proof.
  intros inputs.
  assert (H : NoDup (map fi_name inputs)).
  { simpl. constructor; [intros [H|[]]; discriminate|].
    constructor; [intros []|constructor]. }
  split; [exact H|].
  destruct (default_input_holds_the_default_values inputs H) as [G _].
  specialize (G (feature_input Reference.runtime ReferenceForm.mean
                   ReferenceForm.round (Sample.ten "x") "x")
                (or_introl eq_refl)).
  rewrite feature_input_name in G. rewrite G. vm_compute. reflexivity.
Defined.
